(** * Open Racer firmware: a shallow embedding of the control core

    The firmware (open-racer-firmware.c and uart.c) is a single-threaded
    AVR program.  Its static variables, the I/O registers it touches and the
    outside world it polls are gathered in one record, [Board]; every C
    function becomes a computation in a small state monad over [Board]
    whose failure case stands for a busy-wait that never ends.

    Integers are [Z] with the C conversions written out: [u8] for
    [uint8_t], [u16] for the 16-bit timer registers, [i16] for [int16_t]
    ([int] is 16 bits wide on this target). *)

From Stdlib Require Import ZArith String Ascii List Bool Lia.
Import ListNotations.
Local Open Scope Z_scope.

(** ** Machine integers *)

Definition u8 (x : Z) : Z := x mod 256.
Definition u16 (x : Z) : Z := x mod 65536.
Definition i16 (x : Z) : Z := (x + 32768) mod 65536 - 32768.

(** C truth value of a comparison, and C logical negation. *)
Definition c_bool (b : bool) : Z := if b then 1 else 0.
Definition c_not (x : Z) : Z := if x =? 0 then 1 else 0.

(** [_BV(bit)] of avr-libc. *)
Definition _BV (bit : Z) : Z := Z.shiftl 1 bit.

(** ** The board *)

Record Board := mkBoard {
  (* static variables of open-racer-firmware.c *)
  velocity : Z;                         (* int16_t *)
  steerposition : Z;                    (* int16_t *)
  battlevel : Z;                        (* uint8_t *)
  voltagedisplaytogglecountdown : Z;    (* uint8_t *)
  voltagedisplaytogglestate : Z;        (* uint8_t *)
  battwarntogglecountdown : Z;          (* uint8_t *)
  battwarntogglestate : Z;              (* uint8_t *)
  (* output registers *)
  OCR0A : Z;                            (* steer right duty, 8 bit *)
  OCR0B : Z;                            (* steer left duty, 8 bit *)
  OCR1A : Z;                            (* drive reverse duty, 16 bit *)
  OCR1B : Z;                            (* drive forward duty, 16 bit *)
  OCR2B : Z;                            (* blue led brightness, 8 bit *)
  PORTC : Z;                            (* led1..led4 on bits 5..2 *)
  (* the outside world, as the program polls it *)
  PIND : Z;            (* input pins; bit 4 is the bluetooth signal *)
  ADCH : nat -> Z;     (* what the ADC data register shows at the next
                          reads; index 0 is the next read *)
  uart_rx : list Z;    (* bytes received and not read yet; the RXC0 flag
                          is set exactly when this is not empty *)
  uart_tx : list Z;    (* bytes written to UDR0, oldest first *)
  (* eeprom *)
  ourmagic : Z;
  ourage : Z;
  (* bookkeeping *)
  nops : Z;            (* nop instructions spent in busy-wait delays *)
  wdt_resets : Z       (* number of wdt_reset() executed *)
}.

Definition set_velocity (x : Z) (b : Board) : Board :=
  mkBoard x (steerposition b) (battlevel b) (voltagedisplaytogglecountdown b)
    (voltagedisplaytogglestate b) (battwarntogglecountdown b)
    (battwarntogglestate b) (OCR0A b) (OCR0B b) (OCR1A b) (OCR1B b) (OCR2B b)
    (PORTC b) (PIND b) (ADCH b) (uart_rx b) (uart_tx b) (ourmagic b)
    (ourage b) (nops b) (wdt_resets b).

Definition set_steerposition (x : Z) (b : Board) : Board :=
  mkBoard (velocity b) x (battlevel b) (voltagedisplaytogglecountdown b)
    (voltagedisplaytogglestate b) (battwarntogglecountdown b)
    (battwarntogglestate b) (OCR0A b) (OCR0B b) (OCR1A b) (OCR1B b) (OCR2B b)
    (PORTC b) (PIND b) (ADCH b) (uart_rx b) (uart_tx b) (ourmagic b)
    (ourage b) (nops b) (wdt_resets b).

Definition set_battlevel (x : Z) (b : Board) : Board :=
  mkBoard (velocity b) (steerposition b) x (voltagedisplaytogglecountdown b)
    (voltagedisplaytogglestate b) (battwarntogglecountdown b)
    (battwarntogglestate b) (OCR0A b) (OCR0B b) (OCR1A b) (OCR1B b) (OCR2B b)
    (PORTC b) (PIND b) (ADCH b) (uart_rx b) (uart_tx b) (ourmagic b)
    (ourage b) (nops b) (wdt_resets b).

Definition set_voltagedisplaytogglecountdown (x : Z) (b : Board) : Board :=
  mkBoard (velocity b) (steerposition b) (battlevel b) x
    (voltagedisplaytogglestate b) (battwarntogglecountdown b)
    (battwarntogglestate b) (OCR0A b) (OCR0B b) (OCR1A b) (OCR1B b) (OCR2B b)
    (PORTC b) (PIND b) (ADCH b) (uart_rx b) (uart_tx b) (ourmagic b)
    (ourage b) (nops b) (wdt_resets b).

Definition set_voltagedisplaytogglestate (x : Z) (b : Board) : Board :=
  mkBoard (velocity b) (steerposition b) (battlevel b)
    (voltagedisplaytogglecountdown b) x (battwarntogglecountdown b)
    (battwarntogglestate b) (OCR0A b) (OCR0B b) (OCR1A b) (OCR1B b) (OCR2B b)
    (PORTC b) (PIND b) (ADCH b) (uart_rx b) (uart_tx b) (ourmagic b)
    (ourage b) (nops b) (wdt_resets b).

Definition set_battwarntogglecountdown (x : Z) (b : Board) : Board :=
  mkBoard (velocity b) (steerposition b) (battlevel b)
    (voltagedisplaytogglecountdown b) (voltagedisplaytogglestate b) x
    (battwarntogglestate b) (OCR0A b) (OCR0B b) (OCR1A b) (OCR1B b) (OCR2B b)
    (PORTC b) (PIND b) (ADCH b) (uart_rx b) (uart_tx b) (ourmagic b)
    (ourage b) (nops b) (wdt_resets b).

Definition set_battwarntogglestate (x : Z) (b : Board) : Board :=
  mkBoard (velocity b) (steerposition b) (battlevel b)
    (voltagedisplaytogglecountdown b) (voltagedisplaytogglestate b)
    (battwarntogglecountdown b) x (OCR0A b) (OCR0B b) (OCR1A b) (OCR1B b)
    (OCR2B b) (PORTC b) (PIND b) (ADCH b) (uart_rx b) (uart_tx b) (ourmagic b)
    (ourage b) (nops b) (wdt_resets b).

Definition set_OCR0A (x : Z) (b : Board) : Board :=
  mkBoard (velocity b) (steerposition b) (battlevel b)
    (voltagedisplaytogglecountdown b) (voltagedisplaytogglestate b)
    (battwarntogglecountdown b) (battwarntogglestate b) x (OCR0B b) (OCR1A b)
    (OCR1B b) (OCR2B b) (PORTC b) (PIND b) (ADCH b) (uart_rx b) (uart_tx b)
    (ourmagic b) (ourage b) (nops b) (wdt_resets b).

Definition set_OCR0B (x : Z) (b : Board) : Board :=
  mkBoard (velocity b) (steerposition b) (battlevel b)
    (voltagedisplaytogglecountdown b) (voltagedisplaytogglestate b)
    (battwarntogglecountdown b) (battwarntogglestate b) (OCR0A b) x (OCR1A b)
    (OCR1B b) (OCR2B b) (PORTC b) (PIND b) (ADCH b) (uart_rx b) (uart_tx b)
    (ourmagic b) (ourage b) (nops b) (wdt_resets b).

Definition set_OCR1A (x : Z) (b : Board) : Board :=
  mkBoard (velocity b) (steerposition b) (battlevel b)
    (voltagedisplaytogglecountdown b) (voltagedisplaytogglestate b)
    (battwarntogglecountdown b) (battwarntogglestate b) (OCR0A b) (OCR0B b) x
    (OCR1B b) (OCR2B b) (PORTC b) (PIND b) (ADCH b) (uart_rx b) (uart_tx b)
    (ourmagic b) (ourage b) (nops b) (wdt_resets b).

Definition set_OCR1B (x : Z) (b : Board) : Board :=
  mkBoard (velocity b) (steerposition b) (battlevel b)
    (voltagedisplaytogglecountdown b) (voltagedisplaytogglestate b)
    (battwarntogglecountdown b) (battwarntogglestate b) (OCR0A b) (OCR0B b)
    (OCR1A b) x (OCR2B b) (PORTC b) (PIND b) (ADCH b) (uart_rx b) (uart_tx b)
    (ourmagic b) (ourage b) (nops b) (wdt_resets b).

Definition set_OCR2B (x : Z) (b : Board) : Board :=
  mkBoard (velocity b) (steerposition b) (battlevel b)
    (voltagedisplaytogglecountdown b) (voltagedisplaytogglestate b)
    (battwarntogglecountdown b) (battwarntogglestate b) (OCR0A b) (OCR0B b)
    (OCR1A b) (OCR1B b) x (PORTC b) (PIND b) (ADCH b) (uart_rx b) (uart_tx b)
    (ourmagic b) (ourage b) (nops b) (wdt_resets b).

Definition set_PORTC (x : Z) (b : Board) : Board :=
  mkBoard (velocity b) (steerposition b) (battlevel b)
    (voltagedisplaytogglecountdown b) (voltagedisplaytogglestate b)
    (battwarntogglecountdown b) (battwarntogglestate b) (OCR0A b) (OCR0B b)
    (OCR1A b) (OCR1B b) (OCR2B b) x (PIND b) (ADCH b) (uart_rx b) (uart_tx b)
    (ourmagic b) (ourage b) (nops b) (wdt_resets b).

Definition set_PIND (x : Z) (b : Board) : Board :=
  mkBoard (velocity b) (steerposition b) (battlevel b)
    (voltagedisplaytogglecountdown b) (voltagedisplaytogglestate b)
    (battwarntogglecountdown b) (battwarntogglestate b) (OCR0A b) (OCR0B b)
    (OCR1A b) (OCR1B b) (OCR2B b) (PORTC b) x (ADCH b) (uart_rx b) (uart_tx b)
    (ourmagic b) (ourage b) (nops b) (wdt_resets b).

Definition set_ADCH (x : nat -> Z) (b : Board) : Board :=
  mkBoard (velocity b) (steerposition b) (battlevel b)
    (voltagedisplaytogglecountdown b) (voltagedisplaytogglestate b)
    (battwarntogglecountdown b) (battwarntogglestate b) (OCR0A b) (OCR0B b)
    (OCR1A b) (OCR1B b) (OCR2B b) (PORTC b) (PIND b) x (uart_rx b) (uart_tx b)
    (ourmagic b) (ourage b) (nops b) (wdt_resets b).

Definition set_uart_rx (x : list Z) (b : Board) : Board :=
  mkBoard (velocity b) (steerposition b) (battlevel b)
    (voltagedisplaytogglecountdown b) (voltagedisplaytogglestate b)
    (battwarntogglecountdown b) (battwarntogglestate b) (OCR0A b) (OCR0B b)
    (OCR1A b) (OCR1B b) (OCR2B b) (PORTC b) (PIND b) (ADCH b) x (uart_tx b)
    (ourmagic b) (ourage b) (nops b) (wdt_resets b).

Definition set_uart_tx (x : list Z) (b : Board) : Board :=
  mkBoard (velocity b) (steerposition b) (battlevel b)
    (voltagedisplaytogglecountdown b) (voltagedisplaytogglestate b)
    (battwarntogglecountdown b) (battwarntogglestate b) (OCR0A b) (OCR0B b)
    (OCR1A b) (OCR1B b) (OCR2B b) (PORTC b) (PIND b) (ADCH b) (uart_rx b) x
    (ourmagic b) (ourage b) (nops b) (wdt_resets b).

Definition set_ourmagic (x : Z) (b : Board) : Board :=
  mkBoard (velocity b) (steerposition b) (battlevel b)
    (voltagedisplaytogglecountdown b) (voltagedisplaytogglestate b)
    (battwarntogglecountdown b) (battwarntogglestate b) (OCR0A b) (OCR0B b)
    (OCR1A b) (OCR1B b) (OCR2B b) (PORTC b) (PIND b) (ADCH b) (uart_rx b)
    (uart_tx b) x (ourage b) (nops b) (wdt_resets b).

Definition set_ourage (x : Z) (b : Board) : Board :=
  mkBoard (velocity b) (steerposition b) (battlevel b)
    (voltagedisplaytogglecountdown b) (voltagedisplaytogglestate b)
    (battwarntogglecountdown b) (battwarntogglestate b) (OCR0A b) (OCR0B b)
    (OCR1A b) (OCR1B b) (OCR2B b) (PORTC b) (PIND b) (ADCH b) (uart_rx b)
    (uart_tx b) (ourmagic b) x (nops b) (wdt_resets b).

Definition set_nops (x : Z) (b : Board) : Board :=
  mkBoard (velocity b) (steerposition b) (battlevel b)
    (voltagedisplaytogglecountdown b) (voltagedisplaytogglestate b)
    (battwarntogglecountdown b) (battwarntogglestate b) (OCR0A b) (OCR0B b)
    (OCR1A b) (OCR1B b) (OCR2B b) (PORTC b) (PIND b) (ADCH b) (uart_rx b)
    (uart_tx b) (ourmagic b) (ourage b) x (wdt_resets b).

Definition set_wdt_resets (x : Z) (b : Board) : Board :=
  mkBoard (velocity b) (steerposition b) (battlevel b)
    (voltagedisplaytogglecountdown b) (voltagedisplaytogglestate b)
    (battwarntogglecountdown b) (battwarntogglestate b) (OCR0A b) (OCR0B b)
    (OCR1A b) (OCR1B b) (OCR2B b) (PORTC b) (PIND b) (ADCH b) (uart_rx b)
    (uart_tx b) (ourmagic b) (ourage b) (nops b) x.

(** ** The monad of firmware computations

    A computation takes the board and either returns a value with the new
    board, or never returns ([None]): the only such case is a busy-wait on
    a flag that the modelled world never raises. *)

Definition M (A : Type) : Type := Board -> option (A * Board).

Definition ret {A : Type} (a : A) : M A := fun b => Some (a, b).

Definition bind {A B : Type} (m : M A) (k : A -> M B) : M B :=
  fun b => match m b with
           | Some (a, b') => k a b'
           | None => None
           end.

Definition hang {A : Type} : M A := fun _ => None.

Definition read {A : Type} (field : Board -> A) : M A :=
  fun b => Some (field b, b).

Definition write {A : Type} (set : A -> Board -> Board) (x : A) : M unit :=
  fun b => Some (tt, set x b).

Declare Scope fw_scope.
Delimit Scope fw_scope with fw.
Notation "x <- m ;; k" := (bind m (fun x => k))
  (at level 61, m at next level, right associativity) : fw_scope.
Notation "m ;; k" := (bind m (fun _ => k))
  (at level 61, right associativity) : fw_scope.
Local Open Scope fw_scope.

(** [if (c) body] on a C truth value. *)
Definition when (c : Z) (body : M unit) : M unit :=
  if c =? 0 then ret tt else body.

(** A loop whose body runs [n] times: [while (p-- > 0) body] and
    [for (i = 0; i < n; ++i) body] where the body does not read [i]. *)
Fixpoint times (n : nat) (body : M unit) : M unit :=
  match n with
  | O => ret tt
  | S n' => body ;; times n' body
  end.

(** The same with a local variable carried through the iterations. *)
Fixpoint times_with {A : Type} (n : nat) (body : A -> M A) (a : A) : M A :=
  match n with
  | O => ret a
  | S n' => a' <- body a ;; times_with n' body a'
  end.

(** Final board of a computation, for running examples. *)
Definition exec {A : Type} (m : M A) (b : Board) : option Board :=
  match m b with
  | Some (_, b') => Some b'
  | None => None
  end.

(** The board a computation lands on (the board itself if it hangs). *)
Definition landing {A : Type} (m : M A) (b : Board) : Board :=
  match m b with
  | Some (_, b') => b'
  | None => b
  end.

(** ** Characters and strings sent over the uart *)

Definition ch (c : ascii) : Z := Z.of_nat (nat_of_ascii c).
Arguments ch c%_char.

Definition LF : ascii := ascii_of_nat 10.

Definition cstr (s : string) : list Z := map ch (list_ascii_of_string s).

(** ** uart.c *)

(** [loop_until_bit_is_set(UCSR0A, UDRE0); UDR0 = ch]: the transmitter
    always drains, the byte goes out. *)
Definition uart_sendch (c : Z) : M unit :=
  fun b => Some (tt, set_uart_tx (uart_tx b ++ [u8 c]) b).

(** [bit_is_set(UCSR0A, RXC0)], RXC0 being bit 7. *)
Definition uart_hasch : M Z :=
  fun b => Some (match uart_rx b with [] => 0 | _ :: _ => _BV 7 end, b).

(** [loop_until_bit_is_set(UCSR0A, RXC0); return UDR0]: with an empty
    receiver the wait goes on until a byte arrives; within one call no
    byte arrives in this model, and the call does not return. *)
Definition uart_getch : M Z :=
  fun b => match uart_rx b with
           | [] => hang b
           | c :: rest => Some (u8 c, set_uart_rx rest b)
           end.

Fixpoint uart_send_bytes (data : list Z) : M unit :=
  match data with
  | [] => ret tt
  | c :: rest => uart_sendch c ;; uart_send_bytes rest
  end.

Definition uart_send (data : string) : M unit := uart_send_bytes (cstr data).
Arguments uart_send data%_string.

Definition uart_sendint (v : Z) : M unit :=
  v <- (if v <? 0
        then uart_sendch (ch "-") ;; ret (i16 (- v))
        else ret v) ;;
  let th := u8 (ch "0" + Z.quot (Z.rem v 10000) 1000) in
  let h  := u8 (ch "0" + Z.quot (Z.rem v 1000) 100) in
  let t  := u8 (ch "0" + Z.quot (Z.rem v 100) 10) in
  let o  := u8 (ch "0" + Z.quot (Z.rem v 10) 1) in
  let n := false in
  n <- (if n || negb (th =? ch "0") then uart_sendch th ;; ret true
        else ret n) ;;
  n <- (if n || negb (h =? ch "0") then uart_sendch h ;; ret true
        else ret n) ;;
  n <- (if n || negb (t =? ch "0") then uart_sendch t ;; ret true
        else ret n) ;;
  uart_sendch o.

(** ** Busy-wait delays *)

Definition nop : M unit :=
  fun b => Some (tt, set_nops (nops b + 1) b).

Definition delay (p : Z) : M unit := times (Z.to_nat (u8 p)) nop.

(** delaying 10 == 1ms *)
Definition delay_100us (p : Z) : M unit :=
  times (Z.to_nat (u8 p)) (delay 133).

(** delaying 100 == 1s *)
Definition delay_10ms (hundredths : Z) : M unit :=
  times (Z.to_nat (u8 hundredths)) (delay_100us 100).

(** ** Leds *)

Definition setb (port : Z) (pin : Z) : Z := Z.lor port (Z.shiftl 1 pin).
Definition clrb (port : Z) (pin : Z) : Z :=
  Z.land port (u8 (Z.lnot (Z.shiftl 1 pin))).

Definition led1_pin : Z := 5.
Definition led2_pin : Z := 4.
Definition led3_pin : Z := 3.
Definition led4_pin : Z := 2.

Definition led_on (pin : Z) : M unit :=
  p <- read PORTC ;; write set_PORTC (setb p pin).
Definition led_off (pin : Z) : M unit :=
  p <- read PORTC ;; write set_PORTC (clrb p pin).

Definition led1on := led_on led1_pin.
Definition led1off := led_off led1_pin.
Definition led2on := led_on led2_pin.
Definition led2off := led_off led2_pin.
Definition led3on := led_on led3_pin.
Definition led3off := led_off led3_pin.
Definition led4on := led_on led4_pin.
Definition led4off := led_off led4_pin.

Definition flash_led1 (count rate : Z) : M unit :=
  led1off ;;
  delay_10ms 10 ;;
  let d := 10 in
  let d := if rate =? 1 then 5 else d in
  let d := if rate =? 2 then 2 else d in
  times (Z.to_nat (u8 count))
    (led1on ;; delay_10ms d ;; led1off ;; delay_10ms d).

(** ** The persistent age counter *)

Definition OURMAGIC : Z := 0x47.

Definition check_magic_and_show_age : M unit :=
  flash_led1 4 1 ;;
  delay_10ms 20 ;;
  m <- read ourmagic ;;
  when (c_bool (negb (m =? OURMAGIC))) (flash_led1 20 2) ;;
  age <- read ourage ;;
  led1off ;; led2off ;; led3off ;; led4off ;;
  when (Z.land age (_BV 0)) led1on ;;
  when (Z.land age (_BV 1)) led2on ;;
  when (Z.land age (_BV 2)) led3on ;;
  when (Z.land age (_BV 3)) led4on ;;
  delay_10ms 100 ;;
  led1off ;; led2off ;; led3off ;; led4off ;;
  delay_10ms 50.

Definition age_once : M unit :=
  a <- read ourage ;;
  write set_ourage (u8 (a + 1)).

(** ** Actuation: one pwm channel per direction *)

Definition motor_drive_forward (speed : Z) : M unit :=
  write set_OCR1A 0 ;;
  write set_OCR1B (u16 speed).

Definition motor_drive_reverse (speed : Z) : M unit :=
  write set_OCR1B 0 ;;
  write set_OCR1A (u16 speed).

Definition motor_steer_right (value : Z) : M unit :=
  write set_OCR0B 0 ;;
  write set_OCR0A (u8 value).

Definition motor_steer_left (value : Z) : M unit :=
  write set_OCR0A 0 ;;
  write set_OCR0B (u8 value).

Definition motor_drive_set_velocity (newvelocity : Z) : M unit :=
  let newvelocity := if 255 <? newvelocity then 255 else newvelocity in
  let newvelocity := if newvelocity <? -255 then -255 else newvelocity in
  write set_velocity newvelocity ;;
  uart_send "drive=" ;;
  (v <- read velocity ;; uart_sendint v) ;;
  uart_sendch (ch LF) ;;
  v <- read velocity ;;
  if 0 <=? v
  then motor_drive_forward (Z.land v 0xff)
  else motor_drive_reverse (0xff - Z.land v 0xff).

Definition motor_steer_set_velocity (newsteerposition : Z) : M unit :=
  let newsteerposition :=
    if 255 <? newsteerposition then 255 else newsteerposition in
  let newsteerposition :=
    if newsteerposition <? -255 then -255 else newsteerposition in
  write set_steerposition newsteerposition ;;
  uart_send "steer=" ;;
  (p <- read steerposition ;; uart_sendint p) ;;
  uart_sendch (ch LF) ;;
  p <- read steerposition ;;
  if 0 <=? p
  then motor_steer_right (Z.land p 0xff)
  else motor_steer_left (0xff - Z.land p 0xff).

(** [bit_is_set(PIND, PIND4)], returned as a [uint8_t]. *)
Definition bluetooth_connected : M Z :=
  p <- read PIND ;; ret (u8 (Z.land p (_BV 4))).

(** ** Command decoders *)

(** The compatibility protocol: direction in the high nibble, speed
    modifier in the low nibble.  The [switch] has no [default]. *)
Definition handle_char_compat_dagu (command : Z) : M unit :=
  let speed := u8 (105 + Z.land command 0x0f * 1) in
  let direction := u8 (Z.shiftr (Z.land command 0xf0) 4) in
  match direction with
  | 0 (* DAGU_DIR_0_STOP_STRAIGHT *) =>
      motor_steer_set_velocity 0 ;; motor_drive_set_velocity 0
  | 1 (* DAGU_DIR_1_FORW_STRAIGHT *) =>
      motor_steer_set_velocity 0 ;; motor_drive_set_velocity speed
  | 2 (* DAGU_DIR_2_BACK_STRAIGHT *) =>
      motor_steer_set_velocity 0 ;; motor_drive_set_velocity (- speed)
  | 3 (* DAGU_DIR_3_STOP_LEFT *) =>
      motor_steer_set_velocity (-255) ;; motor_drive_set_velocity 0
  | 4 (* DAGU_DIR_4_STOP_RIGHT *) =>
      motor_steer_set_velocity 255 ;; motor_drive_set_velocity 0
  | 5 (* DAGU_DIR_5_FORW_LEFT *) =>
      motor_steer_set_velocity (-255) ;; motor_drive_set_velocity speed
  | 6 (* DAGU_DIR_6_FORW_RIGHT *) =>
      motor_steer_set_velocity 255 ;; motor_drive_set_velocity speed
  | 7 (* DAGU_DIR_7_BACK_LEFT *) =>
      motor_steer_set_velocity (-255) ;; motor_drive_set_velocity (- speed)
  | 8 (* DAGU_DIR_8_BACK_RIGHT *) =>
      motor_steer_set_velocity 255 ;; motor_drive_set_velocity (- speed)
  | _ => ret tt
  end.

(** A read of the ADC data register: the free-running converter shows a
    fresh value at the next read. *)
Definition read_ADCH : M Z :=
  fun b => Some (u8 (ADCH b O), set_ADCH (fun k => ADCH b (S k)) b).

(** The direct protocol, one ascii byte per command (the cases are the
    character codes of the source's character constants). *)
Definition handle_char (command : Z) : M unit :=
  match command with
  | 82 (* 'R' *) => motor_steer_set_velocity 255
  | 114 (* 'r' *) => motor_steer_set_velocity 127
  | 115 (* 's' *) => motor_steer_set_velocity 0
  | 108 (* 'l' *) => motor_steer_set_velocity (-127)
  | 76 (* 'L' *) => motor_steer_set_velocity (-255)
  | 70 (* 'F' *) => motor_drive_set_velocity 255
  | 102 (* 'f' *) => motor_drive_set_velocity 127
  | 104 (* 'h' *) => motor_drive_set_velocity 0
  | 98 (* 'b' *) => motor_drive_set_velocity (-127)
  | 66 (* 'B' *) => motor_drive_set_velocity (-255)
  | 97 (* 'a' *) => motor_steer_set_velocity (-255)
  | 111 (* 'o' *) => motor_steer_set_velocity 0
  | 101 (* 'e' *) => motor_steer_set_velocity 255
  | 112 (* 'p' *) =>
      v <- read velocity ;; motor_drive_set_velocity (i16 (v + 5))
  | 117 (* 'u' *) =>
      v <- read velocity ;; motor_drive_set_velocity (i16 (v - 5))
  | 32 (* ' ' *) =>
      motor_drive_set_velocity 0 ;;
      motor_steer_set_velocity 0
  | 65 (* 'A' *) =>
      check_magic_and_show_age ;;
      age_once ;;
      check_magic_and_show_age
  | 63 (* '?' *) =>
      uart_send ("steering: RrslL" ++ String LF "gas: FfhbB"
                 ++ String LF "") ;;
      uart_send "batt=" ;;
      (a <- read_ADCH ;; uart_sendint a) ;;
      uart_sendch (ch LF)
  | _ => uart_send (String "?" (String LF ""))
  end.

(** ** Battery monitor *)

(** The arithmetic of [batt_sample] on the value read from [ADCH].
    [battsample] is a [uint8_t]: each assignment converts back to 8 bits,
    and the two comparisons are made on that 8-bit value. *)
Definition batt_scale (adch : Z) : Z :=
  let battsample := u8 adch in
  (* need to scale 142+0..142+48 -> 0..255, so *5 *)
  let battsample := u8 (battsample - 142) in
  let battsample := if battsample <? 0 then 0 else battsample in
  let battsample := u8 (battsample * 5) in
  let battsample := if 255 <? battsample then 255 else battsample in
  battsample.

Definition batt_sample : M unit :=
  raw <- read_ADCH ;;
  write set_battlevel (batt_scale raw).

(** One iteration of the loop of [batt_low_consistently], [warn] being the
    local counter. *)
Definition batt_low_step (threshold : Z) (warn : Z) : M Z :=
  delay_100us 10 ;;
  batt_sample ;;
  lvl <- read battlevel ;;
  if lvl <? threshold
  then uart_send " batt=" ;; uart_sendint lvl ;; ret (u8 (warn + 1))
  else ret warn.

Definition batt_low_consistently (threshold : Z) : M Z :=
  let warn := 0 in
  uart_send "batt long check:" ;;
  warn <- times_with 20 (batt_low_step threshold) warn ;;
  uart_send (" done." ++ String LF "") ;;
  ret (c_bool (17 <? warn)).

(** ** The control loop

    One iteration of the [while (1)] of [main], in stages, cut where the
    properties below look at the board: the stages up to the battery test,
    then the battery test and the closing delay.  The start-of-day part of
    [main] (port set-up, self-test pulses) is summed up by the board it
    leaves, [loop_entry]. *)

Definition battlowthreshold : Z := 10.

Definition voltagedisplaytoggleperiodlength : Z := 200.
Definition battwarntoggleperiodlength : Z := 20.
Definition mainloopdelay : Z := 40.

Definition wdt_reset : M unit :=
  n <- read wdt_resets ;; write set_wdt_resets (n + 1).

(** Bluetooth signal sampling: a low level means disconnected. *)
Definition main_link_check : M unit :=
  c <- bluetooth_connected ;;
  if negb (c =? 0)
  then ret tt
  else motor_drive_set_velocity 0 ;; motor_steer_set_velocity 0.

Definition main_command : M unit :=
  h <- uart_hasch ;;
  when h
    (led4on ;;
     command <- uart_getch ;;
     led4off ;;
     handle_char_compat_dagu command).

Definition main_voltage_display : M unit :=
  (c <- read voltagedisplaytogglecountdown ;;
   write set_voltagedisplaytogglecountdown (u8 (c - 1))) ;;
  c <- read voltagedisplaytogglecountdown ;;
  when (c_bool (c <=? 0))
    (write set_voltagedisplaytogglecountdown
       voltagedisplaytoggleperiodlength ;;
     t <- read voltagedisplaytogglestate ;;
     write set_voltagedisplaytogglestate (c_not t)) ;;
  t <- read voltagedisplaytogglestate ;;
  if negb (t =? 0)
  then batt_sample ;;
       l <- read battlevel ;;
       write set_OCR2B (u8 (0xff - l))
  else write set_OCR2B (u8 (0xff - 0xff)).

Definition main_warn_toggle : M unit :=
  (c <- read battwarntogglecountdown ;;
   write set_battwarntogglecountdown (u8 (c - 1))) ;;
  c <- read battwarntogglecountdown ;;
  when (c_bool (c <=? 0))
    (write set_battwarntogglecountdown battwarntoggleperiodlength ;;
     t <- read battwarntogglestate ;;
     write set_battwarntogglestate (c_not t)).

(** Everything the loop body does before [if (battlevel < battlowthreshold)]. *)
Definition main_before_batt_check : M unit :=
  wdt_reset ;;
  main_link_check ;;
  main_command ;;
  main_voltage_display ;;
  main_warn_toggle.

(** The diagnostic line that precedes the call of [batt_low_consistently]. *)
Definition main_batt_report : M unit :=
  uart_send "batt=" ;;
  (l <- read battlevel ;; uart_sendint l) ;;
  uart_sendch (ch LF).

Definition main_batt_check : M unit :=
  l <- read battlevel ;;
  when (c_bool (l <? battlowthreshold))
    (main_batt_report ;;
     low <- batt_low_consistently battlowthreshold ;;
     when low
       ((t <- read battwarntogglestate ;;
         if negb (t =? 0) then led3on else led3off) ;;
        motor_drive_set_velocity 0 ;;
        motor_steer_set_velocity 0)).

Definition main_loop_body : M unit :=
  main_before_batt_check ;;
  main_batt_check ;;
  delay_100us mainloopdelay.

(** The board when [main] enters its loop: the static initialisers, the
    pwm outputs at rest, the leds off, nothing sent yet. *)
Definition loop_entry (pind : Z) (adc : nat -> Z) (rx : list Z) : Board :=
  {| velocity := 0; steerposition := 0; battlevel := 11;
     voltagedisplaytogglecountdown := 10; voltagedisplaytogglestate := 0;
     battwarntogglecountdown := 0; battwarntogglestate := 0;
     OCR0A := 0; OCR0B := 0; OCR1A := 0; OCR1B := 0; OCR2B := 0xff;
     PORTC := 0xc3; PIND := pind; ADCH := adc;
     uart_rx := rx; uart_tx := [];
     ourmagic := OURMAGIC; ourage := 0; nops := 0; wdt_resets := 0 |}.

(** * Vocabulary of the properties

    What follows names the notions the statements below are written in:
    the outcome of a run, what a computation leaves alone, the duty pairs,
    the protocol table, the battery vote, the flip-flops and runs of the
    loop. *)

(** [runs m s Q]: from board [s] the computation returns, with a value and
    a board that satisfy [Q]. *)
Definition runs {A : Type} (m : M A) (s : Board)
    (Q : A -> Board -> Prop) : Prop :=
  exists a s', m s = Some (a, s') /\ Q a s'.

(** [keeps obs m]: [m] always returns and the observation [obs] of the
    board is the same afterwards. *)
Definition keeps {X A : Type} (obs : Board -> X) (m : M A) : Prop :=
  forall s, runs m s (fun _ s' => obs s' = obs s).

(** [ignores obs set]: the observation does not look at the field that
    [set] writes. *)
Definition ignores {X A : Type} (obs : Board -> X)
    (set : A -> Board -> Board) : Prop :=
  forall x s, obs (set x s) = obs s.

(** Everything the two motors see. *)
Definition motion (b : Board) : Z * Z * Z * Z * Z * Z :=
  (velocity b, steerposition b, OCR0A b, OCR0B b, OCR1A b, OCR1B b).

(** The two flip-flops. *)
Definition toggles (b : Board) : Z * Z * Z * Z :=
  (voltagedisplaytogglecountdown b, voltagedisplaytogglestate b,
   battwarntogglecountdown b, battwarntogglestate b).

(** The clamp at the head of both [set_velocity] functions. *)
Definition clamp255 (v : Z) : Z :=
  let v := if 255 <? v then 255 else v in
  if v <? -255 then -255 else v.

(** Exactly one of two duty values is non-zero. *)
Definition one_nonzero (a b : Z) : Prop :=
  (a <> 0 /\ b = 0) \/ (a = 0 /\ b <> 0).

(** The direction table as the protocol describes it: the steer and drive
    targets of a direction code at a given speed; no entry outside 0-8. *)
Definition compat_table (direction speed : Z) : option (Z * Z) :=
  match direction with
  | 0 => Some (0, 0)               (* stop, straight *)
  | 1 => Some (0, speed)           (* forward, straight *)
  | 2 => Some (0, - speed)         (* reverse, straight *)
  | 3 => Some (-255, 0)            (* stop, hard left *)
  | 4 => Some (255, 0)             (* stop, hard right *)
  | 5 => Some (-255, speed)        (* forward, hard left *)
  | 6 => Some (255, speed)         (* forward, hard right *)
  | 7 => Some (-255, - speed)      (* reverse, hard left *)
  | 8 => Some (255, - speed)       (* reverse, hard right *)
  | _ => None
  end.

(** The level the description expects from a raw reading: offset 142,
    negative clamped to 0, gain 5, clamped to 255. *)
Definition batt_scale_clamped (raw : Z) : Z :=
  Z.min 255 (Z.max 0 (raw - 142) * 5).

(** The next [n] values of the ADC data register. *)
Fixpoint upcoming (n : nat) (adc : nat -> Z) : list Z :=
  match n with
  | O => []
  | S n' => adc O :: upcoming n' (fun k => adc (S k))
  end.

(** The battery levels that the next [n] calls of [batt_sample] store. *)
Definition sampled_levels (n : nat) (s : Board) : list Z :=
  map (fun raw => batt_scale (u8 raw)) (upcoming n (ADCH s)).

(** How many levels are strictly below the threshold. *)
Definition count_below (threshold : Z) (levels : list Z) : Z :=
  Z.of_nat (length (filter (fun l => l <? threshold) levels)).

(** A feed that shows [low] readings at level 0 and then a full battery. *)
Definition feed_with_low (low : nat) : nat -> Z :=
  fun k => if (k <? low)%nat then 142 else 190.

(** The board after one iteration of the loop. *)
Definition tick (s : Board) : Board := landing main_loop_body s.

(** One iteration on a flip-flop (countdown, state) of period [period]:
    decrement the 8-bit countdown; at zero reload it and flip the state.
    Both stages of the loop body do exactly this. *)
Definition toggle_tick (period : Z) (cs : Z * Z) : Z * Z :=
  let c := u8 (fst cs - 1) in
  if c <=? 0 then (period, c_not (snd cs)) else (c, snd cs).

Definition display_toggle (b : Board) : Z * Z :=
  (voltagedisplaytogglecountdown b, voltagedisplaytogglestate b).

Definition warn_toggle (b : Board) : Z * Z :=
  (battwarntogglecountdown b, battwarntogglestate b).

Fixpoint toggle_after (period : Z) (n : nat) (cs : Z * Z) : Z * Z :=
  match n with
  | O => cs
  | S n' => toggle_after period n' (toggle_tick period cs)
  end.

(** Number of iterations, among the next [n], at which the state flips. *)
Fixpoint toggle_flips (period : Z) (n : nat) (cs : Z * Z) : nat :=
  match n with
  | O => O
  | S n' =>
      let cs' := toggle_tick period cs in
      ((if (snd cs' =? snd cs)%Z then 0 else 1)
       + toggle_flips period n' cs')%nat
  end.

(** What the outside world presents before an iteration: the level of the
    input pins, the bytes that came in since the last iteration, and the
    values the converter will show. *)
Record Stimulus := mkStimulus {
  pins : Z;
  received : list Z;
  conversions : nat -> Z
}.

Definition arrive (e : Stimulus) (s : Board) : Board :=
  set_PIND (pins e)
    (set_uart_rx (uart_rx s ++ received e)
       (set_ADCH (conversions e) s)).

(** The board after the iterations fed by [es]. *)
Fixpoint run (es : list Stimulus) (s : Board) : Board :=
  match es with
  | [] => s
  | e :: es' => run es' (tick (arrive e s))
  end.

(** How many of the iterations fed by [es] flip the state of the
    flip-flop [tg]. *)
Fixpoint flips (tg : Board -> Z * Z) (es : list Stimulus) (s : Board)
    : nat :=
  match es with
  | [] => O
  | e :: es' =>
      let s' := tick (arrive e s) in
      ((if (snd (tg s') =? snd (tg s))%Z then 0 else 1)
       + flips tg es' s')%nat
  end.

(** An uneventful iteration: link up, nothing received, battery healthy. *)
Definition idle : Stimulus := mkStimulus (_BV 4) [] (fun _ => 190).

(** Both motors at rest: velocities and the four duty outputs at 0. *)
Definition at_rest (b : Board) : Prop := motion b = (0, 0, 0, 0, 0, 0).

(** The iteration that shows the battery stage entered while driving: nine
    uneventful iterations after loop entry, then the forward command 0x1F
    arrives while the converter shows a weak battery (143, level 5). *)
Definition weak_battery_command : Stimulus :=
  mkStimulus (_BV 4) [0x1F] (fun _ => 143).

Definition board_before_weak_battery : Board :=
  arrive weak_battery_command
    (run (repeat idle 9) (loop_entry (_BV 4) (fun _ => 190) [])).

(** The same iteration with a passing dip: the converter shows one weak
    reading (143, level 5) and a healthy battery from then on. *)
Definition passing_dip_command : Stimulus :=
  mkStimulus (_BV 4) [0x1F]
    (fun k => match k with O => 143 | S _ => 190 end).

Definition board_before_passing_dip : Board :=
  arrive passing_dip_command
    (run (repeat idle 9) (loop_entry (_BV 4) (fun _ => 190) [])).

(** The loop body cut at the two safety overrides.  Everything it does
    after the link check: *)
Definition main_after_link_check : M unit :=
  main_command ;;
  main_voltage_display ;;
  main_warn_toggle ;;
  main_batt_check ;;
  delay_100us mainloopdelay.

(** What it does with the result of [batt_low_consistently]: *)
Definition main_batt_override (low : Z) : M unit :=
  when low
    ((t <- read battwarntogglestate ;;
      if negb (t =? 0) then led3on else led3off) ;;
     motor_drive_set_velocity 0 ;;
     motor_steer_set_velocity 0).

(** and everything from the call of [batt_low_consistently] on. *)
Definition main_from_sustained_check : M unit :=
  (low <- batt_low_consistently battlowthreshold ;;
   main_batt_override low) ;;
  delay_100us mainloopdelay.

(** The boards at those two cuts in the iteration that starts on [s]: when
    the link check has returned, when the command stage has returned, at
    the battery test, and at the call of [batt_low_consistently]. *)
Definition board_after_link_check (s : Board) : Board :=
  landing (wdt_reset ;; main_link_check) s.

Definition board_after_command (s : Board) : Board :=
  landing (wdt_reset ;; main_link_check ;; main_command) s.

Definition board_at_battery_test (s : Board) : Board :=
  landing main_before_batt_check s.

Definition board_at_sustained_check (s : Board) : Board :=
  landing main_batt_report (board_at_battery_test s).

(** The two fields of a received command byte. *)
Definition command_direction (c : Z) : Z := u8 c / 16.
Definition command_speed (c : Z) : Z := 105 + u8 c mod 16.

(** * The rest of the firmware

    The functions of uart.c and open-racer-firmware.c that the loop body
    does not reach: the reply matcher, the bluetooth naming command and
    the self-test of the start of day. *)

(** ** uart.c: the reply matcher *)

(** The loop of [uart_expect] over the characters of [data]: one byte is
    read for every character, whether or not the earlier ones matched.
    [matches] and [count] are the two 8-bit counters. *)
Fixpoint uart_expect_loop (data : list Z) (matches count : Z)
    : M (Z * Z) :=
  match data with
  | [] => ret (matches, count)
  | d :: rest =>
      c <- uart_getch ;;
      let count := u8 (count + 1) in
      let matches := if c =? d then u8 (matches + 1) else matches in
      uart_expect_loop rest matches count
  end.

Definition uart_expect (data : string) : M Z :=
  mc <- uart_expect_loop (cstr data) 0 0 ;;
  ret (c_bool (fst mc =? snd mc)).
Arguments uart_expect data%_string.

(** ** The bluetooth naming command *)

Definition bluetooth_setname (name : string) : M unit :=
  uart_send "AT+NAME" ;;
  uart_send name ;;
  ok <- uart_expect "OKsetname" ;;
  when (c_not ok) (flash_led1 2 0).

(** ** The self-test of the start of day *)

(** Bit numbers of the reset flags in MCUSR, from the device header of
    avr-libc. *)
Definition PORF : Z := 0.
Definition EXTRF : Z := 1.
Definition BORF : Z := 2.
Definition WDRF : Z := 3.

Definition flash_reset_flag_info (resetflags repeat : Z) : M unit :=
  (* first, show which is led1 for reference *)
  times 5 (led1on ;; delay_10ms 2 ;; led1off ;; delay_10ms 2) ;;
  (* led1-4 reflect which reset flags were set *)
  times (Z.to_nat (u8 repeat))
    (when (c_bool (Z.land resetflags (_BV PORF) =? _BV PORF)) led1on ;;
     when (c_bool (Z.land resetflags (_BV EXTRF) =? _BV EXTRF)) led2on ;;
     when (c_bool (Z.land resetflags (_BV BORF) =? _BV BORF)) led3on ;;
     when (c_bool (Z.land resetflags (_BV WDRF) =? _BV WDRF)) led4on ;;
     delay_10ms 4 ;;
     led1off ;; led2off ;; led3off ;; led4off ;;
     delay_10ms 4) ;;
  delay_10ms 50.

Definition pulse_motor_drive (speed repeat : Z) : M unit :=
  write set_OCR1A 0x0000 ;;
  write set_OCR1B 0x0000 ;;
  times (Z.to_nat (u8 repeat))
    (write set_OCR1A (u16 (u8 speed)) ;;
     delay_10ms 10 ;;
     write set_OCR1A 0 ;;
     delay_10ms 10 ;;
     write set_OCR1B (u16 (u8 speed)) ;;
     delay_10ms 10 ;;
     write set_OCR1B 0 ;;
     delay_10ms 10).

Definition pulse_motor_steering (speed repeat : Z) : M unit :=
  (* always 1 dir *)
  write set_OCR0A 0 ;;
  write set_OCR0B 0 ;;
  times (Z.to_nat (u8 repeat))
    (write set_OCR0A (u8 speed) ;;
     led1on ;; led2off ;; led3off ;;
     delay_10ms 10 ;;
     write set_OCR0A 0 ;;
     led1off ;; led2on ;; led3off ;;
     delay_10ms 10 ;;
     write set_OCR0B (u8 speed) ;;
     led1off ;; led2off ;; led3on ;;
     delay_10ms 10 ;;
     write set_OCR0B 0 ;;
     led1off ;; led2on ;; led3off ;;
     delay_10ms 10) ;;
  led1off ;; led2off ;; led3off ;;
  delay_10ms 20.

(** * Vocabulary of the further properties *)

(** [all_from P lo n]: the check [P] passes on the [n] integers from
    [lo] upwards. *)
Fixpoint all_from (P : Z -> bool) (lo : Z) (n : nat) : bool :=
  match n with
  | O => true
  | S n' => P lo && all_from P (lo + 1) n'
  end.

(** A board with nothing sent yet, to read off what a computation sends. *)
Definition blank : Board := loop_entry 0 (fun _ => 0) [].

(** A board on which the bytes [rx] have been received. *)
Definition having_received (rx : list Z) : Board :=
  loop_entry 0 (fun _ => 0) rx.

(** The bytes [uart_sendint v] puts on the line. *)
Definition sendint_text (v : Z) : list Z :=
  match uart_sendint v blank with
  | Some (_, b) => uart_tx b
  | None => []
  end.

(** Reading a decimal number back from its characters. *)
Definition parse_digits (l : list Z) : Z :=
  fold_left (fun acc c => acc * 10 + (c - ch "0")) l 0.

Definition parse_int (l : list Z) : Z :=
  match l with
  | 45 (* '-' *) :: digits => - parse_digits digits
  | _ => parse_digits l
  end.

Definition is_digit (c : Z) : bool := (ch "0" <=? c) && (c <=? ch "9").

(** A decimal numeral as one writes it: an optional minus sign, at least
    one digit, no leading zero except for the numeral 0 itself. *)
Definition canonical_digits (l : list Z) : bool :=
  match l with
  | [] => false
  | [c] => is_digit c
  | c :: _ => is_digit c && negb (c =? ch "0") && forallb is_digit l
  end.

Definition canonical_numeral (l : list Z) : bool :=
  match l with
  | 45 (* '-' *) :: digits =>
      canonical_digits digits && negb (parse_digits digits =? 0)
  | _ => canonical_digits l
  end.

(** [busy m k]: [m] always returns and spends exactly [k] nops of
    busy-waiting. *)
Definition busy {A : Type} (m : M A) (k : Z) : Prop :=
  forall s, runs m s (fun _ s' => nops s' = nops s + k).

(** Port C with the four led bits (0x3c) cleared. *)
Definition other_bits (port : Z) : Z := Z.land port 0xc3.

Definition port_rest (b : Board) : Z := other_bits (PORTC b).

(** Everything on the board but the led port and the busy-wait count. *)
Definition but_leds_and_time (b : Board) : Board :=
  set_PORTC 0 (set_nops 0 b).

(** The bits of port C selected by [mask]. *)
Definition port_under (mask : Z) (b : Board) : Z := Z.land (PORTC b) mask.

(** The board apart from the drive duties and the time spent. *)
Definition but_drive_duties_and_time (b : Board) : Board :=
  set_OCR1A 0 (set_OCR1B 0 (set_nops 0 b)).

(** The board apart from the steering duties, the leds and the time
    spent. *)
Definition but_steer_duties_leds_and_time (b : Board) : Board :=
  set_OCR0A 0 (set_OCR0B 0 (set_PORTC 0 (set_nops 0 b))).

(** The half-period of [flash_led1], in hundredths of a second. *)
Definition flash_half_period (rate : Z) : Z :=
  if rate =? 2 then 2 else if rate =? 1 then 5 else 10.

(** The motor outputs agree with the stored velocities: each velocity is
    in range and each duty pair is its image under the mapping. *)
Definition drive_follows (b : Board) : Prop :=
  -255 <= velocity b <= 255 /\
  OCR1B b = (if 0 <=? velocity b then velocity b else 0) /\
  OCR1A b = (if 0 <=? velocity b then 0 else - velocity b - 1).

Definition steer_follows (b : Board) : Prop :=
  -255 <= steerposition b <= 255 /\
  OCR0A b = (if 0 <=? steerposition b then steerposition b else 0) /\
  OCR0B b = (if 0 <=? steerposition b then 0 else - steerposition b - 1).

Definition outputs_follow (b : Board) : Prop :=
  drive_follows b /\ steer_follows b.

(** The bytes of the direct protocol that [handle_char] knows. *)
Definition direct_commands : list Z :=
  map ch ["R"; "r"; "s"; "l"; "L"; "F"; "f"; "h"; "b"; "B";
          "a"; "o"; "e"; "p"; "u"; " "; "A"; "?"]%char.

(** The steering and drive commands of the direct protocol that name a
    target, with the target each one names. *)
Definition direct_steering : list (Z * Z) :=
  [(ch "R", 255); (ch "r", 127); (ch "s", 0); (ch "l", -127);
   (ch "L", -255); (ch "a", -255); (ch "o", 0); (ch "e", 255)].

Definition direct_drive : list (Z * Z) :=
  [(ch "F", 255); (ch "f", 127); (ch "h", 0); (ch "b", -127);
   (ch "B", -255)].

(** What one motor sees. *)
Definition drive_side (b : Board) : Z * Z * Z :=
  (velocity b, OCR1A b, OCR1B b).

Definition steer_side (b : Board) : Z * Z * Z :=
  (steerposition b, OCR0A b, OCR0B b).

(** The raw readings that [batt_scale] puts below the low-battery
    threshold. *)
Definition low_readings : list Z :=
  [40; 41; 91; 92; 142; 143; 194; 195; 245; 246].

(** * Reasoning about firmware computations *)

(** ** Results of a run *)

Lemma runs_ret {A : Type} (a : A) s (Q : A -> Board -> Prop) :
  Q a s -> runs (ret a) s Q.
Proof. intros H. exists a, s. split; [reflexivity | exact H]. Qed.

Lemma runs_bind {A B : Type} (m : M A) (k : A -> M B) s
    (Q : B -> Board -> Prop) :
  runs m s (fun a s1 => runs (k a) s1 Q) -> runs (bind m k) s Q.
Proof.
  intros (a & s1 & Hm & b & s2 & Hk & HQ).
  exists b, s2. split; [| exact HQ].
  unfold bind. rewrite Hm. exact Hk.
Qed.

Lemma runs_weaken {A : Type} (m : M A) s (P Q : A -> Board -> Prop) :
  runs m s P -> (forall a s', P a s' -> Q a s') -> runs m s Q.
Proof.
  intros (a & s' & Hm & HP) HPQ. exists a, s'. split; [exact Hm | auto].
Qed.

Lemma runs_eq {A : Type} (m : M A) s a s' (Q : A -> Board -> Prop) :
  m s = Some (a, s') -> Q a s' -> runs m s Q.
Proof. intros Hm HQ. exists a, s'. split; assumption. Qed.

Lemma runs_inv {A : Type} (m : M A) s a s' (Q : A -> Board -> Prop) :
  runs m s Q -> m s = Some (a, s') -> Q a s'.
Proof.
  intros (a0 & s0 & Hm & HQ) E. rewrite E in Hm.
  injection Hm as <- <-. exact HQ.
Qed.

Lemma bind_eq {A B : Type} (m : M A) (k : A -> M B) s a s1 :
  m s = Some (a, s1) -> bind m k s = k a s1.
Proof. intros E. unfold bind. rewrite E. reflexivity. Qed.

(** ** Frames: what a computation leaves alone *)

Section Frames.
Context {X : Type} (obs : Board -> X).

Lemma keeps_ret {A : Type} (a : A) : keeps obs (ret a).
Proof. intros s. apply runs_ret. reflexivity. Qed.

Lemma keeps_read {A : Type} (f : Board -> A) : keeps obs (read f).
Proof. intros s. exists (f s), s. split; reflexivity. Qed.

Lemma keeps_bind {A B : Type} (m : M A) (k : A -> M B) :
  keeps obs m -> (forall a, keeps obs (k a)) -> keeps obs (bind m k).
Proof.
  intros Hm Hk s. apply runs_bind.
  eapply runs_weaken; [apply Hm |].
  intros a s1 E1. simpl.
  eapply runs_weaken; [apply Hk |].
  intros b s2 E2. simpl in *. congruence.
Qed.

Lemma keeps_when (c : Z) (m : M unit) : keeps obs m -> keeps obs (when c m).
Proof.
  intros Hm. unfold when. destruct (c =? 0); [apply keeps_ret | exact Hm].
Qed.

Lemma keeps_if {A : Type} (c : bool) (m1 m2 : M A) :
  keeps obs m1 -> keeps obs m2 -> keeps obs (if c then m1 else m2).
Proof. destruct c; auto. Qed.

Lemma keeps_times (n : nat) (body : M unit) :
  keeps obs body -> keeps obs (times n body).
Proof.
  intros Hb. induction n as [| n IH]; simpl.
  - apply keeps_ret.
  - apply keeps_bind; auto.
Qed.

Lemma keeps_times_with {A : Type} (n : nat) (body : A -> M A) (a : A) :
  (forall x, keeps obs (body x)) -> keeps obs (times_with n body a).
Proof.
  intros Hb. revert a. induction n as [| n IH]; intros a; simpl.
  - apply keeps_ret.
  - apply keeps_bind; auto.
Qed.
End Frames.

Create HintDb frame.
#[export] Hint Resolve keeps_ret keeps_read keeps_bind keeps_when keeps_if
  keeps_times keeps_times_with : frame.
#[export] Hint Extern 1 (ignores _ _) =>
  (let x := fresh in let s := fresh in intros x s; reflexivity) : frame.

Section PrimitiveFrames.
Context {X : Type} (obs : Board -> X).

Lemma keeps_write {A : Type} (set : A -> Board -> Board) (x : A) :
  ignores obs set -> keeps obs (write set x).
Proof. intros H s. exists tt, (set x s). split; [reflexivity | apply H]. Qed.

Lemma keeps_uart_sendch c :
  ignores obs set_uart_tx -> keeps obs (uart_sendch c).
Proof. intros H s. eexists _, _. split; [reflexivity | apply H]. Qed.

Lemma keeps_uart_send_bytes l :
  ignores obs set_uart_tx -> keeps obs (uart_send_bytes l).
Proof.
  intros H. induction l as [| c l IH]; simpl.
  - apply keeps_ret.
  - apply keeps_bind; [apply keeps_uart_sendch, H | intros _; exact IH].
Qed.

Lemma keeps_uart_send data :
  ignores obs set_uart_tx -> keeps obs (uart_send data).
Proof. apply keeps_uart_send_bytes. Qed.

Lemma keeps_nop : ignores obs set_nops -> keeps obs nop.
Proof. intros H s. eexists _, _. split; [reflexivity | apply H]. Qed.

Lemma keeps_read_ADCH : ignores obs set_ADCH -> keeps obs read_ADCH.
Proof. intros H s. eexists _, _. split; [reflexivity | apply H]. Qed.

Lemma keeps_uart_hasch : keeps obs uart_hasch.
Proof. intros s. eexists _, _. split; reflexivity. Qed.
End PrimitiveFrames.

#[export] Hint Resolve keeps_write keeps_uart_sendch keeps_uart_send
  keeps_nop keeps_read_ADCH keeps_uart_hasch : frame.

(** Frames of the source's functions, each under the assumption that the
    observation ignores what the function writes. *)
Section FunctionFrames.
Context {X : Type} (obs : Board -> X).

Lemma keeps_uart_sendint v :
  ignores obs set_uart_tx -> keeps obs (uart_sendint v).
Proof. intros H. unfold uart_sendint. auto 20 with frame. Qed.

Lemma keeps_delay p : ignores obs set_nops -> keeps obs (delay p).
Proof. intros H. unfold delay. auto with frame. Qed.

Lemma keeps_delay_100us p :
  ignores obs set_nops -> keeps obs (delay_100us p).
Proof. intros H. apply keeps_times, keeps_delay, H. Qed.

Lemma keeps_delay_10ms h :
  ignores obs set_nops -> keeps obs (delay_10ms h).
Proof. intros H. apply keeps_times, keeps_delay_100us, H. Qed.

Lemma keeps_motor_drive_set_velocity v :
  ignores obs set_velocity -> ignores obs set_uart_tx ->
  ignores obs set_OCR1A -> ignores obs set_OCR1B ->
  keeps obs (motor_drive_set_velocity v).
Proof.
  intros H1 H2 H3 H4.
  unfold motor_drive_set_velocity, motor_drive_forward,
    motor_drive_reverse.
  pose proof (keeps_uart_sendint) as Hs.
  auto 20 with frame.
Qed.

Lemma keeps_motor_steer_set_velocity v :
  ignores obs set_steerposition -> ignores obs set_uart_tx ->
  ignores obs set_OCR0A -> ignores obs set_OCR0B ->
  keeps obs (motor_steer_set_velocity v).
Proof.
  intros H1 H2 H3 H4.
  unfold motor_steer_set_velocity, motor_steer_right, motor_steer_left.
  pose proof (keeps_uart_sendint) as Hs.
  auto 20 with frame.
Qed.

Lemma keeps_batt_sample :
  ignores obs set_ADCH -> ignores obs set_battlevel ->
  keeps obs batt_sample.
Proof. intros H1 H2. unfold batt_sample. auto with frame. Qed.

Lemma keeps_led_on pin : ignores obs set_PORTC -> keeps obs (led_on pin).
Proof. intros H. unfold led_on. auto with frame. Qed.

Lemma keeps_led_off pin : ignores obs set_PORTC -> keeps obs (led_off pin).
Proof. intros H. unfold led_off. auto with frame. Qed.
End FunctionFrames.

#[export] Hint Resolve keeps_uart_sendint keeps_delay keeps_delay_100us
  keeps_delay_10ms keeps_motor_drive_set_velocity
  keeps_motor_steer_set_velocity keeps_batt_sample keeps_led_on
  keeps_led_off : frame.

Section LoopFrames.
Context {X : Type} (obs : Board -> X).

Lemma keeps_batt_low_consistently threshold :
  ignores obs set_ADCH -> ignores obs set_battlevel ->
  ignores obs set_uart_tx -> ignores obs set_nops ->
  keeps obs (batt_low_consistently threshold).
Proof.
  intros H1 H2 H3 H4.
  unfold batt_low_consistently, batt_low_step. auto 20 with frame.
Qed.

Lemma keeps_handle_char_compat_dagu command :
  ignores obs set_velocity -> ignores obs set_steerposition ->
  ignores obs set_uart_tx ->
  ignores obs set_OCR0A -> ignores obs set_OCR0B ->
  ignores obs set_OCR1A -> ignores obs set_OCR1B ->
  keeps obs (handle_char_compat_dagu command).
Proof.
  intros H1 H2 H3 H4 H5 H6 H7.
  unfold handle_char_compat_dagu. cbv zeta.
  repeat match goal with
         | |- keeps _ (match ?d with _ => _ end) => destruct d
         end; auto with frame.
Qed.
End LoopFrames.

#[export] Hint Resolve keeps_batt_low_consistently
  keeps_handle_char_compat_dagu : frame.

(** ** Composition of frames and effects *)

Lemma runs_frame {X A B : Type} (obs : Board -> X) (m : M A)
    (k : A -> M B) s (Q : B -> Board -> Prop) :
  keeps obs m ->
  (forall a s1, obs s1 = obs s -> runs (k a) s1 Q) ->
  runs (bind m k) s Q.
Proof.
  intros Hm Hk. apply runs_bind.
  eapply runs_weaken; [apply Hm |]. intros a s1 E. apply Hk, E.
Qed.

Lemma runs_and {A : Type} (m : M A) s (P Q : A -> Board -> Prop) :
  runs m s P -> runs m s Q -> runs m s (fun a s' => P a s' /\ Q a s').
Proof.
  intros (a & s' & E & HP) HQ. exists a, s'. split; [exact E |].
  split; [exact HP | eapply runs_inv; eauto].
Qed.

Lemma runs_kept {X A : Type} (obs : Board -> X) (m : M A) s
    (Q : A -> Board -> Prop) :
  keeps obs m -> runs m s Q ->
  runs m s (fun a s' => Q a s' /\ obs s' = obs s).
Proof. intros Hk HQ. apply runs_and; [exact HQ | apply Hk]. Qed.

(** Step over a computation that leaves [obs] alone; [s] names the board
    it lands on and [H] the equation on [obs]. *)
Tactic Notation "frame_over" constr(obs) "as" ident(s) ident(H) :=
  apply (runs_frame obs); [solve [auto 20 with frame] | intros ? s H].

(** Step over a primitive whose result is computed. *)
Ltac run_step := apply runs_bind; eapply runs_eq; [reflexivity | cbv beta].

(** ** Arithmetic of the 8-bit mask *)

Lemma land_0xff (v : Z) : Z.land v 0xff = v mod 256.
Proof.
  change 0xff with (Z.ones 8). rewrite Z.land_ones by lia. reflexivity.
Qed.

Lemma land_0xff_nonneg (v : Z) : 0 <= v <= 255 -> Z.land v 0xff = v.
Proof. intros H. rewrite land_0xff. apply Z.mod_small. lia. Qed.

Lemma land_0xff_neg (v : Z) : -255 <= v <= -1 -> Z.land v 0xff = v + 256.
Proof.
  intros H. rewrite land_0xff.
  symmetry. apply (Z.mod_unique v 256 (-1) (v + 256)); lia.
Qed.

Lemma clamp255_range v : -255 <= clamp255 v <= 255.
Proof.
  unfold clamp255.
  destruct (Z.ltb_spec 255 v); cbv zeta;
    match goal with |- context [?a <? ?b] => destruct (Z.ltb_spec a b) end;
    lia.
Qed.

Lemma clamp255_id v : -255 <= v <= 255 -> clamp255 v = v.
Proof.
  intros H. unfold clamp255.
  destruct (Z.ltb_spec 255 v); [lia |]. cbv zeta.
  destruct (Z.ltb_spec v (-255)); lia.
Qed.

(** ** Effect of the actuation functions *)

Lemma motor_drive_set_velocity_effect v s :
  runs (motor_drive_set_velocity v) s (fun _ s' =>
    velocity s' = clamp255 v /\
    OCR1B s' = (if 0 <=? clamp255 v
                then u16 (Z.land (clamp255 v) 0xff) else 0) /\
    OCR1A s' = (if 0 <=? clamp255 v
                then 0 else u16 (0xff - Z.land (clamp255 v) 0xff))).
Proof.
  unfold motor_drive_set_velocity. fold (clamp255 v).
  run_step.
  frame_over velocity as s1 H1. frame_over velocity as s2 H2.
  frame_over velocity as s3 H3.
  run_step.
  assert (E : velocity s3 = clamp255 v) by (simpl in *; congruence).
  rewrite E.
  destruct (0 <=? clamp255 v);
    (eapply runs_eq; [reflexivity | simpl; auto]).
Qed.

Lemma motor_steer_set_velocity_effect v s :
  runs (motor_steer_set_velocity v) s (fun _ s' =>
    steerposition s' = clamp255 v /\
    OCR0A s' = (if 0 <=? clamp255 v
                then u8 (Z.land (clamp255 v) 0xff) else 0) /\
    OCR0B s' = (if 0 <=? clamp255 v
                then 0 else u8 (0xff - Z.land (clamp255 v) 0xff))).
Proof.
  unfold motor_steer_set_velocity. fold (clamp255 v).
  run_step.
  frame_over steerposition as s1 H1. frame_over steerposition as s2 H2.
  frame_over steerposition as s3 H3.
  run_step.
  assert (E : steerposition s3 = clamp255 v) by (simpl in *; congruence).
  rewrite E.
  destruct (0 <=? clamp255 v);
    (eapply runs_eq; [reflexivity | simpl; auto]).
Qed.

(** * The actuation mapper *)

(** The drive pair after [motor_drive_set_velocity v], in closed form. *)
Lemma drive_duty_pair v s :
  -255 <= v <= 255 ->
  runs (motor_drive_set_velocity v) s (fun _ s' =>
    OCR1B s' = (if 0 <=? v then v else 0) /\
    OCR1A s' = (if 0 <=? v then 0 else - v - 1)).
Proof.
  intros Hv.
  eapply runs_weaken; [apply motor_drive_set_velocity_effect |].
  intros _ s' (_ & EB & EA). rewrite clamp255_id in EA, EB by exact Hv.
  rewrite EA, EB. destruct (Z.leb_spec 0 v).
  - rewrite land_0xff_nonneg by lia. unfold u16.
    rewrite Z.mod_small by lia. auto.
  - rewrite land_0xff_neg by lia. unfold u16.
    rewrite Z.mod_small by lia. split; [reflexivity | lia].
Qed.

(** The steer pair after [motor_steer_set_velocity v], in closed form. *)
Lemma steer_duty_pair v s :
  -255 <= v <= 255 ->
  runs (motor_steer_set_velocity v) s (fun _ s' =>
    OCR0A s' = (if 0 <=? v then v else 0) /\
    OCR0B s' = (if 0 <=? v then 0 else - v - 1)).
Proof.
  intros Hv.
  eapply runs_weaken; [apply motor_steer_set_velocity_effect |].
  intros _ s' (_ & EA & EB). rewrite clamp255_id in EA, EB by exact Hv.
  rewrite EA, EB. destruct (Z.leb_spec 0 v).
  - rewrite land_0xff_nonneg by lia. unfold u8.
    rewrite Z.mod_small by lia. auto.
  - rewrite land_0xff_neg by lia. unfold u8.
    rewrite Z.mod_small by lia. split; [reflexivity | lia].
Qed.

(** C2, as stated, fails at the stop command: [motor_drive_set_velocity 0]
    returns with both drive channels at 0, so not exactly one of them is
    non-zero. *)
Lemma drive_stop_has_no_active_channel :
  -255 <= 0 <= 255 /\
  runs (motor_drive_set_velocity 0) (loop_entry 16 (fun _ => 200) [])
    (fun _ s' => OCR1A s' = 0 /\ OCR1B s' = 0 /\
                 ~ one_nonzero (OCR1A s') (OCR1B s')).
Proof.
  split; [lia |].
  eapply runs_eq; [vm_compute; reflexivity |].
  simpl. repeat split. unfold one_nonzero. intros [[H _] | [_ H]]; auto.
Qed.

(** C2, amended: for every velocity in [-255, 255] the drive pair has at
    most one non-zero channel after [motor_drive_set_velocity]; exactly one
    is non-zero precisely when the velocity is neither 0 nor -1, and both
    are 0 at those two velocities. *)
Theorem drive_pair_at_most_one_channel v s :
  -255 <= v <= 255 ->
  runs (motor_drive_set_velocity v) s (fun _ s' =>
    (OCR1A s' = 0 \/ OCR1B s' = 0) /\
    (one_nonzero (OCR1A s') (OCR1B s') <-> v <> 0 /\ v <> -1) /\
    (v = 0 \/ v = -1 -> OCR1A s' = 0 /\ OCR1B s' = 0)).
Proof.
  intros Hv.
  eapply runs_weaken; [apply drive_duty_pair, Hv |].
  intros _ s' (EB & EA). rewrite EA, EB. unfold one_nonzero.
  destruct (Z.leb_spec 0 v); lia.
Qed.

Lemma drive_pair_at_most_one_channel_witness :
  runs (motor_drive_set_velocity (-128)) (loop_entry 16 (fun _ => 200) [])
    (fun _ s' =>
      (OCR1A s' = 0 \/ OCR1B s' = 0) /\
      (one_nonzero (OCR1A s') (OCR1B s') <-> -128 <> 0 /\ -128 <> -1) /\
      (-128 = 0 \/ -128 = -1 -> OCR1A s' = 0 /\ OCR1B s' = 0)).
Proof.
  apply (drive_pair_at_most_one_channel (-128)). lia.
Defined.

Example reverse_duty_samples :
  map (fun v => option_map OCR1A
                  (exec (motor_drive_set_velocity v)
                     (loop_entry (_BV 4) (fun _ => 190) [])))
    [-1; -128; -255; -300]
  = [Some 0; Some 127; Some 254; Some 254].
Proof. vm_compute. reflexivity. Qed.

(** C9: for a negative velocity in [-255, -1] the forward (drive) and right
    (steer) channels are set to 0 and the reverse and left channels to
    255 - (v & 0xFF), which is -v - 1: 0 at -1, 127 at -128, 254 at -255. *)
Theorem negative_velocity_inverts_low_byte v s :
  -255 <= v <= -1 ->
  runs (motor_drive_set_velocity v) s (fun _ s' =>
    OCR1B s' = 0 /\ OCR1A s' = 255 - Z.land v 0xff) /\
  runs (motor_steer_set_velocity v) s (fun _ s' =>
    OCR0A s' = 0 /\ OCR0B s' = 255 - Z.land v 0xff) /\
  255 - Z.land v 0xff = - v - 1.
Proof.
  intros Hv.
  assert (E : 255 - Z.land v 0xff = - v - 1)
    by (rewrite land_0xff_neg by exact Hv; lia).
  assert (N : (0 <=? v) = false) by (apply Z.leb_gt; lia).
  repeat split; [| | exact E].
  - eapply runs_weaken; [apply drive_duty_pair; lia |].
    intros _ s' (EB & EA). rewrite N in EA, EB. rewrite E. auto.
  - eapply runs_weaken; [apply steer_duty_pair; lia |].
    intros _ s' (EA & EB). rewrite N in EA, EB. rewrite E. auto.
Qed.

Lemma negative_velocity_inverts_low_byte_witness :
  -255 <= -128 <= -1 /\
  (runs (motor_drive_set_velocity (-128)) (loop_entry 16 (fun _ => 200) [])
     (fun _ s' => OCR1B s' = 0 /\ OCR1A s' = 255 - Z.land (-128) 0xff) /\
   runs (motor_steer_set_velocity (-128)) (loop_entry 16 (fun _ => 200) [])
     (fun _ s' => OCR0A s' = 0 /\ OCR0B s' = 255 - Z.land (-128) 0xff) /\
   255 - Z.land (-128) 0xff = 127).
Proof.
  split; [lia |].
  exact (negative_velocity_inverts_low_byte (-128)
           (loop_entry 16 (fun _ => 200) []) ltac:(lia)).
Defined.

(** * The compatibility decoder *)

(** A property checked on every byte holds of every byte. *)
Lemma forall_byte (P : Z -> bool) :
  forallb P (map Z.of_nat (seq 0 256)) = true ->
  forall c, 0 <= c <= 255 -> P c = true.
Proof.
  intros H c Hc. rewrite forallb_forall in H. apply H.
  apply in_map_iff. exists (Z.to_nat c). split; [lia |].
  apply in_seq. lia.
Qed.

(** The two fields of a command byte. *)
Lemma command_fields command :
  0 <= command <= 255 ->
  u8 (Z.shiftr (Z.land command 0xf0) 4) = command / 16 /\
  u8 (105 + Z.land command 0x0f * 1) = 105 + command mod 16.
Proof.
  intros Hc.
  pose proof (forall_byte
    (fun c => (u8 (Z.shiftr (Z.land c 0xf0) 4) =? c / 16) &&
              (u8 (105 + Z.land c 0x0f * 1) =? 105 + c mod 16))
    eq_refl command Hc) as H.
  apply andb_true_iff in H. destruct H as [H1 H2].
  split; apply Z.eqb_eq; assumption.
Qed.

Lemma steer_then_drive a b s :
  runs (motor_steer_set_velocity a ;; motor_drive_set_velocity b) s
    (fun _ s' => steerposition s' = clamp255 a /\ velocity s' = clamp255 b).
Proof.
  apply runs_bind.
  eapply runs_weaken; [apply motor_steer_set_velocity_effect |].
  intros _ s1 (E & _). cbv beta.
  eapply runs_weaken.
  - apply (runs_kept steerposition); [auto with frame |].
    apply motor_drive_set_velocity_effect.
  - intros _ s2 ((Ev & _) & Es). cbv beta in *. split; congruence.
Qed.

(** The two commands of the protocol description, run on the board at
    loop entry, with the lines they echo. *)
Example compat_0x19_runs :
  option_map (fun b => (steerposition b, velocity b, uart_tx b))
    (exec (handle_char_compat_dagu 0x19)
       (loop_entry (_BV 4) (fun _ => 190) []))
  = Some (0, 114,
          cstr ("steer=0" ++ String LF "drive=114" ++ String LF "")).
Proof. vm_compute. reflexivity. Qed.

Example compat_0x5A_runs :
  option_map (fun b => (steerposition b, velocity b, OCR0B b, OCR1B b))
    (exec (handle_char_compat_dagu 0x5A)
       (loop_entry (_BV 4) (fun _ => 190) []))
  = Some (-255, 115, 254, 115).
Proof. vm_compute. reflexivity. Qed.

(** C6: a compatibility command byte whose direction code (high nibble) is
    in 0-8 sets steer and drive to the table's targets for that direction,
    at speed 105 + modifier (low nibble). *)
Theorem compat_decoder_follows_table command s :
  0 <= command <= 255 ->
  command / 16 <= 8 ->
  exists steer drive,
    compat_table (command / 16) (105 + command mod 16) = Some (steer, drive)
    /\ runs (handle_char_compat_dagu command) s
         (fun _ s' => steerposition s' = steer /\ velocity s' = drive).
Proof.
  intros Hc Hd.
  destruct (command_fields command Hc) as [Edir Espeed].
  pose proof (Z.mod_pos_bound command 16 ltac:(lia)) as Hm.
  assert (Hq : 0 <= command / 16) by (apply Z.div_pos; lia).
  unfold handle_char_compat_dagu. cbv zeta. rewrite Edir, Espeed.
  set (speed := 105 + command mod 16) in *.
  assert (Hs : clamp255 speed = speed /\ clamp255 (- speed) = - speed)
    by (split; apply clamp255_id; subst speed; lia).
  destruct Hs as [Hs Hn].
  assert (D : command / 16 = 0 \/ command / 16 = 1 \/ command / 16 = 2 \/
              command / 16 = 3 \/ command / 16 = 4 \/ command / 16 = 5 \/
              command / 16 = 6 \/ command / 16 = 7 \/ command / 16 = 8)
    by lia.
  destruct D as [D | [D | [D | [D | [D | [D | [D | [D | D]]]]]]]];
    rewrite D; cbv beta iota; eexists _, _; (split; [reflexivity |]);
    (eapply runs_weaken; [apply steer_then_drive |]);
    intros _ s' (E1 & E2); rewrite E1, E2, ?Hs, ?Hn; split; reflexivity.
Qed.

(** The two commands of the protocol description: 0x19 gives steer 0 and
    drive 114, 0x5A gives steer -255 and drive 115. *)
Lemma compat_decoder_follows_table_witness :
  (0 <= 0x19 <= 255 /\ 0x19 / 16 <= 8 /\
   exists steer drive,
     Some (0, 114) = Some (steer, drive)
     /\ runs (handle_char_compat_dagu 0x19)
          (loop_entry 16 (fun _ => 200) [])
          (fun _ s' => steerposition s' = steer /\ velocity s' = drive)) /\
  (0 <= 0x5A <= 255 /\ 0x5A / 16 <= 8 /\
   exists steer drive,
     Some (-255, 115) = Some (steer, drive)
     /\ runs (handle_char_compat_dagu 0x5A)
          (loop_entry 16 (fun _ => 200) [])
          (fun _ s' => steerposition s' = steer /\ velocity s' = drive)).
Proof.
  split; (split; [lia | split; [vm_compute; discriminate |]]).
  - exact (compat_decoder_follows_table 0x19
             (loop_entry 16 (fun _ => 200) [])
             ltac:(lia) ltac:(vm_compute; discriminate)).
  - exact (compat_decoder_follows_table 0x5A
             (loop_entry 16 (fun _ => 200) [])
             ltac:(lia) ltac:(vm_compute; discriminate)).
Defined.

(** C7: a compatibility command byte whose direction code (high nibble) is
    outside 0-8 does nothing: the decoder returns with the board as it
    was, so velocities, duty outputs and the bytes sent are unchanged. *)
Theorem compat_decoder_ignores_unknown_direction command s :
  0 <= command <= 255 ->
  8 < command / 16 ->
  handle_char_compat_dagu command s = Some (tt, s).
Proof.
  intros Hc Hd.
  destruct (command_fields command Hc) as [Edir _].
  assert (Hq : command / 16 < 16)
    by (apply Z.div_lt_upper_bound; lia).
  unfold handle_char_compat_dagu. cbv zeta. rewrite Edir.
  assert (D : command / 16 = 9 \/ command / 16 = 10 \/ command / 16 = 11 \/
              command / 16 = 12 \/ command / 16 = 13 \/ command / 16 = 14 \/
              command / 16 = 15) by lia.
  destruct D as [D | [D | [D | [D | [D | [D | D]]]]]];
    rewrite D; reflexivity.
Qed.

Lemma compat_decoder_ignores_unknown_direction_witness :
  0 <= 0x9F <= 255 /\ 8 < 0x9F / 16 /\
  handle_char_compat_dagu 0x9F (loop_entry 16 (fun _ => 200) [0x9F])
  = Some (tt, loop_entry 16 (fun _ => 200) [0x9F]).
Proof.
  split; [lia | split; [reflexivity |]].
  exact (compat_decoder_ignores_unknown_direction 0x9F
           (loop_entry 16 (fun _ => 200) [0x9F])
           ltac:(lia) ltac:(reflexivity)).
Defined.

(** * The battery monitor *)

Lemma batt_sample_eq s :
  batt_sample s
  = Some (tt, set_battlevel (batt_scale (u8 (ADCH s O)))
                (set_ADCH (fun k => ADCH s (S k)) s)).
Proof. reflexivity. Qed.

(** What the 8-bit arithmetic computes: the product modulo 256. *)
Lemma batt_scale_wraps raw :
  0 <= raw <= 255 -> batt_scale raw = ((raw - 142) * 5) mod 256.
Proof.
  intros H.
  apply Z.eqb_eq.
  exact (forall_byte (fun r => batt_scale r =? ((r - 142) * 5) mod 256)
           eq_refl raw H).
Qed.

Lemma batt_scale_range raw : 0 <= batt_scale raw <= 255.
Proof.
  unfold batt_scale. cbv zeta.
  set (a := u8 (u8 raw - 142)).
  set (b := if a <? 0 then 0 else a).
  pose proof (Z.mod_pos_bound (b * 5) 256 ltac:(lia)) as Hb.
  fold (u8 (b * 5)) in Hb.
  destruct (Z.ltb_spec 255 (u8 (b * 5))); lia.
Qed.

(** On the readings 142..193 the code agrees with the description. *)
Lemma batt_scale_in_band raw :
  142 <= raw <= 193 -> batt_scale raw = batt_scale_clamped raw.
Proof.
  intros H. rewrite batt_scale_wraps by lia.
  unfold batt_scale_clamped. rewrite Z.mod_small by lia. lia.
Qed.

(** The band 142..193 is exactly where they agree. *)
Lemma batt_scale_agrees_iff_in_band raw :
  0 <= raw <= 255 ->
  (batt_scale raw = batt_scale_clamped raw <-> 142 <= raw <= 193).
Proof.
  intros H.
  pose proof (forall_byte
    (fun r => Bool.eqb (batt_scale r =? batt_scale_clamped r)
                ((142 <=? r) && (r <=? 193)))
    eq_refl raw H) as E.
  apply Bool.eqb_prop in E.
  rewrite <- Z.eqb_eq, E, andb_true_iff, !Z.leb_le. reflexivity.
Qed.

(** C3 fails on the code: the two clamps of [batt_sample] compare an
    unsigned 8-bit value and never fire, so the level wraps.  A reading of
    141 stores 251 where the clamp gives 0, and a reading of 194 stores 4
    where the clamp gives 255. *)
Theorem batt_sample_wraps_where_clamp_expected :
  runs batt_sample (loop_entry 16 (fun _ => 141) [])
    (fun _ s' => battlevel s' = 251 /\ batt_scale_clamped 141 = 0) /\
  runs batt_sample (loop_entry 16 (fun _ => 194) [])
    (fun _ s' => battlevel s' = 4 /\ batt_scale_clamped 194 = 255).
Proof.
  split; (eapply runs_eq; [apply batt_sample_eq |]);
    split; reflexivity.
Qed.

Lemma count_below_bound threshold levels :
  0 <= count_below threshold levels <= Z.of_nat (length levels).
Proof.
  unfold count_below.
  pose proof (filter_length_le (fun l => l <? threshold) levels).
  lia.
Qed.

Lemma sampled_levels_length n s : length (sampled_levels n s) = n.
Proof.
  unfold sampled_levels. rewrite length_map.
  generalize (ADCH s). induction n as [| n IH]; intros f; simpl; auto.
Qed.

Lemma batt_low_step_effect threshold warn s :
  runs (batt_low_step threshold warn) s (fun warn' s' =>
    warn' = (if batt_scale (u8 (ADCH s O)) <? threshold
             then u8 (warn + 1) else warn) /\
    ADCH s' = (fun k => ADCH s (S k))).
Proof.
  unfold batt_low_step.
  frame_over ADCH as s1 H1.
  apply runs_bind. eapply runs_eq; [apply batt_sample_eq | cbv beta].
  run_step.
  cbn [battlevel set_battlevel].
  revert H1. generalize (ADCH s1). intros adc ->.
  destruct (batt_scale (u8 (ADCH s O)) <? threshold).
  - frame_over ADCH as s2 H2. frame_over ADCH as s3 H3.
    apply runs_ret. split; [reflexivity |].
    cbn [ADCH set_ADCH set_battlevel] in *. congruence.
  - apply runs_ret. split; reflexivity.
Qed.

Lemma batt_low_loop_counts threshold n : forall warn s,
  0 <= warn -> warn + Z.of_nat n <= 255 ->
  runs (times_with n (batt_low_step threshold) warn) s (fun warn' _ =>
    warn' = warn + count_below threshold (sampled_levels n s)).
Proof.
  induction n as [| n IH]; intros warn s H0 H1.
  - apply runs_ret. unfold count_below. simpl. lia.
  - cbn [times_with]. apply runs_bind.
    eapply runs_weaken; [apply batt_low_step_effect |].
    intros warn1 s1 (Ew & Ea). cbv beta.
    assert (Hw : 0 <= warn1 /\ warn1 + Z.of_nat n <= 255 /\
                 warn1 = warn + (if batt_scale (u8 (ADCH s O)) <? threshold
                                 then 1 else 0)).
    { rewrite Ew. destruct (batt_scale (u8 (ADCH s O)) <? threshold).
      - unfold u8. rewrite Z.mod_small by lia. lia.
      - lia. }
    destruct Hw as (Hw0 & Hw1 & Hw2).
    eapply runs_weaken; [apply IH; assumption |].
    intros warn' s2 E. cbv beta in E. rewrite E, Hw2.
    unfold sampled_levels, count_below. rewrite Ea.
    cbn [upcoming map filter].
    destruct (batt_scale (u8 (ADCH s O)) <? threshold);
      cbn [length]; lia.
Qed.

(** C4: [batt_low_consistently] takes 20 samples and returns true exactly
    when at least 18 of the 20 sampled levels are strictly below the
    threshold; with 17 or fewer it returns false. *)
Theorem batt_low_consistently_votes threshold s :
  runs (batt_low_consistently threshold) s (fun low _ =>
    let below := count_below threshold (sampled_levels 20 s) in
    (low = 1 <-> 18 <= below) /\ (low = 0 <-> below <= 17)).
Proof.
  unfold batt_low_consistently. cbv zeta.
  frame_over ADCH as s1 H1.
  apply runs_bind.
  eapply runs_weaken; [apply batt_low_loop_counts; lia |].
  intros warn s2 E. cbv beta in E.
  frame_over ADCH as s3 H3.
  apply runs_ret.
  unfold sampled_levels in *.
  revert E. revert H1. generalize (ADCH s1). intros adc -> E.
  rewrite E.
  set (below := count_below threshold _).
  unfold c_bool. destruct (Z.ltb_spec 17 (0 + below)); lia.
Qed.

(** Every level is the image of some reading, so the vote ranges over all
    sequences of levels. *)
Lemma batt_scale_onto level :
  0 <= level <= 255 ->
  exists raw, 0 <= raw <= 255 /\ batt_scale raw = level.
Proof.
  intros H. exists ((level * 205 + 142) mod 256). split.
  - pose proof (Z.mod_pos_bound (level * 205 + 142) 256). lia.
  - apply Z.eqb_eq.
    exact (forall_byte
             (fun l => batt_scale ((l * 205 + 142) mod 256) =? l)
             eq_refl level H).
Qed.

Example vote_18_of_20 :
  option_map fst
    (batt_low_consistently 10 (loop_entry 16 (feed_with_low 18) []))
  = Some 1.
Proof. vm_compute. reflexivity. Qed.

Example vote_17_of_20 :
  option_map fst
    (batt_low_consistently 10 (loop_entry 16 (feed_with_low 17) []))
  = Some 0.
Proof. vm_compute. reflexivity. Qed.

(** * The direct decoder: stepping the drive velocity *)

Lemma i16_small x : -32768 <= x < 32768 -> i16 x = x.
Proof. intros H. unfold i16. rewrite Z.mod_small by lia. lia. Qed.

Lemma handle_char_p_eq s :
  handle_char 112 s
  = (v <- read velocity ;; motor_drive_set_velocity (i16 (v + 5))) s.
Proof. reflexivity. Qed.

Lemma handle_char_u_eq s :
  handle_char 117 s
  = (v <- read velocity ;; motor_drive_set_velocity (i16 (v - 5))) s.
Proof. reflexivity. Qed.

Lemma increment_once s :
  -255 <= velocity s <= 255 ->
  runs (handle_char 112) s (fun _ s' =>
    velocity s' = Z.min (velocity s + 5) 255).
Proof.
  intros H. unfold runs. rewrite handle_char_p_eq. fold (runs
    (v <- read velocity ;; motor_drive_set_velocity (i16 (v + 5))) s
    (fun _ s' => velocity s' = Z.min (velocity s + 5) 255)).
  run_step. rewrite i16_small by lia.
  eapply runs_weaken; [apply motor_drive_set_velocity_effect |].
  intros _ s' (E & _). rewrite E. unfold clamp255.
  destruct (Z.ltb_spec 255 (velocity s + 5)); cbv zeta;
    match goal with |- context [?a <? ?b] => destruct (Z.ltb_spec a b) end;
    lia.
Qed.

Lemma decrement_once s :
  -255 <= velocity s <= 255 ->
  runs (handle_char 117) s (fun _ s' =>
    velocity s' = Z.max (velocity s - 5) (-255)).
Proof.
  intros H. unfold runs. rewrite handle_char_u_eq. fold (runs
    (v <- read velocity ;; motor_drive_set_velocity (i16 (v - 5))) s
    (fun _ s' => velocity s' = Z.max (velocity s - 5) (-255))).
  run_step. rewrite i16_small by lia.
  eapply runs_weaken; [apply motor_drive_set_velocity_effect |].
  intros _ s' (E & _). rewrite E. unfold clamp255.
  destruct (Z.ltb_spec 255 (velocity s - 5)); cbv zeta;
    match goal with |- context [?a <? ?b] => destruct (Z.ltb_spec a b) end;
    lia.
Qed.

Lemma increment_many n : forall s,
  -255 <= velocity s <= 255 ->
  runs (times n (handle_char 112)) s (fun _ s' =>
    velocity s' = Z.min (velocity s + 5 * Z.of_nat n) 255).
Proof.
  induction n as [| n IH]; intros s H.
  - apply runs_ret. lia.
  - cbn [times]. apply runs_bind.
    eapply runs_weaken; [apply increment_once, H |].
    intros ? s1 E1. cbv beta in E1 |- *.
    eapply runs_weaken; [apply IH; lia |].
    intros ? s2 E2. cbv beta in E2. lia.
Qed.

Lemma decrement_many n : forall s,
  -255 <= velocity s <= 255 ->
  runs (times n (handle_char 117)) s (fun _ s' =>
    velocity s' = Z.max (velocity s - 5 * Z.of_nat n) (-255)).
Proof.
  induction n as [| n IH]; intros s H.
  - apply runs_ret. lia.
  - cbn [times]. apply runs_bind.
    eapply runs_weaken; [apply decrement_once, H |].
    intros ? s1 E1. cbv beta in E1 |- *.
    eapply runs_weaken; [apply IH; lia |].
    intros ? s2 E2. cbv beta in E2. lia.
Qed.

(** C10: with the drive velocity in [-255, 255], the increment command 'p'
    stores min(velocity + 5, 255) and the decrement command 'u' stores
    max(velocity - 5, -255); [n] increments in a row store
    min(velocity + 5n, 255) and [n] decrements max(velocity - 5n, -255), so
    the velocity saturates at the bound and never wraps past it. *)
Theorem direct_step_saturates s :
  -255 <= velocity s <= 255 ->
  runs (handle_char (ch "p")) s (fun _ s' =>
    velocity s' = Z.min (velocity s + 5) 255) /\
  runs (handle_char (ch "u")) s (fun _ s' =>
    velocity s' = Z.max (velocity s - 5) (-255)) /\
  (forall n, runs (times n (handle_char (ch "p"))) s (fun _ s' =>
    velocity s' = Z.min (velocity s + 5 * Z.of_nat n) 255 /\
    -255 <= velocity s' <= 255)) /\
  (forall n, runs (times n (handle_char (ch "u"))) s (fun _ s' =>
    velocity s' = Z.max (velocity s - 5 * Z.of_nat n) (-255) /\
    -255 <= velocity s' <= 255)).
Proof.
  intros H. change (ch "p") with 112. change (ch "u") with 117.
  split; [apply increment_once, H |].
  split; [apply decrement_once, H |].
  split; intros n.
  - eapply runs_weaken; [apply increment_many, H |].
    intros ? s' E. cbv beta in E. lia.
  - eapply runs_weaken; [apply decrement_many, H |].
    intros ? s' E. cbv beta in E. lia.
Qed.

Lemma direct_step_saturates_witness :
  -255 <= velocity (set_velocity 253 (loop_entry 16 (fun _ => 200) []))
       <= 255 /\
  runs (handle_char (ch "p"))
    (set_velocity 253 (loop_entry 16 (fun _ => 200) []))
    (fun _ s' => velocity s' = 255).
Proof.
  assert (H : -255 <= velocity
                        (set_velocity 253 (loop_entry 16 (fun _ => 200) []))
              <= 255) by (simpl; lia).
  split; [exact H |].
  exact (proj1 (direct_step_saturates
                  (set_velocity 253 (loop_entry 16 (fun _ => 200) [])) H)).
Defined.

(** * The control loop *)

(** ** Frames of the stages of the loop body *)

Lemma runs_keeps {X A : Type} (obs : Board -> X) (m : M A) s
    (Q : A -> Board -> Prop) :
  keeps obs m ->
  (forall a s', obs s' = obs s -> Q a s') ->
  runs m s Q.
Proof. intros Hk HQ. eapply runs_weaken; [apply Hk | exact HQ]. Qed.

Section StageFrames.
Context {X : Type} (obs : Board -> X).

Lemma keeps_wdt_reset : ignores obs set_wdt_resets -> keeps obs wdt_reset.
Proof. intros H. unfold wdt_reset. auto with frame. Qed.

Lemma keeps_main_link_check :
  ignores obs set_velocity -> ignores obs set_steerposition ->
  ignores obs set_uart_tx ->
  ignores obs set_OCR0A -> ignores obs set_OCR0B ->
  ignores obs set_OCR1A -> ignores obs set_OCR1B ->
  keeps obs main_link_check.
Proof.
  intros H1 H2 H3 H4 H5 H6 H7.
  unfold main_link_check, bluetooth_connected. auto 10 with frame.
Qed.

Lemma keeps_main_command :
  ignores obs set_velocity -> ignores obs set_steerposition ->
  ignores obs set_uart_tx -> ignores obs set_uart_rx ->
  ignores obs set_PORTC ->
  ignores obs set_OCR0A -> ignores obs set_OCR0B ->
  ignores obs set_OCR1A -> ignores obs set_OCR1B ->
  keeps obs main_command.
Proof.
  intros H1 H2 H3 H4 H5 H6 H7 H8 H9 s.
  unfold main_command. run_step.
  destruct (uart_rx s) as [| c rest] eqn:E.
  - apply runs_ret. reflexivity.
  - unfold when. change (_BV 7 =? 0) with false. cbv iota.
    run_step.
    apply runs_bind. eapply runs_eq.
    { unfold uart_getch. cbn [uart_rx set_PORTC]. rewrite E. reflexivity. }
    cbv beta. run_step.
    apply (runs_keeps obs); [auto with frame |].
    intros _ s' Es. rewrite Es. rewrite H5, H4, H5. reflexivity.
Qed.

Lemma keeps_main_voltage_display :
  ignores obs set_voltagedisplaytogglecountdown ->
  ignores obs set_voltagedisplaytogglestate ->
  ignores obs set_ADCH -> ignores obs set_battlevel ->
  ignores obs set_OCR2B ->
  keeps obs main_voltage_display.
Proof.
  intros H1 H2 H3 H4 H5. unfold main_voltage_display.
  auto 20 with frame.
Qed.

Lemma keeps_main_warn_toggle :
  ignores obs set_battwarntogglecountdown ->
  ignores obs set_battwarntogglestate ->
  keeps obs main_warn_toggle.
Proof.
  intros H1 H2. unfold main_warn_toggle. auto 20 with frame.
Qed.

Lemma keeps_main_batt_report :
  ignores obs set_uart_tx -> keeps obs main_batt_report.
Proof. intros H. unfold main_batt_report. auto 20 with frame. Qed.

Lemma keeps_main_batt_check :
  ignores obs set_velocity -> ignores obs set_steerposition ->
  ignores obs set_uart_tx -> ignores obs set_PORTC ->
  ignores obs set_ADCH -> ignores obs set_battlevel ->
  ignores obs set_nops ->
  ignores obs set_OCR0A -> ignores obs set_OCR0B ->
  ignores obs set_OCR1A -> ignores obs set_OCR1B ->
  keeps obs main_batt_check.
Proof.
  intros. unfold main_batt_check, led3on, led3off.
  pose proof keeps_main_batt_report.
  auto 20 with frame.
Qed.
End StageFrames.

#[export] Hint Resolve keeps_wdt_reset keeps_main_link_check
  keeps_main_command keeps_main_voltage_display keeps_main_warn_toggle
  keeps_main_batt_report keeps_main_batt_check : frame.

(** ** The loop body always returns *)

Lemma main_loop_body_total s : runs main_loop_body s (fun _ _ => True).
Proof.
  apply (runs_keeps (fun _ : Board => tt)); [| auto].
  unfold main_loop_body, main_before_batt_check. auto 20 with frame.
Qed.

Lemma main_loop_body_tick s : main_loop_body s = Some (tt, tick s).
Proof.
  destruct (main_loop_body_total s) as ([] & s' & E & _).
  unfold tick, landing. rewrite E. reflexivity.
Qed.

(** ** The two flip-flops *)

Lemma main_voltage_display_effect s :
  runs main_voltage_display s (fun _ s' =>
    display_toggle s'
    = toggle_tick voltagedisplaytoggleperiodlength (display_toggle s)).
Proof.
  unfold main_voltage_display.
  run_step. run_step.
  cbn [voltagedisplaytogglecountdown set_voltagedisplaytogglecountdown].
  unfold toggle_tick, display_toggle. cbn [fst snd].
  destruct (u8 (voltagedisplaytogglecountdown s - 1) <=? 0);
    unfold when, c_bool; [change (1 =? 0) with false
                         | change (0 =? 0) with true]; cbv iota.
  - run_step. run_step.
    apply (runs_keeps display_toggle); [auto 20 with frame |].
    intros _ s' E. unfold display_toggle in E.
    rewrite E. reflexivity.
  - run_step. run_step.
    apply (runs_keeps display_toggle); [auto 20 with frame |].
    intros _ s' E. unfold display_toggle in E.
    rewrite E. reflexivity.
Qed.

Lemma main_warn_toggle_effect s :
  runs main_warn_toggle s (fun _ s' =>
    warn_toggle s'
    = toggle_tick battwarntoggleperiodlength (warn_toggle s)).
Proof.
  unfold main_warn_toggle.
  run_step. run_step.
  cbn [battwarntogglecountdown set_battwarntogglecountdown].
  unfold toggle_tick, warn_toggle. cbn [fst snd].
  destruct (u8 (battwarntogglecountdown s - 1) <=? 0);
    unfold when, c_bool; [change (1 =? 0) with false
                         | change (0 =? 0) with true]; cbv iota.
  - eapply runs_eq; [reflexivity | reflexivity].
  - apply runs_ret. reflexivity.
Qed.

Lemma toggles_split s s' :
  toggles s = toggles s' ->
  display_toggle s = display_toggle s' /\ warn_toggle s = warn_toggle s'.
Proof.
  unfold toggles, display_toggle, warn_toggle. intros E.
  injection E as -> -> -> ->. split; reflexivity.
Qed.

(** One iteration of the loop steps each flip-flop once, whatever the
    inputs and the rest of the board. *)
Lemma tick_toggles s :
  display_toggle (tick s)
  = toggle_tick voltagedisplaytoggleperiodlength (display_toggle s) /\
  warn_toggle (tick s)
  = toggle_tick battwarntoggleperiodlength (warn_toggle s).
Proof.
  apply (runs_inv main_loop_body s tt (tick s) (fun _ s' =>
    display_toggle s'
    = toggle_tick voltagedisplaytoggleperiodlength (display_toggle s) /\
    warn_toggle s'
    = toggle_tick battwarntoggleperiodlength (warn_toggle s)));
    [| apply main_loop_body_tick].
  unfold main_loop_body, main_before_batt_check.
  apply runs_bind.
  frame_over toggles as s1 H1.
  frame_over toggles as s2 H2.
  frame_over toggles as s3 H3.
  apply runs_bind.
  eapply runs_weaken;
    [apply (runs_kept warn_toggle);
       [auto with frame | apply main_voltage_display_effect] |].
  intros ? s4 (Ed & Ew). cbv beta.
  eapply runs_weaken;
    [apply (runs_kept display_toggle);
       [auto with frame | apply main_warn_toggle_effect] |].
  intros ? s5 (Ew' & Ed'). cbv beta.
  frame_over toggles as s6 H6.
  apply (runs_keeps toggles); [auto with frame |].
  intros ? s7 H7.
  assert (E3 : toggles s3 = toggles s) by congruence.
  assert (E7 : toggles s7 = toggles s5) by congruence.
  destruct (toggles_split _ _ E3) as [D3 W3].
  destruct (toggles_split _ _ E7) as [D7 W7].
  rewrite D7, W7, Ed', Ew', Ed, Ew, D3, W3. split; reflexivity.
Qed.

(** ** The flip-flop in isolation *)

Section FlipFlop.
Variable period : Z.
Hypothesis period_range : 1 <= period <= 255.

Lemma toggle_after_add m n cs :
  toggle_after period (m + n) cs
  = toggle_after period n (toggle_after period m cs).
Proof.
  revert cs. induction m as [| m IH]; intros cs; simpl; auto.
Qed.

Lemma toggle_flips_add m n cs :
  toggle_flips period (m + n) cs
  = (toggle_flips period m cs
     + toggle_flips period n (toggle_after period m cs))%nat.
Proof.
  revert cs. induction m as [| m IH]; intros cs; simpl; auto.
  rewrite IH. lia.
Qed.

Lemma toggle_tick_count c b :
  2 <= c <= 255 -> toggle_tick period (c, b) = (c - 1, b).
Proof.
  intros H. unfold toggle_tick. cbn [fst snd]. unfold u8.
  rewrite Z.mod_small by lia.
  destruct (Z.leb_spec (c - 1) 0); [lia | reflexivity].
Qed.

Lemma toggle_tick_flip b : toggle_tick period (1, b) = (period, c_not b).
Proof. reflexivity. Qed.

Lemma c_not_flips b : (c_not b =? b) = false.
Proof.
  unfold c_not. destruct (Z.eqb_spec b 0) as [-> | N]; [reflexivity |].
  apply Z.eqb_neq. lia.
Qed.

(** While the countdown has not reached 1 nothing flips. *)
Lemma toggle_counting j : forall c b,
  Z.of_nat j < c <= 255 ->
  toggle_after period j (c, b) = (c - Z.of_nat j, b) /\
  toggle_flips period j (c, b) = O.
Proof.
  induction j as [| j IH]; intros c b H.
  - simpl. split; [f_equal; lia | reflexivity].
  - cbn [toggle_after toggle_flips].
    rewrite toggle_tick_count by lia. cbn [snd].
    rewrite Z.eqb_refl.
    destruct (IH (c - 1) b ltac:(lia)) as [Ea Ef].
    rewrite Ea, Ef. split; [f_equal; lia | reflexivity].
Qed.

(** From countdown [c] the state flips at the [c]-th iteration, once. *)
Lemma toggle_reload c b :
  1 <= c <= 255 ->
  toggle_after period (Z.to_nat c) (c, b) = (period, c_not b) /\
  toggle_flips period (Z.to_nat c) (c, b) = 1%nat.
Proof.
  intros H.
  replace (Z.to_nat c) with (Z.to_nat (c - 1) + 1)%nat by lia.
  rewrite toggle_after_add, toggle_flips_add.
  destruct (toggle_counting (Z.to_nat (c - 1)) c b ltac:(lia)) as [Ea Ef].
  rewrite Ea, Ef.
  replace (c - Z.of_nat (Z.to_nat (c - 1))) with 1 by lia.
  cbn [toggle_after toggle_flips]. rewrite toggle_tick_flip. cbn [snd].
  rewrite c_not_flips. split; reflexivity.
Qed.

(** Once the countdown is within the period it stays there. *)
Lemma toggle_tick_in_period cs :
  1 <= fst cs <= period -> 1 <= fst (toggle_tick period cs) <= period.
Proof.
  destruct cs as [c b]. cbn [fst]. intros H.
  destruct (Z.eq_dec c 1) as [-> | N].
  - rewrite toggle_tick_flip. cbn [fst]. lia.
  - rewrite toggle_tick_count by lia. cbn [fst]. lia.
Qed.

Lemma toggle_after_in_period n : forall cs,
  1 <= fst cs <= period ->
  1 <= fst (toggle_after period n cs) <= period.
Proof.
  induction n as [| n IH]; intros cs H; simpl; auto.
  apply IH, toggle_tick_in_period, H.
Qed.

(** With the countdown within the period, any [period] consecutive
    iterations contain exactly one flip. *)
Lemma toggle_window cs :
  1 <= fst cs <= period ->
  toggle_flips period (Z.to_nat period) cs = 1%nat.
Proof.
  destruct cs as [c b]. cbn [fst]. intros H.
  replace (Z.to_nat period)
    with (Z.to_nat c + Z.to_nat (period - c))%nat by lia.
  rewrite toggle_flips_add.
  destruct (toggle_reload c b ltac:(lia)) as [Ea Ef].
  rewrite Ea, Ef.
  destruct (toggle_counting (Z.to_nat (period - c)) period (c_not b)
              ltac:(lia)) as [_ Ef'].
  rewrite Ef'. reflexivity.
Qed.
End FlipFlop.

(** ** Runs of the loop *)

Section RunFlipFlop.
Variable tg : Board -> Z * Z.
Variable period : Z.
Hypothesis tg_tick : forall s, tg (tick s) = toggle_tick period (tg s).
Hypothesis tg_arrive : forall e s, tg (arrive e s) = tg s.

Lemma run_toggle es : forall s,
  tg (run es s) = toggle_after period (length es) (tg s).
Proof.
  induction es as [| e es IH]; intros s; simpl; auto.
  rewrite IH, tg_tick, tg_arrive. reflexivity.
Qed.

Lemma flips_toggle es : forall s,
  flips tg es s = toggle_flips period (length es) (tg s).
Proof.
  induction es as [| e es IH]; intros s; simpl; auto.
  rewrite IH, tg_tick, tg_arrive. reflexivity.
Qed.
End RunFlipFlop.

Lemma run_display_toggle es s :
  display_toggle (run es s)
  = toggle_after voltagedisplaytoggleperiodlength (length es)
      (display_toggle s).
Proof.
  apply run_toggle; [intros; apply tick_toggles | reflexivity].
Qed.

Lemma run_warn_toggle es s :
  warn_toggle (run es s)
  = toggle_after battwarntoggleperiodlength (length es) (warn_toggle s).
Proof.
  apply run_toggle; [intros; apply tick_toggles | reflexivity].
Qed.

Lemma flips_display_toggle es s :
  flips display_toggle es s
  = toggle_flips voltagedisplaytoggleperiodlength (length es)
      (display_toggle s).
Proof.
  apply flips_toggle; [intros; apply tick_toggles | reflexivity].
Qed.

Lemma flips_warn_toggle es s :
  flips warn_toggle es s
  = toggle_flips battwarntoggleperiodlength (length es) (warn_toggle s).
Proof.
  apply flips_toggle; [intros; apply tick_toggles | reflexivity].
Qed.

Lemma warn_toggle_quiet n :
  (n <= 255)%nat -> toggle_flips battwarntoggleperiodlength n (0, 0) = O.
Proof.
  intros H.
  assert (E : toggle_flips battwarntoggleperiodlength (n + (255 - n)) (0, 0)
              = O).
  { replace (n + (255 - n))%nat with 255%nat by lia.
    vm_compute. reflexivity. }
  rewrite toggle_flips_add in E. lia.
Qed.

(** From loop entry the warning flip-flop stays put for 255 iterations. *)
Lemma warn_toggle_quiet_run es s :
  warn_toggle s = (0, 0) -> (length es <= 255)%nat ->
  flips warn_toggle es s = O.
Proof.
  intros Hw Hlen. rewrite flips_warn_toggle, Hw.
  apply warn_toggle_quiet, Hlen.
Qed.

(** C8 fails on the code for the warning flip-flop.  Its countdown is an
    unsigned 8-bit variable declared 0 and decremented before the test
    [<= 0]: the first decrement wraps to 255 and the test cannot see it.
    From the declared countdowns and whatever the inputs, no window of
    iterations within the first 255 contains a flip of the warning
    flip-flop (so none of 20 iterations contains exactly one), and its
    first flip comes at iteration 256.  The display flip-flop, declared 10,
    flips exactly once in every window of 200 iterations, and so does the
    warning flip-flop in windows of 20 that start after the first 236. *)
Theorem warn_toggle_skips_first_periods (before window : list Stimulus) s :
  display_toggle s = (10, 0) ->
  warn_toggle s = (0, 0) ->
  (* the warning flip-flop at the start: no flip where one is due *)
  ((length before + length window <= 255)%nat ->
   flips warn_toggle window (run before s) = O) /\
  (length before = O -> length window = 20%nat ->
   flips warn_toggle window (run before s) <> 1%nat) /\
  (length before = 255%nat -> length window = 1%nat ->
   flips warn_toggle window (run before s) = 1%nat) /\
  (* one flip per period, where the code does it *)
  (length window = 200%nat ->
   flips display_toggle window (run before s) = 1%nat) /\
  ((236 <= length before)%nat -> length window = 20%nat ->
   flips warn_toggle window (run before s) = 1%nat).
Proof.
  intros Hd Hw.
  pose proof (run_display_toggle before s) as Rd.
  pose proof (run_warn_toggle before s) as Rw.
  rewrite Hd in Rd. rewrite Hw in Rw.
  assert (Quiet : (length before + length window <= 255)%nat ->
                  flips warn_toggle window (run before s) = O).
  { intros Hlen. rewrite flips_warn_toggle, Rw.
    pose proof (warn_toggle_quiet (length before + length window) Hlen)
      as Q.
    rewrite toggle_flips_add in Q. lia. }
  split; [exact Quiet |].
  split; [intros Hb Hlen; rewrite Quiet by lia; discriminate |].
  split; [| split].
  - intros Hb Hlen. rewrite flips_warn_toggle, Rw, Hb, Hlen.
    vm_compute. reflexivity.
  - intros Hlen.
    rewrite flips_display_toggle, Rd, Hlen.
    change 200%nat with (Z.to_nat voltagedisplaytoggleperiodlength).
    apply toggle_window; [unfold voltagedisplaytoggleperiodlength; lia |].
    apply toggle_after_in_period;
      unfold voltagedisplaytoggleperiodlength; cbn [fst]; lia.
  - intros Hb Hlen.
    rewrite flips_warn_toggle, Rw, Hlen.
    replace (length before) with (236 + (length before - 236))%nat by lia.
    rewrite toggle_after_add.
    change (toggle_after battwarntoggleperiodlength 236 (0, 0))
      with (battwarntoggleperiodlength, 0).
    change 20%nat with (Z.to_nat battwarntoggleperiodlength).
    apply toggle_window; [unfold battwarntoggleperiodlength; lia |].
    apply toggle_after_in_period;
      unfold battwarntoggleperiodlength; cbn [fst]; lia.
Qed.

(** The first 20 iterations after loop entry. *)
Lemma warn_toggle_skips_first_periods_witness :
  display_toggle (loop_entry (_BV 4) (fun _ => 190) []) = (10, 0) /\
  warn_toggle (loop_entry (_BV 4) (fun _ => 190) []) = (0, 0) /\
  flips warn_toggle (repeat idle 20)
    (run [] (loop_entry (_BV 4) (fun _ => 190) [])) = O /\
  flips warn_toggle (repeat idle 20)
    (run [] (loop_entry (_BV 4) (fun _ => 190) [])) <> 1%nat.
Proof.
  split; [reflexivity |]. split; [reflexivity |].
  destruct (warn_toggle_skips_first_periods [] (repeat idle 20)
              (loop_entry (_BV 4) (fun _ => 190) []) eq_refl eq_refl)
    as (Hq & Hn & _).
  split.
  - apply Hq. rewrite repeat_length. cbn. lia.
  - apply Hn; [reflexivity | apply repeat_length].
Defined.

(** ** The safety overrides *)

(** The override itself, as both safety paths write it. *)
Lemma stop_both s :
  runs (motor_drive_set_velocity 0 ;; motor_steer_set_velocity 0) s
    (fun _ s' => at_rest s').
Proof.
  apply runs_bind.
  eapply runs_weaken; [apply motor_drive_set_velocity_effect |].
  intros ? s1 (Ev & EB & EA). cbv beta.
  eapply runs_weaken.
  - apply (runs_kept (fun b => (velocity b, OCR1A b, OCR1B b)));
      [auto with frame | apply motor_steer_set_velocity_effect].
  - intros ? s2 ((Es & E0A & E0B) & K). cbv beta in *.
    injection K as K1 K2 K3.
    unfold at_rest, motion.
    rewrite K1, K2, K3, Ev, EA, EB, Es, E0A, E0B. reflexivity.
Qed.

(** The link check with the bluetooth signal low. *)
Lemma main_link_check_down s :
  Z.land (PIND s) (_BV 4) = 0 ->
  runs main_link_check s (fun _ s' => at_rest s').
Proof.
  intros H. unfold main_link_check, bluetooth_connected.
  run_step. rewrite H. change (negb (u8 0 =? 0)) with false. cbv iota.
  apply stop_both.
Qed.

(** The command stage with nothing received. *)
Lemma main_command_idle s :
  uart_rx s = [] -> main_command s = Some (tt, s).
Proof.
  intros H. unfold main_command, bind, uart_hasch. rewrite H. reflexivity.
Qed.

(** The battery stage either leaves the motors alone or stops them. *)
Lemma main_batt_check_motion s :
  runs main_batt_check s (fun _ s' => motion s' = motion s \/ at_rest s').
Proof.
  unfold main_batt_check. run_step.
  unfold when at 1. destruct (c_bool (battlevel s <? battlowthreshold) =? 0).
  - apply runs_ret. left. reflexivity.
  - frame_over motion as s1 H1.
    frame_over motion as s2 H2.
    unfold when.
    match goal with |- context [?low =? 0] => destruct (low =? 0) end.
    + apply runs_ret. left. congruence.
    + apply (runs_frame (fun _ : Board => tt));
        [unfold led3on, led3off; auto with frame | intros ? s3 _].
      eapply runs_weaken; [apply stop_both |].
      intros ? s4 R. right. exact R.
Qed.

(** ** The loop body at its two cuts *)

(** A computation that always returns lands where it returns. *)
Lemma lands (m : M unit) s :
  keeps (fun _ : Board => tt) m -> m s = Some (tt, landing m s).
Proof.
  intros K. destruct (K s) as ([] & s' & E & _).
  unfold landing. rewrite E. reflexivity.
Qed.

Lemma keeps_inv {X A : Type} (obs : Board -> X) (m : M A) s a s' :
  keeps obs m -> m s = Some (a, s') -> obs s' = obs s.
Proof. intros K E. exact (runs_inv _ _ _ _ _ (K s) E). Qed.

Lemma wdt_reset_link_check_lands s :
  (wdt_reset ;; main_link_check) s = Some (tt, board_after_link_check s).
Proof. apply lands. auto 20 with frame. Qed.

Lemma main_before_batt_check_lands_at s :
  main_before_batt_check s = Some (tt, board_at_battery_test s).
Proof. apply lands. unfold main_before_batt_check. auto 20 with frame. Qed.

Lemma main_batt_report_lands s :
  main_batt_report s = Some (tt, landing main_batt_report s).
Proof. apply lands. auto 20 with frame. Qed.

(** Two computations that agree so far agree when continued alike. *)
Lemma bind_from {A B : Type} (m m' : M A) (k : A -> M B) s s' :
  m s = m' s' -> bind m k s = bind m' k s'.
Proof. intros E. unfold bind. rewrite E. reflexivity. Qed.

(** The loop body is the link check followed by the rest. *)
Lemma main_loop_body_after_link_check s :
  main_loop_body s = main_after_link_check (board_after_link_check s).
Proof.
  pose proof (wdt_reset_link_check_lands s) as E.
  unfold main_loop_body, main_before_batt_check, main_after_link_check.
  unfold bind in E |- *.
  destruct (wdt_reset s) as [[[] sa] |]; [| discriminate E].
  destruct (main_link_check sa) as [[[] sb] |]; [| discriminate E].
  injection E as <-.
  destruct (main_command sb) as [[[] sc] |]; [| reflexivity].
  destruct (main_voltage_display sc) as [[[] sd] |]; [| reflexivity].
  destruct (main_warn_toggle sd) as [[[] se] |]; reflexivity.
Qed.

(** With the level below the threshold the battery stage makes the call,
    on the board its report leaves. *)
Lemma main_batt_check_calls s :
  battlevel s < battlowthreshold ->
  main_batt_check s
  = (low <- batt_low_consistently battlowthreshold ;;
     main_batt_override low) (landing main_batt_report s).
Proof.
  intros Hlow. apply Z.ltb_lt in Hlow.
  unfold main_batt_check.
  rewrite (bind_eq _ _ s (battlevel s) s eq_refl). rewrite Hlow.
  unfold when at 1. change (c_bool true =? 0) with false. cbv iota.
  rewrite (bind_eq _ _ _ tt _ (main_batt_report_lands s)).
  reflexivity.
Qed.

(** With the level at or above the threshold it does nothing. *)
Lemma main_batt_check_quiet s :
  battlowthreshold <= battlevel s -> main_batt_check s = Some (tt, s).
Proof.
  intros H. apply Z.ltb_ge in H.
  unfold main_batt_check.
  rewrite (bind_eq _ _ s (battlevel s) s eq_refl). rewrite H.
  reflexivity.
Qed.

(** A call that returned false is followed by no override. *)
Lemma main_batt_override_false s : main_batt_override 0 s = Some (tt, s).
Proof. reflexivity. Qed.

Lemma main_loop_body_from_sustained_check s :
  battlevel (board_at_battery_test s) < battlowthreshold ->
  main_loop_body s
  = main_from_sustained_check (board_at_sustained_check s).
Proof.
  intros Hlow. unfold main_loop_body.
  rewrite (bind_eq _ _ _ tt _ (main_before_batt_check_lands_at s)).
  unfold main_from_sustained_check, board_at_sustained_check.
  exact (bind_from main_batt_check
           (low <- batt_low_consistently battlowthreshold ;;
            main_batt_override low)
           (fun _ => delay_100us mainloopdelay)
           (board_at_battery_test s)
           (landing main_batt_report (board_at_battery_test s))
           (main_batt_check_calls _ Hlow)).
Qed.

(** The iteration from the battery test on: the motors stay as they are
    or are stopped, and they stay when the test does not fire. *)
Lemma tick_after_battery_test s :
  (motion (tick s) = motion (board_at_battery_test s) \/ at_rest (tick s))
  /\
  (battlowthreshold <= battlevel (board_at_battery_test s) ->
   motion (tick s) = motion (board_at_battery_test s)).
Proof.
  pose proof (main_loop_body_tick s) as T.
  unfold main_loop_body in T.
  rewrite (bind_eq _ _ _ tt _ (main_before_batt_check_lands_at s)) in T.
  set (s1 := board_at_battery_test s) in *.
  split.
  - apply (runs_inv (main_batt_check ;; delay_100us mainloopdelay) s1 tt
             (tick s)
             (fun _ s' => motion s' = motion s1 \/ at_rest s'));
      [| exact T].
    apply runs_bind.
    eapply runs_weaken; [apply main_batt_check_motion |].
    intros ? s2 H2. cbv beta.
    apply (runs_keeps motion); [auto with frame |].
    intros ? s3 H3. unfold at_rest in *. rewrite H3. exact H2.
  - intros Hq.
    rewrite (bind_eq _ _ _ tt _ (main_batt_check_quiet s1 Hq)) in T.
    apply (keeps_inv motion (delay_100us mainloopdelay) s1 tt);
      [auto with frame | exact T].
Qed.

(** ** The compatibility decoder inside the command stage *)

(** The decoder's stop command leaves both motors at rest. *)
Lemma stop_steer_first s :
  runs (motor_steer_set_velocity 0 ;; motor_drive_set_velocity 0) s
    (fun _ s' => at_rest s').
Proof.
  apply runs_bind.
  eapply runs_weaken; [apply motor_steer_set_velocity_effect |].
  intros ? s1 (Es & E0A & E0B). cbv beta.
  eapply runs_weaken.
  - apply (runs_kept (fun b => (steerposition b, OCR0A b, OCR0B b)));
      [auto with frame | apply motor_drive_set_velocity_effect].
  - intros ? s2 ((Ev & EB & EA) & K). cbv beta in *.
    injection K as K1 K2 K3.
    unfold at_rest, motion.
    rewrite K1, K2, K3, Ev, EA, EB, Es, E0A, E0B. reflexivity.
Qed.

(** The direction codes of the table. *)
Lemma compat_table_direction direction speed steer drive :
  compat_table direction speed = Some (steer, drive) ->
  0 <= direction <= 8.
Proof.
  intros H.
  destruct (Z_le_gt_dec direction 8) as [Hle | Hgt];
    [destruct (Z_le_gt_dec 0 direction) as [Hge | Hlt]; [lia |] |];
    exfalso.
  - destruct direction as [| p | p]; [lia | lia | discriminate H].
  - destruct direction as [| p | p]; [lia | | lia].
    unfold compat_table in H.
    repeat match type of H with
           | context [match ?q with _ => _ end] =>
               destruct q; cbv beta iota in H; try discriminate H; try lia
           end.
Qed.

(** The decoder on a byte: the targets of the table are stored (and the
    stop command leaves the motors at rest); a byte outside the table
    changes nothing. *)
Lemma handle_char_compat_dagu_effect command s :
  0 <= command <= 255 ->
  runs (handle_char_compat_dagu command) s (fun _ s' =>
    match compat_table (command / 16) (105 + command mod 16) with
    | Some (steer, drive) =>
        steerposition s' = steer /\ velocity s' = drive /\
        (command / 16 = 0 -> at_rest s')
    | None => s' = s
    end).
Proof.
  intros Hc.
  destruct (command_fields command Hc) as [Edir Espeed].
  pose proof (Z.mod_pos_bound command 16 ltac:(lia)) as Hm.
  assert (Hq : 0 <= command / 16 < 16)
    by (split; [apply Z.div_pos; lia | apply Z.div_lt_upper_bound; lia]).
  unfold handle_char_compat_dagu. cbv zeta. rewrite Edir, Espeed.
  set (speed := 105 + command mod 16) in *.
  assert (Hs : clamp255 speed = speed /\ clamp255 (- speed) = - speed)
    by (split; apply clamp255_id; subst speed; lia).
  destruct Hs as [Hs Hn].
  unfold compat_table.
  assert (D : command / 16 = 0 \/
              (command / 16 = 1 \/ command / 16 = 2 \/ command / 16 = 3 \/
               command / 16 = 4 \/ command / 16 = 5 \/ command / 16 = 6 \/
               command / 16 = 7 \/ command / 16 = 8) \/
              (command / 16 = 9 \/ command / 16 = 10 \/ command / 16 = 11 \/
               command / 16 = 12 \/ command / 16 = 13 \/
               command / 16 = 14 \/ command / 16 = 15)) by lia.
  destruct D as [D | [D | D]].
  - rewrite D. cbv beta iota.
    eapply runs_weaken; [apply stop_steer_first |].
    intros ? s' R. cbv beta. pose proof R as R'.
    unfold at_rest, motion in R'. injection R' as -> -> _ _ _ _.
    auto.
  - destruct D as [D | [D | [D | [D | [D | [D | [D | D]]]]]]];
      rewrite D; cbv beta iota;
      (eapply runs_weaken; [apply steer_then_drive |]);
      intros ? s' (E1 & E2); cbv beta;
      rewrite E1, E2, ?Hs, ?Hn;
      (split; [reflexivity |]); (split; [reflexivity |]);
      intros H; discriminate H.
  - destruct D as [D | [D | [D | [D | [D | [D | D]]]]]];
      rewrite D; cbv beta iota; apply runs_ret; reflexivity.
Qed.

(** The command stage: with nothing received it does nothing; otherwise
    it takes the oldest byte and the decoder acts on it. *)
Lemma main_command_effect s :
  runs main_command s (fun _ s' =>
    match uart_rx s with
    | [] => s' = s
    | c :: _ =>
        match compat_table (command_direction c) (command_speed c) with
        | Some (steer, drive) =>
            steerposition s' = steer /\ velocity s' = drive /\
            (command_direction c = 0 -> at_rest s')
        | None => motion s' = motion s
        end
    end).
Proof.
  destruct (uart_rx s) as [| c rest] eqn:Hrx.
  - eapply runs_eq; [apply main_command_idle, Hrx | reflexivity].
  - unfold main_command. run_step. rewrite Hrx.
    unfold when. change (_BV 7 =? 0) with false. cbv iota.
    unfold led4on, led4off.
    frame_over (fun b => (motion b, uart_rx b)) as s1 H1.
    pose proof (f_equal fst H1) as Hm1.
    pose proof (f_equal snd H1) as Hr1.
    cbn [fst snd] in Hm1, Hr1.
    apply runs_bind.
    eapply runs_eq;
      [unfold uart_getch; rewrite Hr1, Hrx; reflexivity | cbv beta].
    frame_over motion as s3 H3.
    assert (Hm3 : motion s3 = motion s)
      by (rewrite H3; unfold motion in *; exact Hm1).
    eapply runs_weaken.
    + apply handle_char_compat_dagu_effect.
      pose proof (Z.mod_pos_bound c 256). unfold u8. lia.
    + intros ? s' R. cbv beta in *.
      unfold command_direction, command_speed.
      destruct (compat_table (u8 c / 16) (105 + u8 c mod 16))
        as [[steer drive] |]; [exact R | rewrite R; exact Hm3].
Qed.

(** The stages before the battery test, with the bluetooth signal low: the
    motors are at rest unless the byte taken carries targets. *)
Lemma main_before_batt_check_link_down s :
  Z.land (PIND s) (_BV 4) = 0 ->
  match uart_rx s with
  | [] => at_rest (board_at_battery_test s)
  | c :: _ =>
      match compat_table (command_direction c) (command_speed c) with
      | Some (steer, drive) =>
          steerposition (board_at_battery_test s) = steer /\
          velocity (board_at_battery_test s) = drive /\
          (command_direction c = 0 -> at_rest (board_at_battery_test s))
      | None => at_rest (board_at_battery_test s)
      end
  end.
Proof.
  intros Hdown.
  apply (runs_inv main_before_batt_check s tt (board_at_battery_test s)
           (fun _ s' =>
              match uart_rx s with
              | [] => at_rest s'
              | c :: _ =>
                  match compat_table (command_direction c)
                          (command_speed c) with
                  | Some (steer, drive) =>
                      steerposition s' = steer /\ velocity s' = drive /\
                      (command_direction c = 0 -> at_rest s')
                  | None => at_rest s'
                  end
              end));
    [| apply main_before_batt_check_lands_at].
  unfold main_before_batt_check.
  frame_over (fun b => (PIND b, uart_rx b)) as s1 H1.
  injection H1 as Hp Hr.
  apply runs_bind.
  eapply runs_weaken;
    [apply (runs_kept uart_rx);
       [auto with frame
       | apply main_link_check_down; rewrite Hp; exact Hdown] |].
  intros ? s2 (R2 & K2). cbv beta.
  apply runs_bind.
  eapply runs_weaken; [apply main_command_effect |].
  intros ? sc Hc. cbv beta. rewrite K2, Hr in Hc.
  frame_over motion as s3 H3.
  apply (runs_keeps motion); [auto with frame |].
  intros ? s4 H4.
  assert (Hm : motion s4 = motion sc) by congruence.
  assert (Hrest : at_rest sc -> at_rest s4)
    by (unfold at_rest; rewrite Hm; auto).
  destruct (uart_rx s) as [| c rest].
  - subst sc. auto.
  - destruct (compat_table (command_direction c) (command_speed c))
      as [[steer drive] |].
    + destruct Hc as (Es & Ev & Hz).
      unfold motion in Hm. injection Hm as -> -> _ _ _ _. auto.
    + apply Hrest. unfold at_rest. rewrite Hc. exact R2.
Qed.

(** ** The link override *)

(** C1, as stated, fails when a command is pending: the link check comes
    first in the loop body and the command is decoded after it.  With the
    bluetooth signal low and the byte 0x19 received, the iteration ends
    with drive velocity 114 and the forward channel driven. *)
Lemma link_down_command_still_drives :
  Z.land (PIND (loop_entry 0 (fun _ => 190) [0x19])) (_BV 4) = 0 /\
  main_loop_body (loop_entry 0 (fun _ => 190) [0x19])
  = Some (tt, tick (loop_entry 0 (fun _ => 190) [0x19])) /\
  velocity (tick (loop_entry 0 (fun _ => 190) [0x19])) = 114 /\
  OCR1B (tick (loop_entry 0 (fun _ => 190) [0x19])) = 114.
Proof.
  split; [reflexivity |].
  split; [apply main_loop_body_tick |].
  split; vm_compute; reflexivity.
Qed.

(** C1, amended: in every iteration in which the bluetooth signal reads
    low, the loop body sets both velocities and all four duty outputs to 0
    before its command stage: it returns, and what it does is the rest of
    the body run from a board at rest on which the receiver is as before.
    The iteration ends with the motors at rest unless the byte it takes
    from the receiver carries a direction code 1 to 8; the targets of such
    a command stand at the end of the iteration when the battery test does
    not fire, and otherwise either stand or have been zeroed again. *)
Theorem link_down_stops_before_command s :
  Z.land (PIND s) (_BV 4) = 0 ->
  main_loop_body s = Some (tt, tick s) /\
  (* before the command stage *)
  main_loop_body s = main_after_link_check (board_after_link_check s) /\
  at_rest (board_after_link_check s) /\
  uart_rx (board_after_link_check s) = uart_rx s /\
  (* the end of the iteration *)
  (at_rest (tick s) \/
   exists c rest steer drive,
     uart_rx s = c :: rest /\
     1 <= command_direction c <= 8 /\
     compat_table (command_direction c) (command_speed c)
     = Some (steer, drive) /\
     steerposition (tick s) = steer /\ velocity (tick s) = drive) /\
  (forall c rest steer drive,
     uart_rx s = c :: rest ->
     compat_table (command_direction c) (command_speed c)
     = Some (steer, drive) ->
     battlowthreshold <= battlevel (board_at_battery_test s) ->
     steerposition (tick s) = steer /\ velocity (tick s) = drive).
Proof.
  intros Hdown.
  pose proof (wdt_reset_link_check_lands s) as L.
  pose proof (main_before_batt_check_link_down s Hdown) as B.
  destruct (tick_after_battery_test s) as [T Tq].
  assert (Rest : at_rest (board_at_battery_test s) -> at_rest (tick s)).
  { intros R. destruct T as [T | T]; [| exact T].
    unfold at_rest. rewrite T. exact R. }
  split; [apply main_loop_body_tick |].
  split; [apply main_loop_body_after_link_check |].
  split; [| split; [| split]].
  - apply (runs_inv (wdt_reset ;; main_link_check) s tt
             (board_after_link_check s) (fun _ s' => at_rest s'));
      [| exact L].
    frame_over PIND as s1 H1.
    apply main_link_check_down. rewrite H1. exact Hdown.
  - apply (keeps_inv uart_rx (wdt_reset ;; main_link_check) s tt);
      [auto 20 with frame | exact L].
  - destruct (uart_rx s) as [| c rest]; [left; auto |].
    destruct (compat_table (command_direction c) (command_speed c))
      as [[steer drive] |] eqn:Et; [| left; auto].
    destruct B as (Es & Ev & Hz).
    destruct (Z.eq_dec (command_direction c) 0) as [Z0 | NZ];
      [left; auto |].
    destruct T as [T | T]; [right | left; exact T].
    exists c, rest, steer, drive.
    pose proof (compat_table_direction _ _ _ _ Et) as Hd.
    unfold motion in T. injection T as -> -> _ _ _ _.
    repeat split; auto; lia.
  - intros c rest steer drive Hrx Et Hq. rewrite Hrx, Et in B.
    destruct B as (Es & Ev & _).
    pose proof (Tq Hq) as Tm.
    unfold motion in Tm. injection Tm as -> -> _ _ _ _. auto.
Qed.

(** With the signal low, the car driving at 120 and a byte outside the
    table received, the iteration ends at rest. *)
Lemma link_down_stops_before_command_witness :
  Z.land (PIND (set_velocity 120 (loop_entry 0 (fun _ => 190) [0x9F])))
    (_BV 4) = 0 /\
  at_rest (tick (set_velocity 120 (loop_entry 0 (fun _ => 190) [0x9F]))).
Proof.
  split; [reflexivity |].
  destruct (link_down_stops_before_command
              (set_velocity 120 (loop_entry 0 (fun _ => 190) [0x9F]))
              eq_refl)
    as (_ & _ & _ & _ & [R | (c & rest & steer & drive & E & D & _)] & _);
    [exact R | exfalso].
  injection E as <- _.
  vm_compute in D. destruct D as [_ D]. apply D. reflexivity.
Defined.

(** ** The battery override *)

(** C5, as stated, fails: the loop body calls [batt_low_consistently]
    whenever the level is below the threshold, whatever the velocities.
    Ten iterations after loop entry the forward command 0x1F arrives while
    the converter shows one weak reading: the loop body makes the call on
    a board with the drive velocity at 120, the call returns false and the
    iteration ends still driving at 120.  With the weak reading sustained
    the call starts on the same velocity and returns true, and only then
    are the motors stopped. *)
Lemma sustained_check_entered_while_driving :
  battlevel (board_at_battery_test board_before_passing_dip)
  < battlowthreshold /\
  main_loop_body board_before_passing_dip
  = main_from_sustained_check
      (board_at_sustained_check board_before_passing_dip) /\
  velocity (board_at_sustained_check board_before_passing_dip) = 120 /\
  OCR1B (board_at_sustained_check board_before_passing_dip) = 120 /\
  option_map fst
    (batt_low_consistently battlowthreshold
       (board_at_sustained_check board_before_passing_dip))
  = Some 0 /\
  velocity (tick board_before_passing_dip) = 120 /\
  (* the weak reading sustained *)
  main_loop_body board_before_weak_battery
  = main_from_sustained_check
      (board_at_sustained_check board_before_weak_battery) /\
  velocity (board_at_sustained_check board_before_weak_battery) = 120 /\
  option_map fst
    (batt_low_consistently battlowthreshold
       (board_at_sustained_check board_before_weak_battery))
  = Some 1 /\
  velocity (tick board_before_weak_battery) = 0.
Proof.
  assert (H1 : battlevel (board_at_battery_test board_before_passing_dip)
               < battlowthreshold) by (vm_compute; reflexivity).
  assert (H2 : battlevel (board_at_battery_test board_before_weak_battery)
               < battlowthreshold) by (vm_compute; reflexivity).
  split; [exact H1 |].
  split; [exact (main_loop_body_from_sustained_check _ H1) |].
  do 4 (split; [vm_compute; reflexivity |]).
  split; [exact (main_loop_body_from_sustained_check _ H2) |].
  repeat split; vm_compute; reflexivity.
Qed.

(** C5, amended: the loop body calls [batt_low_consistently] when the
    level at the battery test is below the threshold, and only then.  It
    makes the call on the board its report leaves, and on that board the
    motors are as the link check and the command stage of the iteration
    left them, which need not be at rest.  The zero-velocity override is
    applied after the call and only when it returns true: the iteration
    then ends with both velocities and all duty outputs at 0, and when the
    call returns false it ends with the motors as they were at the call. *)
Theorem battery_override_follows_sustained_check s :
  main_loop_body s = Some (tt, tick s) /\
  (battlowthreshold <= battlevel (board_at_battery_test s) ->
   main_loop_body s
   = delay_100us mainloopdelay (board_at_battery_test s)) /\
  (battlevel (board_at_battery_test s) < battlowthreshold ->
   main_loop_body s
   = main_from_sustained_check (board_at_sustained_check s) /\
   motion (board_at_sustained_check s) = motion (board_after_command s) /\
   exists low s3,
     batt_low_consistently battlowthreshold (board_at_sustained_check s)
     = Some (low, s3) /\
     motion s3 = motion (board_at_sustained_check s) /\
     (low <> 0 -> at_rest (tick s)) /\
     (low = 0 -> motion (tick s) = motion (board_at_sustained_check s))).
Proof.
  pose proof (main_loop_body_tick s) as T.
  split; [exact T |]. split.
  { intros Hq. unfold main_loop_body.
    rewrite (bind_eq _ _ _ tt _ (main_before_batt_check_lands_at s)).
    rewrite (bind_eq _ _ _ tt _ (main_batt_check_quiet _ Hq)).
    reflexivity. }
  intros Hlow.
  pose proof (main_loop_body_from_sustained_check s Hlow) as Hcut.
  split; [exact Hcut |].
  set (s2 := board_at_sustained_check s) in *.
  split.
  - assert (M2 : motion s2 = motion (board_at_battery_test s))
      by (apply (keeps_inv motion main_batt_report _ tt);
          [auto with frame | apply main_batt_report_lands]).
    rewrite M2.
    pose proof (main_before_batt_check_lands_at s) as B.
    assert (C : (wdt_reset ;; main_link_check ;; main_command) s
                = Some (tt, board_after_command s))
      by (apply lands; auto 20 with frame).
    unfold main_before_batt_check in B. unfold bind in B, C.
    destruct (wdt_reset s) as [[[] sa] |]; [| discriminate C].
    destruct (main_link_check sa) as [[[] sb] |]; [| discriminate C].
    destruct (main_command sb) as [[[] sc] |]; [| discriminate C].
    injection C as <-.
    apply (keeps_inv motion (main_voltage_display ;; main_warn_toggle)
             sc tt); [auto with frame | exact B].
  - destruct (keeps_batt_low_consistently motion battlowthreshold
                ltac:(auto with frame) ltac:(auto with frame)
                ltac:(auto with frame) ltac:(auto with frame) s2)
      as (low & s3 & Hcall & M3).
    exists low, s3. split; [exact Hcall |]. split; [exact M3 |].
    rewrite Hcut in T.
    apply (runs_inv main_from_sustained_check s2 tt (tick s)
             (fun _ s' =>
                (low <> 0 -> at_rest s') /\
                (low = 0 -> motion s' = motion s2))); [| exact T].
    unfold main_from_sustained_check.
    apply runs_bind. apply runs_bind.
    eapply runs_eq; [exact Hcall | cbv beta].
    destruct (Z.eq_dec low 0) as [Z0 | NZ].
    + subst low.
      eapply runs_eq; [apply main_batt_override_false | cbv beta].
      apply (runs_keeps motion); [auto with frame |].
      intros ? s4 H4. split; [intros N; contradiction |].
      intros _. congruence.
    + unfold main_batt_override, when.
      apply Z.eqb_neq in NZ. rewrite NZ. apply Z.eqb_neq in NZ.
      apply (runs_frame (fun _ : Board => tt));
        [unfold led3on, led3off; auto with frame | intros ? s4 _].
      eapply runs_weaken; [apply stop_both |].
      intros ? s5 R. cbv beta.
      apply (runs_keeps motion); [auto with frame |].
      intros ? s6 H6. split; [| intros Z0; contradiction].
      intros _. unfold at_rest in *. rewrite H6. exact R.
Qed.

(** The iteration with the passing dip: the call is made on a board
    driving at 120, returns false, and the iteration ends driving. *)
Lemma battery_override_follows_sustained_check_witness :
  battlevel (board_at_battery_test board_before_passing_dip)
  < battlowthreshold /\
  main_loop_body board_before_passing_dip
  = main_from_sustained_check
      (board_at_sustained_check board_before_passing_dip) /\
  motion (board_at_sustained_check board_before_passing_dip)
  = motion (board_after_command board_before_passing_dip).
Proof.
  assert (H : battlevel (board_at_battery_test board_before_passing_dip)
              < battlowthreshold) by (vm_compute; reflexivity).
  split; [exact H |].
  destruct (proj2 (proj2 (battery_override_follows_sustained_check
                            board_before_passing_dip)) H)
    as (Hcut & Hm & _).
  split; [exact Hcut | exact Hm].
Defined.

(** * Further properties of the firmware *)

(** ** What goes out on the line *)

(** A property checked on every value of a range holds on the range. *)
Lemma all_from_spec (P : Z -> bool) (n : nat) : forall lo,
  all_from P lo n = true ->
  forall v, lo <= v < lo + Z.of_nat n -> P v = true.
Proof.
  induction n as [| n IH]; intros lo H v Hv; [lia |].
  cbn [all_from] in H. apply andb_true_iff in H. destruct H as [H0 H1].
  destruct (Z.eq_dec v lo) as [-> | N]; [exact H0 |].
  apply (IH (lo + 1) H1). lia.
Qed.

Lemma uart_send_bytes_eq l : forall s,
  uart_send_bytes l s
  = Some (tt, set_uart_tx (uart_tx s ++ map u8 l) s).
Proof.
  induction l as [| c l IH]; intros s.
  - destruct s. cbn. rewrite app_nil_r. reflexivity.
  - cbn [uart_send_bytes map].
    rewrite (bind_eq _ _ s tt _ eq_refl), IH.
    cbn [uart_tx set_uart_tx]. rewrite <- app_assoc. reflexivity.
Qed.

Lemma uart_sendch_eq c s :
  uart_sendch c s = Some (tt, set_uart_tx (uart_tx s ++ [u8 c]) s).
Proof. reflexivity. Qed.

(** [uart_sendint] only appends to the line, and what it appends depends
    on the number alone. *)
Lemma uart_sendint_eq v s :
  uart_sendint v s
  = Some (tt, set_uart_tx (uart_tx s ++ sendint_text v) s).
Proof.
  unfold sendint_text, uart_sendint.
  destruct (v <? 0);
    cbv beta iota zeta delta [bind ret uart_sendch];
    repeat match goal with
           | |- context [negb (?a =? ?b)] => destruct (negb (a =? b))
           end;
    cbv beta iota delta [orb];
    destruct s; cbn [uart_tx set_uart_tx blank loop_entry app];
    rewrite <- ?app_assoc; reflexivity.
Qed.

Lemma sendint_text_short_checked :
  all_from (fun v => (parse_int (sendint_text v) =? v) &&
                     canonical_numeral (sendint_text v))
    (-9999) (Z.to_nat 19999) = true.
Proof. vm_compute. reflexivity. Qed.

Lemma sendint_text_short v :
  -9999 <= v <= 9999 ->
  canonical_numeral (sendint_text v) = true /\
  parse_int (sendint_text v) = v.
Proof.
  intros H.
  pose proof (all_from_spec _ _ _ sendint_text_short_checked v ltac:(lia))
    as C.
  cbv beta in C. apply andb_true_iff in C. destruct C as [P C].
  apply Z.eqb_eq in P. split; assumption.
Qed.

(** X1: for a number of at most four digits, [uart_sendint] appends to the
    line a canonical decimal numeral (minus sign if negative, no leading
    zero) that reads back as the number, and changes nothing else. *)
Theorem uart_sendint_round_trip v s :
  -9999 <= v <= 9999 ->
  uart_sendint v s
  = Some (tt, set_uart_tx (uart_tx s ++ sendint_text v) s) /\
  canonical_numeral (sendint_text v) = true /\
  parse_int (sendint_text v) = v.
Proof.
  intros H. split; [apply uart_sendint_eq |].
  apply sendint_text_short, H.
Qed.

Lemma uart_sendint_round_trip_witness :
  -9999 <= -255 <= 9999 /\
  sendint_text (-255) = cstr "-255" /\
  parse_int (sendint_text (-255)) = -255.
Proof.
  split; [lia |]. split; [reflexivity |].
  exact (proj2 (proj2 (uart_sendint_round_trip (-255) blank ltac:(lia)))).
Defined.

Lemma sendint_text_long_checked :
  all_from (fun v => parse_int (sendint_text v) =? Z.rem v 10000)
    10000 (Z.to_nat 22768) = true /\
  all_from (fun v => parse_int (sendint_text v) =? Z.rem v 10000)
    (-32767) (Z.to_nat 22768) = true.
Proof. split; vm_compute; reflexivity. Qed.

(** X2: [uart_sendint] has four digit places.  For a 16-bit number of
    five digits the ten-thousands digit is lost: what goes out reads back
    as the remainder of the number by 10000 (12345 goes out as 2345), with
    the sign kept. *)
Theorem uart_sendint_drops_fifth_digit v :
  10000 <= Z.abs v <= 32767 ->
  parse_int (sendint_text v) = Z.rem v 10000 /\
  parse_int (sendint_text v) <> v.
Proof.
  intros H.
  assert (P : parse_int (sendint_text v) = Z.rem v 10000).
  { destruct sendint_text_long_checked as [Hp Hn].
    apply Z.eqb_eq.
    destruct (Z.le_gt_cases 0 v).
    - apply (all_from_spec _ _ _ Hp v). lia.
    - apply (all_from_spec _ _ _ Hn v). lia. }
  split; [exact P |]. rewrite P. intros E.
  apply Z.rem_small_iff in E; lia.
Qed.

Lemma uart_sendint_drops_fifth_digit_witness :
  10000 <= Z.abs 12345 <= 32767 /\
  sendint_text 12345 = cstr "2345" /\
  parse_int (sendint_text 12345) = 2345.
Proof.
  split; [simpl; lia |]. split; [reflexivity |].
  exact (proj1 (uart_sendint_drops_fifth_digit 12345 ltac:(simpl; lia))).
Defined.

Lemma ch_range c : 0 <= ch c <= 255.
Proof.
  unfold ch. pose proof (nat_ascii_bounded c). lia.
Qed.

Lemma map_u8_cstr data : map u8 (cstr data) = cstr data.
Proof.
  unfold cstr. induction (list_ascii_of_string data) as [| c l IH];
    [reflexivity |].
  cbn [map]. rewrite IH. f_equal.
  unfold u8. apply Z.mod_small. pose proof (ch_range c). lia.
Qed.

(** X3: [uart_send] puts the characters of its string on the line, in
    order, and changes nothing else.  (The source's loop index is 8 bits
    wide and the string ends at its first NUL: the statement is for
    strings of at most 255 characters without NUL.) *)
Theorem uart_send_appends data s :
  (String.length data <= 255)%nat ->
  ~ In zero (list_ascii_of_string data) ->
  uart_send data s = Some (tt, set_uart_tx (uart_tx s ++ cstr data) s).
Proof.
  intros _ _. unfold uart_send.
  rewrite uart_send_bytes_eq, map_u8_cstr. reflexivity.
Qed.

Lemma uart_send_appends_witness :
  (String.length "drive=" <= 255)%nat /\
  ~ In zero (list_ascii_of_string "drive=") /\
  uart_send "drive=" blank
  = Some (tt, set_uart_tx [100; 114; 105; 118; 101; 61] blank).
Proof.
  assert (L : (String.length "drive=" <= 255)%nat) by (simpl; lia).
  assert (N : ~ In zero (list_ascii_of_string "drive="))
    by (simpl; intuition discriminate).
  split; [exact L |]. split; [exact N |].
  exact (uart_send_appends "drive=" blank L N).
Defined.

(** ** The actuation functions, exactly *)

(** Normalise a board built from setters and projections. *)
Ltac board_simpl :=
  cbn [velocity steerposition battlevel voltagedisplaytogglecountdown
       voltagedisplaytogglestate battwarntogglecountdown
       battwarntogglestate OCR0A OCR0B OCR1A OCR1B OCR2B PORTC PIND ADCH
       uart_rx uart_tx ourmagic ourage nops wdt_resets set_velocity
       set_steerposition set_battlevel set_voltagedisplaytogglecountdown
       set_voltagedisplaytogglestate set_battwarntogglecountdown
       set_battwarntogglestate set_OCR0A set_OCR0B set_OCR1A set_OCR1B
       set_OCR2B set_PORTC set_PIND set_ADCH set_uart_rx set_uart_tx
       set_ourmagic set_ourage set_nops set_wdt_resets].

Lemma read_then {A B : Type} (f : Board -> A) (g : A -> M B) s r :
  g (f s) s = r -> bind (read f) g s = r.
Proof. intros <-. reflexivity. Qed.

(** The board after [motor_drive_set_velocity]: the clamped velocity is
    stored, one line is echoed, the two drive channels are written. *)
Lemma motor_drive_set_velocity_eq v s :
  motor_drive_set_velocity v s
  = Some (tt,
      let c := clamp255 v in
      set_OCR1B (if 0 <=? c then u16 (Z.land c 0xff) else 0)
        (set_OCR1A (if 0 <=? c then 0 else u16 (0xff - Z.land c 0xff))
           (set_uart_tx
              (uart_tx s ++ cstr "drive=" ++ sendint_text c ++ [ch LF])
              (set_velocity c s)))).
Proof.
  unfold motor_drive_set_velocity. fold (clamp255 v).
  set (c := clamp255 v). cbv zeta.
  rewrite (bind_eq _ _ s tt _ eq_refl).
  unfold uart_send.
  rewrite (bind_eq _ _ _ tt _ (uart_send_bytes_eq _ _)).
  rewrite map_u8_cstr.
  rewrite (bind_eq _ _ _ tt _
             (read_then _ _ _ _ (uart_sendint_eq _ _))).
  rewrite (bind_eq _ _ _ tt _ (uart_sendch_eq _ _)).
  apply read_then.
  destruct s. cbn [uart_tx set_uart_tx set_velocity velocity].
  rewrite <- !app_assoc.
  destruct (0 <=? c); reflexivity.
Qed.

Lemma motor_steer_set_velocity_eq v s :
  motor_steer_set_velocity v s
  = Some (tt,
      let c := clamp255 v in
      set_OCR0A (if 0 <=? c then u8 (Z.land c 0xff) else 0)
        (set_OCR0B (if 0 <=? c then 0 else u8 (0xff - Z.land c 0xff))
           (set_uart_tx
              (uart_tx s ++ cstr "steer=" ++ sendint_text c ++ [ch LF])
              (set_steerposition c s)))).
Proof.
  unfold motor_steer_set_velocity. fold (clamp255 v).
  set (c := clamp255 v). cbv zeta.
  rewrite (bind_eq _ _ s tt _ eq_refl).
  unfold uart_send.
  rewrite (bind_eq _ _ _ tt _ (uart_send_bytes_eq _ _)).
  rewrite map_u8_cstr.
  rewrite (bind_eq _ _ _ tt _
             (read_then _ _ _ _ (uart_sendint_eq _ _))).
  rewrite (bind_eq _ _ _ tt _ (uart_sendch_eq _ _)).
  apply read_then.
  destruct s. cbn [uart_tx set_uart_tx set_steerposition steerposition].
  rewrite <- !app_assoc.
  destruct (0 <=? c); reflexivity.
Qed.

Lemma sendint_text_clamped v :
  canonical_numeral (sendint_text (clamp255 v)) = true /\
  parse_int (sendint_text (clamp255 v)) = clamp255 v.
Proof.
  pose proof (clamp255_range v) as R.
  apply sendint_text_short. lia.
Qed.

(** X4: whatever velocity is asked for, [motor_drive_set_velocity] and
    [motor_steer_set_velocity] store the clamped value and echo one line,
    "drive=" or "steer=", a canonical decimal numeral and a newline, whose
    numeral reads back as the velocity that was stored (the clamped one,
    not the one asked for). *)
Theorem set_velocity_echoes_stored_value v s :
  runs (motor_drive_set_velocity v) s (fun _ s' =>
    velocity s' = clamp255 v /\
    exists text,
      uart_tx s' = uart_tx s ++ cstr "drive=" ++ text ++ [ch LF] /\
      canonical_numeral text = true /\
      parse_int text = velocity s') /\
  runs (motor_steer_set_velocity v) s (fun _ s' =>
    steerposition s' = clamp255 v /\
    exists text,
      uart_tx s' = uart_tx s ++ cstr "steer=" ++ text ++ [ch LF] /\
      canonical_numeral text = true /\
      parse_int text = steerposition s').
Proof.
  destruct (sendint_text_clamped v) as [C P].
  split.
  - eapply runs_eq; [apply motor_drive_set_velocity_eq |].
    cbv zeta. split; [reflexivity |].
    exists (sendint_text (clamp255 v)).
    split; [reflexivity |]. split; [exact C | exact P].
  - eapply runs_eq; [apply motor_steer_set_velocity_eq |].
    cbv zeta. split; [reflexivity |].
    exists (sendint_text (clamp255 v)).
    split; [reflexivity |]. split; [exact C | exact P].
Qed.

Lemma clamp255_high v : 255 < v -> clamp255 v = 255.
Proof.
  intros H. unfold clamp255.
  destruct (Z.ltb_spec 255 v); [reflexivity | lia].
Qed.

Lemma clamp255_low v : v < -255 -> clamp255 v = -255.
Proof.
  intros H. unfold clamp255.
  destruct (Z.ltb_spec 255 v); [lia |]. cbv zeta.
  destruct (Z.ltb_spec v (-255)); [reflexivity | lia].
Qed.

(** X5: a velocity beyond the range is clamped before it is stored and
    mapped.  Above 255 both functions store 255 and drive the forward
    (right) channel at 255; below -255 they store -255 and drive the
    reverse (left) channel at 254, the other channel being 0. *)
Theorem out_of_range_velocity_is_clamped v s :
  255 < Z.abs v ->
  runs (motor_drive_set_velocity v) s (fun _ s' =>
    velocity s' = Z.sgn v * 255 /\
    OCR1B s' = (if 0 <? v then 255 else 0) /\
    OCR1A s' = (if 0 <? v then 0 else 254)) /\
  runs (motor_steer_set_velocity v) s (fun _ s' =>
    steerposition s' = Z.sgn v * 255 /\
    OCR0A s' = (if 0 <? v then 255 else 0) /\
    OCR0B s' = (if 0 <? v then 0 else 254)).
Proof.
  intros H.
  assert (C : clamp255 v = Z.sgn v * 255 /\
              (0 <? v) = (0 <=? clamp255 v)).
  { destruct (Z.ltb_spec 0 v).
    - rewrite clamp255_high by lia. split; [lia | reflexivity].
    - rewrite clamp255_low by lia. split; [lia | reflexivity]. }
  destruct C as [C B]. rewrite B.
  split.
  - eapply runs_eq; [apply motor_drive_set_velocity_eq |].
    cbv zeta. cbn [velocity OCR1A OCR1B set_OCR1A set_OCR1B set_uart_tx
                   set_velocity].
    split; [exact C |].
    destruct (Z.ltb_spec 0 v).
    + rewrite clamp255_high by lia. split; reflexivity.
    + rewrite clamp255_low by lia. split; reflexivity.
  - eapply runs_eq; [apply motor_steer_set_velocity_eq |].
    cbv zeta. cbn [steerposition OCR0A OCR0B set_OCR0A set_OCR0B
                   set_uart_tx set_steerposition].
    split; [exact C |].
    destruct (Z.ltb_spec 0 v).
    + rewrite clamp255_high by lia. split; reflexivity.
    + rewrite clamp255_low by lia. split; reflexivity.
Qed.

Lemma out_of_range_velocity_is_clamped_witness :
  255 < Z.abs (-300) /\
  runs (motor_drive_set_velocity (-300)) blank (fun _ s' =>
    velocity s' = -255 /\ OCR1B s' = 0 /\ OCR1A s' = 254).
Proof.
  split; [simpl; lia |].
  exact (proj1 (out_of_range_velocity_is_clamped (-300) blank
                  ltac:(simpl; lia))).
Defined.

Lemma duty_closed_form c :
  -255 <= c <= 255 ->
  (if 0 <=? c then u16 (Z.land c 0xff) else 0)
  = (if 0 <=? c then c else 0) /\
  (if 0 <=? c then 0 else u16 (0xff - Z.land c 0xff))
  = (if 0 <=? c then 0 else - c - 1) /\
  (if 0 <=? c then u8 (Z.land c 0xff) else 0)
  = (if 0 <=? c then c else 0) /\
  (if 0 <=? c then 0 else u8 (0xff - Z.land c 0xff))
  = (if 0 <=? c then 0 else - c - 1).
Proof.
  intros H. destruct (Z.leb_spec 0 c).
  - rewrite land_0xff_nonneg by lia. unfold u16, u8.
    rewrite !Z.mod_small by lia. auto.
  - rewrite land_0xff_neg by lia. unfold u16, u8.
    rewrite !Z.mod_small by lia. repeat split; lia.
Qed.

Lemma motor_drive_set_velocity_follows v s :
  runs (motor_drive_set_velocity v) s (fun _ s' =>
    velocity s' = clamp255 v /\ drive_follows s' /\
    (steerposition s', OCR0A s', OCR0B s')
    = (steerposition s, OCR0A s, OCR0B s)).
Proof.
  eapply runs_eq; [apply motor_drive_set_velocity_eq |].
  pose proof (clamp255_range v) as R.
  destruct (duty_closed_form (clamp255 v) R) as (E1 & E2 & _ & _).
  cbv zeta. unfold drive_follows.
  cbn [velocity OCR1A OCR1B steerposition OCR0A OCR0B
       set_OCR1A set_OCR1B set_uart_tx set_velocity].
  rewrite E1, E2. repeat split; lia.
Qed.

Lemma motor_steer_set_velocity_follows v s :
  runs (motor_steer_set_velocity v) s (fun _ s' =>
    steerposition s' = clamp255 v /\ steer_follows s' /\
    (velocity s', OCR1A s', OCR1B s')
    = (velocity s, OCR1A s, OCR1B s)).
Proof.
  eapply runs_eq; [apply motor_steer_set_velocity_eq |].
  pose proof (clamp255_range v) as R.
  destruct (duty_closed_form (clamp255 v) R) as (_ & _ & E1 & E2).
  cbv zeta. unfold steer_follows.
  cbn [steerposition OCR0A OCR0B velocity OCR1A OCR1B
       set_OCR0A set_OCR0B set_uart_tx set_steerposition].
  rewrite E1, E2. repeat split; lia.
Qed.

(** X6: whatever velocity is asked for (in range or not), after
    [motor_drive_set_velocity] the stored velocity is in [-255, 255], the
    forward duty is in 0..255 and the reverse duty in 0..254, and at most
    one of the two is non-zero; the same holds of the steer axis after
    [motor_steer_set_velocity]. *)
Theorem duty_pairs_always_exclusive v s :
  runs (motor_drive_set_velocity v) s (fun _ s' =>
    -255 <= velocity s' <= 255 /\
    0 <= OCR1B s' <= 255 /\ 0 <= OCR1A s' <= 254 /\
    (OCR1A s' = 0 \/ OCR1B s' = 0)) /\
  runs (motor_steer_set_velocity v) s (fun _ s' =>
    -255 <= steerposition s' <= 255 /\
    0 <= OCR0A s' <= 255 /\ 0 <= OCR0B s' <= 254 /\
    (OCR0A s' = 0 \/ OCR0B s' = 0)).
Proof.
  split.
  - eapply runs_weaken; [apply motor_drive_set_velocity_follows |].
    intros ? s' (_ & (R & EB & EA) & _). cbv beta.
    rewrite EA, EB. destruct (0 <=? velocity s') eqn:E;
      [apply Z.leb_le in E | apply Z.leb_gt in E]; lia.
  - eapply runs_weaken; [apply motor_steer_set_velocity_follows |].
    intros ? s' (_ & (R & EA & EB) & _). cbv beta.
    rewrite EA, EB. destruct (0 <=? steerposition s') eqn:E;
      [apply Z.leb_le in E | apply Z.leb_gt in E]; lia.
Qed.

(** X7: applying [motor_drive_set_velocity] (or [motor_steer_set_velocity])
    a second time with the same velocity changes nothing but the line,
    on which the echo is repeated: velocities and duty pairs are as after
    the first application. *)
Theorem set_velocity_idempotent v s :
  runs (motor_drive_set_velocity v) s (fun _ s1 =>
    runs (motor_drive_set_velocity v) s1 (fun _ s2 =>
      set_uart_tx (uart_tx s1) s2 = s1 /\ motion s2 = motion s1)) /\
  runs (motor_steer_set_velocity v) s (fun _ s1 =>
    runs (motor_steer_set_velocity v) s1 (fun _ s2 =>
      set_uart_tx (uart_tx s1) s2 = s1 /\ motion s2 = motion s1)).
Proof.
  split.
  - eapply runs_eq; [apply motor_drive_set_velocity_eq |].
    eapply runs_eq; [apply motor_drive_set_velocity_eq |].
    destruct s. board_simpl. split; reflexivity.
  - eapply runs_eq; [apply motor_steer_set_velocity_eq |].
    eapply runs_eq; [apply motor_steer_set_velocity_eq |].
    destruct s. board_simpl. split; reflexivity.
Qed.

(** X8: the two axes are independent.  Setting the drive velocity and the
    steer velocity in either order lands on the same board, up to the
    order of the two echoed lines: same velocities, same four duty
    outputs, everything else untouched. *)
Theorem drive_and_steer_commute v w s :
  exists s1 s2,
    (motor_drive_set_velocity v ;; motor_steer_set_velocity w) s
    = Some (tt, s1) /\
    (motor_steer_set_velocity w ;; motor_drive_set_velocity v) s
    = Some (tt, s2) /\
    set_uart_tx (uart_tx s) s1 = set_uart_tx (uart_tx s) s2 /\
    set_uart_tx (uart_tx s) s1
    = set_OCR1B (OCR1B s1) (set_OCR1A (OCR1A s1) (set_velocity (velocity s1)
        (set_OCR0B (OCR0B s1) (set_OCR0A (OCR0A s1)
           (set_steerposition (steerposition s1) s))))).
Proof.
  eexists _, _. split; [| split].
  - rewrite (bind_eq _ _ _ tt _ (motor_drive_set_velocity_eq _ _)).
    apply motor_steer_set_velocity_eq.
  - rewrite (bind_eq _ _ _ tt _ (motor_steer_set_velocity_eq _ _)).
    apply motor_drive_set_velocity_eq.
  - destruct s. board_simpl. split; reflexivity.
Qed.

(** ** Invariants of the control loop *)

Lemma outputs_follow_motion s s' :
  motion s' = motion s -> outputs_follow s -> outputs_follow s'.
Proof.
  unfold motion, outputs_follow, drive_follows, steer_follows.
  intros E. injection E as -> -> -> -> -> ->. auto.
Qed.

Lemma at_rest_follows s : at_rest s -> outputs_follow s.
Proof.
  unfold at_rest, motion, outputs_follow, drive_follows, steer_follows.
  intros E. injection E as -> -> -> -> -> ->.
  cbn. repeat split; lia.
Qed.

Lemma steer_then_drive_follows a b s :
  runs (motor_steer_set_velocity a ;; motor_drive_set_velocity b) s
    (fun _ s' => outputs_follow s').
Proof.
  apply runs_bind.
  eapply runs_weaken; [apply motor_steer_set_velocity_follows |].
  intros ? s1 (_ & (R & EA & EB) & _). cbv beta.
  eapply runs_weaken; [apply motor_drive_set_velocity_follows |].
  intros ? s2 (_ & D & K). cbv beta.
  injection K as K1 K2 K3.
  split; [exact D |]. unfold steer_follows. rewrite K1, K2, K3. auto.
Qed.

Lemma handle_char_compat_dagu_follows command s :
  outputs_follow s ->
  runs (handle_char_compat_dagu command) s (fun _ s' => outputs_follow s').
Proof.
  intros I. unfold handle_char_compat_dagu. cbv zeta.
  repeat match goal with
         | |- runs (match ?d with _ => _ end) _ _ => destruct d
         end;
    match goal with
    | |- runs (ret _) _ _ => apply runs_ret; exact I
    | |- runs (bind _ _) _ _ => apply steer_then_drive_follows
    end.
Qed.

Lemma main_command_follows s :
  outputs_follow s -> runs main_command s (fun _ s' => outputs_follow s').
Proof.
  intros I. unfold main_command. run_step.
  destruct (uart_rx s) as [| c rest] eqn:E.
  - apply runs_ret. exact I.
  - unfold when. change (_BV 7 =? 0) with false. cbv iota.
    run_step.
    apply runs_bind. eapply runs_eq.
    { unfold uart_getch. cbn [uart_rx set_PORTC]. rewrite E. reflexivity. }
    cbv beta. run_step.
    apply handle_char_compat_dagu_follows.
    eapply outputs_follow_motion; [| exact I]. reflexivity.
Qed.

Lemma main_link_check_follows s :
  outputs_follow s ->
  runs main_link_check s (fun _ s' => outputs_follow s').
Proof.
  intros I. unfold main_link_check, bluetooth_connected. run_step.
  destruct (negb (u8 (Z.land (PIND s) (_BV 4)) =? 0)).
  - apply runs_ret. exact I.
  - eapply runs_weaken; [apply stop_both |].
    intros ? s' R. apply at_rest_follows, R.
Qed.

Lemma tick_outputs_follow s : outputs_follow s -> outputs_follow (tick s).
Proof.
  intros I.
  apply (runs_inv main_loop_body s tt (tick s)
           (fun _ s' => outputs_follow s'));
    [| apply main_loop_body_tick].
  unfold main_loop_body, main_before_batt_check.
  apply runs_bind.
  frame_over motion as s1 H1.
  apply runs_bind.
  eapply runs_weaken;
    [apply main_link_check_follows;
       exact (outputs_follow_motion _ _ H1 I) |].
  intros ? s2 I2. cbv beta.
  apply runs_bind.
  eapply runs_weaken; [apply main_command_follows, I2 |].
  intros ? s3 I3. cbv beta.
  frame_over motion as s4 H4.
  apply (runs_keeps motion); [auto with frame |].
  intros ? s5 H5. cbv beta.
  apply runs_bind.
  eapply runs_weaken; [apply main_batt_check_motion |].
  intros ? s6 H6. cbv beta.
  apply (runs_keeps motion); [auto with frame |].
  intros ? s7 H7.
  apply (outputs_follow_motion s6); [exact H7 |].
  destruct H6 as [H6 | H6]; [| apply at_rest_follows, H6].
  apply (outputs_follow_motion s3); [congruence | exact I3].
Qed.

(** X9: if the duty outputs agree with the stored velocities when the
    loop is entered (as they do at loop entry), they agree after every
    iteration, whatever the inputs: both velocities stay in [-255, 255],
    each duty pair is the image of its velocity, and in each pair at most
    one channel is non-zero. *)
Theorem loop_keeps_outputs_in_step es s :
  outputs_follow s ->
  outputs_follow (run es s) /\
  (OCR1A (run es s) = 0 \/ OCR1B (run es s) = 0) /\
  (OCR0A (run es s) = 0 \/ OCR0B (run es s) = 0).
Proof.
  intros I.
  assert (R : outputs_follow (run es s)).
  { revert s I. induction es as [| e es IH]; intros s I; [exact I |].
    cbn [run]. apply IH, tick_outputs_follow.
    eapply outputs_follow_motion; [| exact I]. reflexivity. }
  split; [exact R |].
  destruct R as ((_ & EB & EA) & (_ & E0A & E0B)).
  rewrite EA, EB, E0A, E0B.
  split.
  - destruct (0 <=? velocity (run es s)); auto.
  - destruct (0 <=? steerposition (run es s)); auto.
Qed.

Lemma loop_keeps_outputs_in_step_witness :
  outputs_follow (loop_entry (_BV 4) (fun _ => 190) []) /\
  outputs_follow
    (run [mkStimulus (_BV 4) [0x7F] (fun _ => 190); idle]
       (loop_entry (_BV 4) (fun _ => 190) [])).
Proof.
  assert (I : outputs_follow (loop_entry (_BV 4) (fun _ => 190) []))
    by (apply at_rest_follows; reflexivity).
  split; [exact I |].
  exact (proj1 (loop_keeps_outputs_in_step
                  [mkStimulus (_BV 4) [0x7F] (fun _ => 190); idle]
                  (loop_entry (_BV 4) (fun _ => 190) []) I)).
Defined.

(** ** Busy-waiting *)

Lemma busy_ret {A : Type} (a : A) : busy (ret a) 0.
Proof. intros s. apply runs_ret. lia. Qed.

Lemma busy_bind {A B : Type} (m : M A) (k : A -> M B) j1 j2 :
  busy m j1 -> (forall a, busy (k a) j2) -> busy (bind m k) (j1 + j2).
Proof.
  intros Hm Hk s. apply runs_bind.
  eapply runs_weaken; [apply Hm |]. intros a s1 E1. cbv beta.
  eapply runs_weaken; [apply Hk |]. intros b s2 E2. cbv beta in *. lia.
Qed.

Lemma busy_keeps {A : Type} (m : M A) : keeps nops m -> busy m 0.
Proof.
  intros K s. eapply runs_weaken; [apply K |].
  intros a s' E. cbv beta in E. lia.
Qed.

Lemma busy_eq {A : Type} (m : M A) j1 j2 : j1 = j2 -> busy m j1 -> busy m j2.
Proof. intros ->. auto. Qed.

Lemma busy_times n body j :
  busy body j -> busy (times n body) (Z.of_nat n * j).
Proof.
  intros Hb. induction n as [| n IH]; cbn [times].
  - apply (busy_eq _ 0); [lia | apply busy_ret].
  - apply (busy_eq _ (j + Z.of_nat n * j)); [lia |].
    apply busy_bind; auto.
Qed.

Lemma busy_times_with {A : Type} n (body : A -> M A) (a : A) j :
  (forall x, busy (body x) j) ->
  busy (times_with n body a) (Z.of_nat n * j).
Proof.
  intros Hb. revert a. induction n as [| n IH]; intros a; cbn [times_with].
  - apply (busy_eq _ 0); [lia | apply busy_ret].
  - apply (busy_eq _ (j + Z.of_nat n * j)); [lia |].
    apply busy_bind; auto.
Qed.

Lemma busy_nop : busy nop 1.
Proof. intros s. eexists _, _. split; reflexivity. Qed.

Lemma busy_delay p : busy (delay p) (u8 p).
Proof.
  unfold delay.
  apply (busy_eq _ (Z.of_nat (Z.to_nat (u8 p)) * 1));
    [pose proof (Z.mod_pos_bound p 256); unfold u8; lia |].
  apply busy_times, busy_nop.
Qed.

(** delaying 10 == 1ms: a unit of [delay_100us] is 133 nops. *)
Lemma busy_delay_100us p : busy (delay_100us p) (133 * u8 p).
Proof.
  unfold delay_100us.
  apply (busy_eq _ (Z.of_nat (Z.to_nat (u8 p)) * 133));
    [pose proof (Z.mod_pos_bound p 256); unfold u8; lia |].
  apply busy_times. exact (busy_delay 133).
Qed.

(** delaying 100 == 1s: a unit of [delay_10ms] is 13300 nops. *)
Lemma busy_delay_10ms h : busy (delay_10ms h) (13300 * u8 h).
Proof.
  unfold delay_10ms.
  apply (busy_eq _ (Z.of_nat (Z.to_nat (u8 h)) * 13300));
    [pose proof (Z.mod_pos_bound h 256); unfold u8; lia |].
  apply busy_times. exact (busy_delay_100us 100).
Qed.

Lemma busy_batt_low_step threshold warn :
  busy (batt_low_step threshold warn) 1330.
Proof.
  unfold batt_low_step.
  apply (busy_eq _ (1330 + 0)); [lia |].
  apply busy_bind; [exact (busy_delay_100us 10) |].
  intros _. apply busy_keeps. auto 20 with frame.
Qed.

Lemma busy_batt_low_consistently threshold :
  busy (batt_low_consistently threshold) 26600.
Proof.
  unfold batt_low_consistently. cbv zeta.
  apply (busy_eq _ (0 + (26600 + 0))); [lia |].
  apply busy_bind; [apply busy_keeps; auto with frame |].
  intros _. apply busy_bind.
  - apply (busy_eq _ (Z.of_nat 20 * 1330)); [lia |].
    apply busy_times_with. intros x. apply busy_batt_low_step.
  - intros w. apply busy_keeps. auto with frame.
Qed.

Lemma main_batt_check_busy s :
  runs main_batt_check s (fun _ s' =>
    nops s' = nops s
              + (if battlevel s <? battlowthreshold then 26600 else 0)).
Proof.
  unfold main_batt_check. run_step. unfold when at 1.
  destruct (battlevel s <? battlowthreshold).
  - change (c_bool true =? 0) with false. cbv iota.
    assert (B : busy
      (main_batt_report ;;
       low <- batt_low_consistently battlowthreshold ;;
       when low
         ((t <- read battwarntogglestate ;;
           if negb (t =? 0) then led3on else led3off) ;;
          motor_drive_set_velocity 0 ;;
          motor_steer_set_velocity 0)) 26600).
    { apply (busy_eq _ (0 + (26600 + 0))); [lia |].
      apply busy_bind; [apply busy_keeps; auto with frame |].
      intros _. apply busy_bind; [apply busy_batt_low_consistently |].
      intros low. apply busy_keeps.
      unfold led3on, led3off. auto 20 with frame. }
    apply B.
  - change (c_bool false =? 0) with true. cbv iota.
    apply runs_ret. lia.
Qed.

Lemma main_before_batt_check_lands s :
  main_before_batt_check s
  = Some (tt, landing main_before_batt_check s).
Proof.
  assert (K : keeps (fun _ : Board => tt) main_before_batt_check)
    by (unfold main_before_batt_check; auto 20 with frame).
  destruct (K s) as ([] & s' & E & _).
  unfold landing. rewrite E. reflexivity.
Qed.

Lemma tick_busy s :
  nops (tick s)
  = nops s + 5320
    + (if battlevel (landing main_before_batt_check s) <? battlowthreshold
       then 26600 else 0).
Proof.
  apply (runs_inv main_loop_body s tt (tick s) (fun _ s' =>
    nops s' = nops s + 5320
      + (if battlevel (landing main_before_batt_check s)
            <? battlowthreshold then 26600 else 0)));
    [| apply main_loop_body_tick].
  unfold main_loop_body.
  apply runs_bind.
  eapply runs_weaken.
  { apply (runs_kept nops main_before_batt_check s
             (fun _ s1 => s1 = landing main_before_batt_check s)).
    - unfold main_before_batt_check. auto 20 with frame.
    - eapply runs_eq; [apply main_before_batt_check_lands | reflexivity]. }
  intros ? s1 (E1 & N1). cbv beta. subst s1.
  apply runs_bind.
  eapply runs_weaken; [apply main_batt_check_busy |].
  intros ? s2 E2. cbv beta.
  eapply runs_weaken; [apply (busy_delay_100us mainloopdelay) |].
  intros ? s3 E3. cbv beta in E3.
  change (133 * u8 mainloopdelay) with 5320 in E3.
  cbv beta in N1, E2. rewrite E3, E2, N1. ring.
Qed.

(** X10: one iteration of the loop busy-waits for 5320 nops (the 4 ms
    closing delay) when the battery level is at or above the threshold at
    the battery test, and for 31920 nops when it is below: the sustained
    check adds 20 delays of 1 ms, whatever it returns. *)
Theorem tick_busy_wait s :
  nops (tick s)
  = nops s + 5320
    + (if battlevel (landing main_before_batt_check s) <? battlowthreshold
       then 26600 else 0).
Proof. exact (tick_busy s). Qed.

Lemma tick_wdt_resets s : wdt_resets (tick s) = wdt_resets s + 1.
Proof.
  apply (runs_inv main_loop_body s tt (tick s)
           (fun _ s' => wdt_resets s' = wdt_resets s + 1));
    [| apply main_loop_body_tick].
  unfold main_loop_body, main_before_batt_check.
  apply runs_bind. run_step.
  frame_over wdt_resets as s2 H2.
  frame_over wdt_resets as s3 H3.
  frame_over wdt_resets as s4 H4.
  apply (runs_keeps wdt_resets); [auto with frame |].
  intros ? s5 H5. cbv beta.
  frame_over wdt_resets as s6 H6.
  apply (runs_keeps wdt_resets); [auto with frame |].
  intros ? s7 H7.
  rewrite H7, H6, H5, H4, H3, H2. reflexivity.
Qed.

Lemma tick_busy_bounds s :
  nops s + 5320 <= nops (tick s) <= nops s + 31920.
Proof.
  rewrite tick_busy.
  destruct (battlevel (landing main_before_batt_check s)
              <? battlowthreshold); lia.
Qed.

(** X11: every iteration of the loop, whichever branches it takes,
    refreshes the watchdog exactly once, and busy-waits between 5320 and
    31920 nops: after any run the watchdog has been refreshed once per
    iteration and at most 31920 nops lie between two refreshes. *)
Theorem watchdog_refreshed_every_iteration es s :
  wdt_resets (run es s) = wdt_resets s + Z.of_nat (length es) /\
  nops s + 5320 * Z.of_nat (length es) <= nops (run es s)
    <= nops s + 31920 * Z.of_nat (length es).
Proof.
  revert s. induction es as [| e es IH]; intros s.
  - cbn [run length]. lia.
  - cbn [run length]. destruct (IH (tick (arrive e s))) as [W N].
    rewrite W, tick_wdt_resets.
    pose proof (tick_busy_bounds (arrive e s)) as B.
    change (nops (arrive e s)) with (nops s) in B.
    change (wdt_resets (arrive e s)) with (wdt_resets s).
    lia.
Qed.

(** ** Command intake *)

Lemma main_command_takes_one s :
  runs main_command s (fun _ s' => uart_rx s' = tl (uart_rx s)).
Proof.
  unfold main_command. run_step.
  destruct (uart_rx s) as [| c rest] eqn:E.
  - apply runs_ret. rewrite E. reflexivity.
  - unfold when. change (_BV 7 =? 0) with false. cbv iota.
    run_step.
    apply runs_bind. eapply runs_eq.
    { unfold uart_getch. cbn [uart_rx set_PORTC]. rewrite E. reflexivity. }
    cbv beta. run_step.
    apply (runs_keeps uart_rx); [auto with frame |].
    intros ? s' Es. rewrite Es. reflexivity.
Qed.

Lemma tick_takes_one s : uart_rx (tick s) = tl (uart_rx s).
Proof.
  apply (runs_inv main_loop_body s tt (tick s)
           (fun _ s' => uart_rx s' = tl (uart_rx s)));
    [| apply main_loop_body_tick].
  unfold main_loop_body, main_before_batt_check.
  apply runs_bind.
  frame_over uart_rx as s1 H1.
  frame_over uart_rx as s2 H2.
  apply runs_bind.
  eapply runs_weaken; [apply main_command_takes_one |].
  intros ? s3 H3. cbv beta.
  frame_over uart_rx as s4 H4.
  apply (runs_keeps uart_rx); [auto with frame |].
  intros ? s5 H5. cbv beta.
  frame_over uart_rx as s6 H6.
  apply (runs_keeps uart_rx); [auto with frame |].
  intros ? s7 H7.
  rewrite H7, H6, H5, H4, H3, H2, H1. reflexivity.
Qed.

(** X12: an iteration of the loop takes exactly one byte from the
    receiver when one is waiting and none otherwise, so with nothing
    arriving a backlog of received bytes is worked off one byte per
    iteration, in order. *)
Theorem loop_takes_one_byte_per_iteration s :
  uart_rx (tick s) = tl (uart_rx s) /\
  forall n, uart_rx (Nat.iter n tick s) = skipn n (uart_rx s).
Proof.
  split; [apply tick_takes_one |].
  induction n as [| n IH].
  - reflexivity.
  - change (Nat.iter (S n) tick s) with (tick (Nat.iter n tick s)).
    rewrite tick_takes_one, IH.
    clear IH. generalize (uart_rx s). clear s.
    induction n as [| n IHn]; intros l.
    + destruct l; reflexivity.
    + destruct l as [| x l]; [reflexivity |]. cbn [skipn]. apply IHn.
Qed.

(** ** More on the battery monitor *)

Lemma low_readings_checked :
  forallb (fun r => Bool.eqb (batt_scale r <? battlowthreshold)
                      (existsb (Z.eqb r) low_readings))
    (map Z.of_nat (seq 0 256)) = true.
Proof. vm_compute. reflexivity. Qed.

(** X13: because the level wraps instead of being clamped, the raw
    readings that [batt_scale] maps below the low-battery threshold 10 are
    not only 142 and 143 but exactly the ten readings 40, 41, 91, 92, 142,
    143, 194, 195, 245, 246: a reading just above the band (194) counts as
    a low battery. *)
Theorem readings_seen_as_low raw :
  0 <= raw <= 255 ->
  (batt_scale raw < battlowthreshold <-> In raw low_readings).
Proof.
  intros H.
  pose proof (forall_byte _ low_readings_checked raw H) as E.
  cbv beta in E. apply Bool.eqb_prop in E.
  rewrite <- Z.ltb_lt, E, existsb_exists. split.
  - intros (x & Hin & Hx). apply Z.eqb_eq in Hx. subst x. exact Hin.
  - intros Hin. exists raw. split; [exact Hin | apply Z.eqb_refl].
Qed.

Lemma readings_seen_as_low_witness :
  0 <= 194 <= 255 /\ batt_scale 194 < battlowthreshold.
Proof.
  split; [lia |].
  apply (readings_seen_as_low 194); [lia |].
  simpl. tauto.
Defined.

Lemma batt_low_step_level threshold warn s :
  runs (batt_low_step threshold warn) s (fun _ s' =>
    ADCH s' = (fun k => ADCH s (S k)) /\
    battlevel s' = batt_scale (u8 (ADCH s O))).
Proof.
  unfold batt_low_step.
  frame_over (fun b => (ADCH b, battlevel b)) as s1 H1.
  injection H1 as Ha Hl.
  apply runs_bind. eapply runs_eq; [apply batt_sample_eq | cbv beta].
  run_step.
  cbn [battlevel set_battlevel].
  revert Ha. generalize (ADCH s1). intros adc ->.
  destruct (batt_scale (u8 (ADCH s O)) <? threshold).
  - frame_over (fun b => (ADCH b, battlevel b)) as s2 H2.
    frame_over (fun b => (ADCH b, battlevel b)) as s3 H3.
    apply runs_ret.
    assert (E : (ADCH s3, battlevel s3)
                = ((fun k => ADCH s (S k)), batt_scale (u8 (ADCH s O))))
      by (rewrite H3, H2; reflexivity).
    injection E as -> ->. split; reflexivity.
  - apply runs_ret. split; reflexivity.
Qed.

Lemma times_with_S {A : Type} n (body : A -> M A) (a : A) :
  times_with (S n) body a = (a' <- body a ;; times_with n body a').
Proof. reflexivity. Qed.

Lemma batt_low_loop_consumes threshold n : forall warn s,
  runs (times_with (S n) (batt_low_step threshold) warn) s (fun _ s' =>
    ADCH s' = (fun k => ADCH s (S n + k)%nat) /\
    battlevel s' = batt_scale (u8 (ADCH s n))).
Proof.
  induction n as [| n IH]; intros warn s.
  - cbn [times_with]. apply runs_bind.
    eapply runs_weaken; [apply batt_low_step_level |].
    intros w s1 (Ea & El). cbv beta. apply runs_ret. split; assumption.
  - rewrite times_with_S.
    apply runs_bind.
    eapply runs_weaken; [apply batt_low_step_level |].
    intros w s1 (Ea & El). cbv beta.
    eapply runs_weaken; [apply IH |].
    intros w' s2 (Ea2 & El2). cbv beta.
    revert Ea2 El2. rewrite Ea. intros -> ->. split; reflexivity.
Qed.

(** X14: a call of [batt_low_consistently] reads the ADC exactly 20
    times, leaves in [battlevel] the level of the last of those readings,
    busy-waits 26600 nops (20 ms) and does not touch the motors, whatever
    the threshold and the readings. *)
Theorem sustained_check_footprint threshold s :
  runs (batt_low_consistently threshold) s (fun _ s' =>
    ADCH s' = (fun k => ADCH s (20 + k)%nat) /\
    battlevel s' = batt_scale (u8 (ADCH s 19%nat)) /\
    nops s' = nops s + 26600 /\
    motion s' = motion s).
Proof.
  assert (R : runs (batt_low_consistently threshold) s (fun _ s' =>
    ADCH s' = (fun k => ADCH s (20 + k)%nat) /\
    battlevel s' = batt_scale (u8 (ADCH s 19%nat)))).
  { unfold batt_low_consistently. cbv zeta.
    frame_over (fun b => (ADCH b, battlevel b)) as s1 H1.
    injection H1 as Ha Hl.
    apply runs_bind.
    eapply runs_weaken; [apply (batt_low_loop_consumes threshold 19) |].
    intros w s2 (Ea & El). cbv beta.
    frame_over (fun b => (ADCH b, battlevel b)) as s3 H3.
    apply runs_ret.
    injection H3 as H3a H3l. rewrite H3a, H3l, Ea, El.
    revert Ha. generalize (ADCH s1). intros adc ->.
    split; reflexivity. }
  eapply runs_weaken.
  - apply runs_and; [exact R |].
    apply runs_and; [apply busy_batt_low_consistently |].
    apply (keeps_batt_low_consistently motion); auto with frame.
  - intros ? s' ((Ea & El) & N & Mo). cbv beta in *. auto.
Qed.

(** ** The direct decoder *)

Lemma handle_char_default command :
  ~ In command direct_commands ->
  handle_char command = uart_send (String "?" (String LF "")).
Proof.
  intros H. unfold handle_char.
  destruct command as [| p | p]; cbv beta iota; [reflexivity | | reflexivity].
  repeat match goal with
         | |- match ?q with _ => _ end = _ => destruct q; cbv beta iota
         end;
    try reflexivity;
    exfalso; apply H; unfold direct_commands; cbn [map In];
    repeat first [left; reflexivity | right].
Qed.

(** X15: a byte that is not one of the eighteen commands of the direct
    protocol makes [handle_char] answer "?" and a newline and do nothing
    else: velocities, duty outputs, battery level, eeprom and leds are as
    before. *)
Theorem handle_char_rejects_unknown command s :
  ~ In command direct_commands ->
  handle_char command s
  = Some (tt, set_uart_tx (uart_tx s ++ [ch "?"; ch LF]) s).
Proof.
  intros H. rewrite (handle_char_default command H).
  unfold uart_send. rewrite uart_send_bytes_eq. reflexivity.
Qed.

Lemma handle_char_rejects_unknown_witness :
  ~ In (ch "x") direct_commands /\
  handle_char (ch "x") blank = Some (tt, set_uart_tx [63; 10] blank).
Proof.
  assert (N : ~ In (ch "x") direct_commands)
    by (unfold direct_commands; cbn [map In];
        intros H; repeat destruct H as [H | H]; try discriminate H;
        exact H).
  split; [exact N |].
  exact (handle_char_rejects_unknown (ch "x") blank N).
Defined.

(** ** Leds and the age display *)

Lemma setb_other_bits p pin :
  In pin [2; 3; 4; 5] -> other_bits (setb p pin) = other_bits p.
Proof.
  intros H. unfold other_bits, setb. rewrite Z.land_lor_distr_l.
  replace (Z.land (Z.shiftl 1 pin) 0xc3) with 0;
    [apply Z.lor_0_r |].
  cbn [In] in H. intuition (subst; reflexivity).
Qed.

Lemma clrb_other_bits p pin :
  In pin [2; 3; 4; 5] -> other_bits (clrb p pin) = other_bits p.
Proof.
  intros H. unfold other_bits, clrb. rewrite <- Z.land_assoc.
  f_equal. cbn [In] in H. intuition (subst; reflexivity).
Qed.

Lemma all_leds_off p :
  clrb (clrb (clrb (clrb p led1_pin) led2_pin) led3_pin) led4_pin
  = other_bits p.
Proof.
  unfold clrb, other_bits. rewrite <- !Z.land_assoc. reflexivity.
Qed.

Lemma keeps_led_on_rest pin :
  In pin [2; 3; 4; 5] -> keeps port_rest (led_on pin).
Proof.
  intros H s. eexists _, _. split; [reflexivity |].
  unfold port_rest. cbn [PORTC set_PORTC]. apply setb_other_bits, H.
Qed.

Lemma keeps_led_off_rest pin :
  In pin [2; 3; 4; 5] -> keeps port_rest (led_off pin).
Proof.
  intros H s. eexists _, _. split; [reflexivity |].
  unfold port_rest. cbn [PORTC set_PORTC]. apply clrb_other_bits, H.
Qed.

Lemma keeps_led1on_rest : keeps port_rest led1on.
Proof. apply keeps_led_on_rest. cbn. tauto. Qed.
Lemma keeps_led2on_rest : keeps port_rest led2on.
Proof. apply keeps_led_on_rest. cbn. tauto. Qed.
Lemma keeps_led3on_rest : keeps port_rest led3on.
Proof. apply keeps_led_on_rest. cbn. tauto. Qed.
Lemma keeps_led4on_rest : keeps port_rest led4on.
Proof. apply keeps_led_on_rest. cbn. tauto. Qed.
Lemma keeps_led1off_rest : keeps port_rest led1off.
Proof. apply keeps_led_off_rest. cbn. tauto. Qed.
Lemma keeps_led2off_rest : keeps port_rest led2off.
Proof. apply keeps_led_off_rest. cbn. tauto. Qed.
Lemma keeps_led3off_rest : keeps port_rest led3off.
Proof. apply keeps_led_off_rest. cbn. tauto. Qed.
Lemma keeps_led4off_rest : keeps port_rest led4off.
Proof. apply keeps_led_off_rest. cbn. tauto. Qed.

Create HintDb leds discriminated.
#[export] Hint Resolve keeps_led1on_rest keeps_led2on_rest
  keeps_led3on_rest keeps_led4on_rest keeps_led1off_rest
  keeps_led2off_rest keeps_led3off_rest keeps_led4off_rest : leds.

Lemma times_invariant (I : Board -> Prop) n body :
  (forall s, I s -> runs body s (fun _ s' => I s')) ->
  forall s, I s -> runs (times n body) s (fun _ s' => I s').
Proof.
  intros Hb. induction n as [| n IH]; intros s Hs; cbn [times].
  - apply runs_ret, Hs.
  - apply runs_bind. eapply runs_weaken; [apply Hb, Hs |].
    intros ? s1 H1. apply IH, H1.
Qed.

Lemma clrb_setb_led1 p :
  clrb (setb (clrb p led1_pin) led1_pin) led1_pin = clrb p led1_pin.
Proof.
  unfold clrb, setb. rewrite Z.land_lor_distr_l, <- Z.land_assoc.
  change (Z.land (Z.shiftl 1 led1_pin)
            (u8 (Z.lnot (Z.shiftl 1 led1_pin)))) with 0.
  rewrite Z.lor_0_r. f_equal.
Qed.

Lemma flash_led1_port count rate s :
  runs (flash_led1 count rate) s (fun _ s' =>
    PORTC s' = clrb (PORTC s) led1_pin).
Proof.
  unfold flash_led1. cbv zeta. run_step.
  frame_over PORTC as s1 H1. cbn [PORTC set_PORTC] in H1.
  apply (times_invariant (fun b => PORTC b = clrb (PORTC s) led1_pin));
    [| exact H1].
  intros b Hb. run_step.
  frame_over PORTC as b1 Hb1. run_step.
  apply (runs_keeps PORTC); [auto with frame |].
  intros ? b2 Hb2. rewrite Hb2. cbn [PORTC set_PORTC]. rewrite Hb1.
  cbn [PORTC set_PORTC]. rewrite Hb. apply clrb_setb_led1.
Qed.

Lemma busy_flash_led1 count rate :
  busy (flash_led1 count rate)
    (13300 * (10 + 2 * flash_half_period rate * u8 count)).
Proof.
  unfold flash_led1. cbv zeta.
  set (d := if rate =? 2 then 2 else if rate =? 1 then 5 else 10).
  assert (Hd : u8 d = flash_half_period rate)
    by (unfold flash_half_period; subst d;
        destruct (rate =? 2); [reflexivity |];
        destruct (rate =? 1); reflexivity).
  apply (busy_eq _ (0 + (13300 * u8 10
           + Z.of_nat (Z.to_nat (u8 count))
             * (0 + (13300 * u8 d + (0 + 13300 * u8 d)))))).
  { rewrite Hd. change (u8 10) with 10.
    rewrite Z2Nat.id
      by (pose proof (Z.mod_pos_bound count 256); unfold u8; lia).
    ring. }
  apply busy_bind; [apply busy_keeps; unfold led1off; auto with frame |].
  intros _. apply busy_bind; [apply busy_delay_10ms |].
  intros _. apply busy_times.
  apply busy_bind; [apply busy_keeps; unfold led1on; auto with frame |].
  intros _. apply busy_bind; [apply busy_delay_10ms |].
  intros _. apply busy_bind;
    [apply busy_keeps; unfold led1off; auto with frame |].
  intros _. apply busy_delay_10ms.
Qed.

Lemma keeps_flash_led1 {X : Type} (obs : Board -> X) count rate :
  ignores obs set_PORTC -> ignores obs set_nops ->
  keeps obs (flash_led1 count rate).
Proof.
  intros H1 H2. unfold flash_led1, led1on, led1off. auto 20 with frame.
Qed.

Lemma keeps_flash_led1_rest count rate :
  keeps port_rest (flash_led1 count rate).
Proof. unfold flash_led1. auto 20 with frame leds. Qed.

#[export] Hint Resolve keeps_flash_led1 keeps_flash_led1_rest : leds.

(** X16: [flash_led1 count rate] ends with led1 off and the other bits of
    the led port as they were, busy-waits 10 + 2 * d * count hundredths of
    a second (13300 nops each), where the half-period d is 5 for rate 1, 2
    for rate 2 and 10 for any other rate, and touches nothing else. *)
Theorem flash_led1_footprint count rate s :
  runs (flash_led1 count rate) s (fun _ s' =>
    PORTC s' = Z.land (PORTC s) 0xdf /\
    nops s' = nops s
              + 13300 * (10 + 2 * flash_half_period rate * u8 count) /\
    but_leds_and_time s' = but_leds_and_time s).
Proof.
  eapply runs_weaken.
  - apply runs_and; [apply flash_led1_port |].
    apply runs_and; [apply busy_flash_led1 |].
    apply (keeps_flash_led1 but_leds_and_time); auto with frame.
  - intros ? s' (P & N & R). cbv beta in *. auto.
Qed.

Lemma keeps_led_on_under mask pin :
  Z.land (Z.shiftl 1 pin) mask = 0 -> keeps (port_under mask) (led_on pin).
Proof.
  intros H s. eexists _, _. split; [reflexivity |].
  unfold port_under, setb. cbn [PORTC set_PORTC].
  rewrite Z.land_lor_distr_l, H. apply Z.lor_0_r.
Qed.

Lemma keeps_led_off_under mask pin :
  Z.land (u8 (Z.lnot (Z.shiftl 1 pin))) mask = mask ->
  keeps (port_under mask) (led_off pin).
Proof.
  intros H s. eexists _, _. split; [reflexivity |].
  unfold port_under, clrb. cbn [PORTC set_PORTC].
  rewrite <- Z.land_assoc, H. reflexivity.
Qed.

(** Frames of the led and delay steps, chosen by the shape of the step. *)
Ltac led_keeps :=
  lazymatch goal with
  | |- keeps (port_under _) (led_on _) =>
      apply keeps_led_on_under; reflexivity
  | |- keeps (port_under _) (led_off _) =>
      apply keeps_led_off_under; reflexivity
  | |- keeps _ (times _ _) => apply keeps_times; led_keeps
  | |- keeps port_rest (flash_led1 _ _) => apply keeps_flash_led1_rest
  | |- keeps _ (flash_led1 _ _) =>
      apply keeps_flash_led1; auto with frame
  | |- keeps _ (delay_10ms _) => apply keeps_delay_10ms; auto with frame
  | |- keeps _ (read _) => apply keeps_read
  | |- keeps _ (write _ _) => apply keeps_write; auto with frame
  | |- keeps _ (when _ _) => apply keeps_when; led_keeps
  | |- keeps _ (bind _ _) =>
      apply keeps_bind; [led_keeps | intros ?; led_keeps]
  | |- keeps port_rest led1on => apply keeps_led1on_rest
  | |- keeps port_rest led2on => apply keeps_led2on_rest
  | |- keeps port_rest led3on => apply keeps_led3on_rest
  | |- keeps port_rest led4on => apply keeps_led4on_rest
  | |- keeps port_rest led1off => apply keeps_led1off_rest
  | |- keeps port_rest led2off => apply keeps_led2off_rest
  | |- keeps port_rest led3off => apply keeps_led3off_rest
  | |- keeps port_rest led4off => apply keeps_led4off_rest
  | |- keeps _ (led_on _) => apply keeps_led_on; auto with frame
  | |- keeps _ (led_off _) => apply keeps_led_off; auto with frame
  | |- keeps _ ?m => unfold m; led_keeps
  end.

Tactic Notation "led_frame_over" constr(obs) "as" ident(s) ident(H) :=
  apply (runs_frame obs); [solve [led_keeps] | intros ? s H].

Lemma check_magic_and_show_age_port s :
  runs check_magic_and_show_age s (fun _ s' =>
    PORTC s' = other_bits (PORTC s)).
Proof.
  unfold check_magic_and_show_age.
  led_frame_over port_rest as s1 H1.
  led_frame_over port_rest as s2 H2.
  led_frame_over port_rest as s3 H3.
  led_frame_over port_rest as s4 H4.
  led_frame_over port_rest as s5 H5.
  led_frame_over port_rest as s6 H6.
  led_frame_over port_rest as s7 H7.
  led_frame_over port_rest as s8 H8.
  led_frame_over port_rest as s9 H9.
  led_frame_over port_rest as s10 H10.
  led_frame_over port_rest as s11 H11.
  led_frame_over port_rest as s12 H12.
  led_frame_over port_rest as s13 H13.
  led_frame_over port_rest as s14 H14.
  run_step. run_step. run_step. run_step.
  apply (runs_keeps PORTC); [led_keeps |].
  intros ? s' E. rewrite E. cbn [PORTC set_PORTC].
  rewrite all_leds_off.
  fold (port_rest s14). fold (port_rest s). congruence.
Qed.

Lemma busy_to_runs {A : Type} (m : M A) j s (Q : A -> Board -> Prop) :
  busy m j ->
  (forall a s', nops s' = nops s + j -> Q a s') ->
  runs m s Q.
Proof. intros B H. eapply runs_weaken; [apply B | exact H]. Qed.

(** Add up the busy-waits of a sequence of steps. *)
Ltac busy_steps :=
  lazymatch goal with
  | |- busy (bind _ _) _ =>
      eapply busy_bind; [busy_steps | intros ?; busy_steps]
  | |- busy (times _ _) _ => eapply busy_times; busy_steps
  | |- busy (delay_10ms _) _ => apply busy_delay_10ms
  | |- busy (delay_100us _) _ => apply busy_delay_100us
  | |- busy (flash_led1 _ _) _ => apply busy_flash_led1
  | |- busy (ret _) _ => apply busy_ret
  | |- busy _ _ => apply busy_keeps; led_keeps
  end.

Lemma check_magic_and_show_age_busy s :
  runs check_magic_and_show_age s (fun _ s' =>
    nops s' = nops s
              + 13300 * (220 + (if ourmagic s =? OURMAGIC then 0 else 90))).
Proof.
  unfold check_magic_and_show_age.
  apply runs_bind.
  eapply runs_weaken;
    [apply (runs_kept ourmagic); [led_keeps |];
     apply (busy_flash_led1 4 1) |].
  intros ? s1 (N1 & M1). cbv beta.
  apply runs_bind.
  eapply runs_weaken;
    [apply (runs_kept ourmagic); [led_keeps |];
     apply (busy_delay_10ms 20) |].
  intros ? s2 (N2 & M2). cbv beta.
  run_step. rewrite M2, M1.
  apply runs_bind.
  apply (runs_weaken _ _ (fun _ s3 =>
    nops s3 = nops s2
              + 13300 * (if ourmagic s =? OURMAGIC then 0 else 90))).
  { unfold when. destruct (ourmagic s =? OURMAGIC).
    - change (c_bool (negb true) =? 0) with true. cbv iota.
      apply runs_ret. lia.
    - change (c_bool (negb false) =? 0) with false. cbv iota.
      apply (busy_flash_led1 20 2). }
  intros ? s3 N3. cbv beta.
  run_step.
  eapply busy_to_runs; [busy_steps |].
  intros ? s' N'. rewrite N', N3, N2, N1.
  change (flash_half_period 1) with 5.
  change (u8 4) with 4. change (u8 20) with 20.
  change (u8 100) with 100. change (u8 50) with 50. ring.
Qed.

Lemma check_magic_and_show_age_facts s :
  runs check_magic_and_show_age s (fun _ s' =>
    PORTC s' = other_bits (PORTC s) /\
    nops s' = nops s
              + 13300 * (220 + (if ourmagic s =? OURMAGIC then 0 else 90))
    /\
    but_leds_and_time s' = but_leds_and_time s).
Proof.
  eapply runs_weaken.
  - apply runs_and; [apply check_magic_and_show_age_port |].
    apply runs_and; [apply check_magic_and_show_age_busy |].
    assert (K : keeps but_leds_and_time check_magic_and_show_age)
      by led_keeps.
    apply K.
  - intros ? s' (P & N & R). cbv beta in *. auto.
Qed.

Lemma other_bits_twice p : other_bits (other_bits p) = other_bits p.
Proof.
  unfold other_bits. rewrite <- Z.land_assoc. reflexivity.
Qed.

(** X17: the diagnostic command 'A' of the direct protocol adds one to the
    age byte in eeprom, wrapping from 255 to 0, and leaves the magic byte
    alone.  It sends nothing and does not touch the motors or the battery
    level; it ends with the four leds off and the other bits of the led
    port unchanged, after busy-waiting 4.4 s, or 6.2 s when the magic byte
    is wrong (in units of 10 ms: 440, or 620). *)
Theorem age_command_footprint s :
  runs (handle_char (ch "A")) s (fun _ s' =>
    ourage s' = u8 (ourage s + 1) /\
    PORTC s' = other_bits (PORTC s) /\
    nops s' = nops s
              + 13300 * (440 + (if ourmagic s =? OURMAGIC then 0 else 180))
    /\
    set_ourage 0 (but_leds_and_time s')
    = set_ourage 0 (but_leds_and_time s)).
Proof.
  change (handle_char (ch "A"))
    with (check_magic_and_show_age ;; age_once ;;
          check_magic_and_show_age).
  apply runs_bind.
  eapply runs_weaken; [apply check_magic_and_show_age_facts |].
  intros ? s1 (P1 & N1 & R1). cbv beta.
  assert (A1 : ourage s1 = ourage s)
    by exact (f_equal ourage R1).
  assert (M1 : ourmagic s1 = ourmagic s)
    by exact (f_equal ourmagic R1).
  run_step.
  eapply runs_weaken; [apply check_magic_and_show_age_facts |].
  intros ? s3 (P3 & N3 & R3). cbv beta.
  cbn [PORTC nops ourmagic set_ourage] in P3, N3.
  split; [| split; [| split]].
  - transitivity (ourage (but_leds_and_time s3)); [reflexivity |].
    rewrite R3.
    cbn [ourage set_ourage but_leds_and_time set_PORTC set_nops].
    rewrite A1. reflexivity.
  - rewrite P3, P1. apply other_bits_twice.
  - rewrite N3, N1, M1.
    destruct (ourmagic s =? OURMAGIC); ring.
  - rewrite R3.
    change (set_ourage 0
              (but_leds_and_time (set_ourage (u8 (ourage s1 + 1)) s1)))
      with (set_ourage 0 (but_leds_and_time s1)).
    rewrite R1. reflexivity.
Qed.

Lemma u8_range x : 0 <= u8 x <= 255.
Proof. unfold u8. pose proof (Z.mod_pos_bound x 256). lia. Qed.

(** X18: the help command '?' of the direct protocol sends the two help
    lines and then "batt=", a numeral and a newline, where the numeral is
    the raw 8-bit reading of the ADC at that moment, not the normalized
    battery level; it takes one reading from the ADC and leaves the stored
    battery level, the motors and everything else as they were. *)
Theorem help_command_reports_raw_reading s :
  handle_char (ch "?") s
  = Some (tt,
      set_uart_tx
        (uart_tx s
         ++ cstr ("steering: RrslL" ++ String LF "gas: FfhbB"
                  ++ String LF "")
         ++ cstr "batt=" ++ sendint_text (u8 (ADCH s O)) ++ [ch LF])
        (set_ADCH (fun k => ADCH s (S k)) s)) /\
  canonical_numeral (sendint_text (u8 (ADCH s O))) = true /\
  parse_int (sendint_text (u8 (ADCH s O))) = u8 (ADCH s O).
Proof.
  split; [| apply sendint_text_short; pose proof (u8_range (ADCH s O)); lia].
  change (handle_char (ch "?"))
    with (uart_send ("steering: RrslL" ++ String LF "gas: FfhbB"
                     ++ String LF "") ;;
          uart_send "batt=" ;;
          (a <- read_ADCH ;; uart_sendint a) ;;
          uart_sendch (ch LF)).
  unfold uart_send.
  rewrite (bind_eq _ _ _ tt _ (uart_send_bytes_eq _ _)).
  rewrite (bind_eq _ _ _ tt _ (uart_send_bytes_eq _ _)).
  rewrite !map_u8_cstr.
  rewrite (bind_eq _ _ _ tt _
             (eq_trans (bind_eq read_ADCH _ _ _ _ eq_refl)
                       (uart_sendint_eq _ _))).
  rewrite uart_sendch_eq.
  destruct s. board_simpl. rewrite <- !app_assoc. reflexivity.
Qed.

(** ** The reply matcher *)

Lemma set_uart_rx_same s : set_uart_rx (uart_rx s) s = s.
Proof. destruct s. reflexivity. Qed.

Lemma uart_expect_loop_enough data : forall matches count s,
  0 <= matches -> matches + Z.of_nat (length data) <= 255 ->
  0 <= count -> count + Z.of_nat (length data) <= 255 ->
  (length data <= length (uart_rx s))%nat ->
  exists matches',
    uart_expect_loop data matches count s
    = Some ((matches', count + Z.of_nat (length data)),
            set_uart_rx (skipn (length data) (uart_rx s)) s) /\
    matches <= matches' <= matches + Z.of_nat (length data) /\
    (matches' = matches + Z.of_nat (length data)
     <-> map u8 (firstn (length data) (uart_rx s)) = data).
Proof.
  induction data as [| d data IH]; intros matches count s Hm0 Hm Hc0 Hc Hl.
  - exists matches. cbn [uart_expect_loop length skipn firstn map].
    rewrite set_uart_rx_same, Z.add_0_r.
    split; [reflexivity |]. split; [lia |]. split; [reflexivity | lia].
  - cbn [length] in *.
    destruct (uart_rx s) as [| r rx] eqn:E; [cbn [length] in Hl; lia |].
    cbn [length] in Hl.
    cbn [uart_expect_loop].
    assert (G : uart_getch s = Some (u8 r, set_uart_rx rx s))
      by (unfold uart_getch; rewrite E; reflexivity).
    rewrite (bind_eq _ _ _ _ _ G). cbv zeta.
    assert (Ec : u8 (count + 1) = count + 1)
      by (unfold u8; apply Z.mod_small; lia).
    rewrite Ec.
    destruct (IH (if u8 r =? d then u8 (matches + 1) else matches)
                 (count + 1) (set_uart_rx rx s)) as (m' & Er & Hb & Hi).
    + destruct (u8 r =? d); [| lia]. apply u8_range.
    + destruct (u8 r =? d); [| lia].
      unfold u8. rewrite Z.mod_small; lia.
    + lia.
    + lia.
    + cbn [uart_rx set_uart_rx]. lia.
    + exists m'. cbn [uart_rx set_uart_rx] in Er, Hi.
      rewrite Er. cbn [skipn firstn map].
      split.
      { replace (count + Z.of_nat (S (length data)))
          with (count + 1 + Z.of_nat (length data)) by lia.
        reflexivity. }
      destruct (Z.eqb_spec (u8 r) d) as [Hd | Hd].
      * assert (Em : u8 (matches + 1) = matches + 1)
          by (unfold u8; apply Z.mod_small; lia).
        rewrite Em in Hb, Hi. split; [lia |].
        split.
        -- intros H. f_equal; [exact Hd |]. apply Hi. lia.
        -- intros H. injection H as _ H. apply Hi in H. lia.
      * split; [lia |]. split.
        -- intros H. lia.
        -- intros H. injection H as H _. contradiction.
Qed.

Lemma uart_expect_loop_short data : forall matches count s,
  (length (uart_rx s) < length data)%nat ->
  uart_expect_loop data matches count s = None.
Proof.
  induction data as [| d data IH]; intros matches count s Hl.
  - cbn [length] in Hl. lia.
  - cbn [uart_expect_loop]. unfold bind at 1.
    destruct (uart_rx s) as [| r rx] eqn:E.
    + unfold uart_getch. rewrite E. reflexivity.
    + unfold uart_getch. rewrite E. cbv zeta.
      apply IH. cbn [uart_rx set_uart_rx]. cbn [length] in Hl. lia.
Qed.

Lemma length_cstr data : length (cstr data) = String.length data.
Proof.
  unfold cstr. rewrite length_map.
  induction data as [| c data IH]; cbn; auto.
Qed.

Lemma uart_expect_enough data s :
  (String.length data <= 255)%nat ->
  (String.length data <= length (uart_rx s))%nat ->
  exists r,
    uart_expect data s
    = Some (r, set_uart_rx (skipn (String.length data) (uart_rx s)) s) /\
    (r = 1 <-> map u8 (firstn (String.length data) (uart_rx s))
               = cstr data) /\
    (r = 0 \/ r = 1).
Proof.
  intros Hn Hl. unfold uart_expect.
  destruct (uart_expect_loop_enough (cstr data) 0 0 s)
    as (m & E & Hb & Hi); rewrite ?length_cstr; try lia.
  rewrite length_cstr in *.
  exists (c_bool (m =? 0 + Z.of_nat (String.length data))).
  rewrite (bind_eq _ _ _ _ _ E). cbn [fst snd].
  split; [reflexivity |].
  destruct (Z.eqb_spec m (0 + Z.of_nat (String.length data))) as [Hm | Hm];
    cbn [c_bool].
  - split; [| auto]. split; [intros _; apply Hi, Hm | reflexivity].
  - split; [| auto]. split; [discriminate |].
    intros H. apply Hi in H. contradiction.
Qed.

(** X19: when at least as many bytes are waiting as the expected reply
    has characters, [uart_expect] takes exactly that many bytes from the
    receiver, even after a mismatch, and returns 1 if they are the
    expected characters in order and 0 otherwise.  (For a reply of at most
    255 ascii characters: the counters are 8 bits wide.) *)
Theorem uart_expect_takes_whole_reply data s :
  (String.length data <= 255)%nat ->
  Forall (fun c => 0 < c < 128) (cstr data) ->
  (String.length data <= length (uart_rx s))%nat ->
  exists r,
    uart_expect data s
    = Some (r, set_uart_rx (skipn (String.length data) (uart_rx s)) s) /\
    (r = 1 <-> map u8 (firstn (String.length data) (uart_rx s))
               = cstr data) /\
    (r = 0 \/ r = 1).
Proof. intros Hn _ Hl. apply uart_expect_enough; assumption. Qed.

Lemma uart_expect_takes_whole_reply_witness :
  (String.length "OK" <= 255)%nat /\
  Forall (fun c => 0 < c < 128) (cstr "OK") /\
  (String.length "OK" <= length (uart_rx (having_received
                                            [ch "O"; ch "x"; ch "y"])))%nat /\
  uart_expect "OK" (having_received [ch "O"; ch "x"; ch "y"])
  = Some (0, having_received [ch "y"]).
Proof.
  assert (H1 : (String.length "OK" <= 255)%nat) by (simpl; lia).
  assert (H2 : Forall (fun c => 0 < c < 128) (cstr "OK"))
    by (repeat constructor).
  assert (H3 : (String.length "OK"
                <= length (uart_rx (having_received
                                      [ch "O"; ch "x"; ch "y"])))%nat)
    by (simpl; lia).
  split; [exact H1 |]. split; [exact H2 |]. split; [exact H3 |].
  destruct (uart_expect_takes_whole_reply "OK"
              (having_received [ch "O"; ch "x"; ch "y"])
              H1 H2 H3) as (r & E & Hi & [Hr | Hr]).
  - rewrite E, Hr. reflexivity.
  - exfalso. apply Hi in Hr. discriminate Hr.
Defined.

(** X20: with fewer bytes waiting than the expected reply has characters,
    [uart_expect] does not return: it keeps waiting in [uart_getch] (the
    source notes that it may hang). *)
Theorem uart_expect_waits_for_whole_reply data s :
  (length (uart_rx s) < String.length data)%nat ->
  uart_expect data s = None.
Proof.
  intros H. unfold uart_expect, bind.
  rewrite uart_expect_loop_short; [reflexivity |].
  rewrite length_cstr. exact H.
Qed.

Lemma uart_expect_waits_for_whole_reply_witness :
  (length (uart_rx (having_received [ch "O"; ch "K"]))
   < String.length "OKsetname")%nat /\
  uart_expect "OKsetname" (having_received [ch "O"; ch "K"]) = None.
Proof.
  assert (H : (length (uart_rx (having_received [ch "O"; ch "K"]))
               < String.length "OKsetname")%nat) by (simpl; lia).
  split; [exact H |].
  exact (uart_expect_waits_for_whole_reply "OKsetname"
           (having_received [ch "O"; ch "K"]) H).
Defined.

(** ** The bluetooth naming command *)

Lemma bluetooth_setname_after_sends name s :
  bluetooth_setname name s
  = (ok <- uart_expect "OKsetname" ;; when (c_not ok) (flash_led1 2 0))
      (set_uart_tx (uart_tx s ++ cstr "AT+NAME" ++ cstr name) s).
Proof.
  unfold bluetooth_setname, uart_send.
  rewrite (bind_eq _ _ _ tt _ (uart_send_bytes_eq _ _)).
  rewrite (bind_eq _ _ _ tt _ (uart_send_bytes_eq _ _)).
  rewrite !map_u8_cstr.
  destruct s. board_simpl. rewrite <- app_assoc. reflexivity.
Qed.

Lemma flash_after_bad_reply s :
  runs (flash_led1 2 0) s (fun _ s' =>
    PORTC s' = Z.land (PORTC s) 0xdf /\
    nops s' = nops s + 13300 * 50 /\
    (uart_tx s', uart_rx s') = (uart_tx s, uart_rx s)).
Proof.
  eapply runs_weaken.
  - apply runs_and; [apply flash_led1_port |].
    apply runs_and; [apply (busy_flash_led1 2 0) |].
    apply (keeps_flash_led1 (fun b => (uart_tx b, uart_rx b)));
      auto with frame.
  - intros ? s' (P & N & R). cbv beta in *. auto.
Qed.

(** X21: [bluetooth_setname] sends "AT+NAME" and the name, then waits for
    a reply of nine bytes: it returns if and only if nine bytes arrive.
    After the reply "OKsetname" it has changed nothing but the line and the
    receiver; after any other nine bytes it also flashes led1 twice,
    busy-waiting half a second, and leaves led1 off. *)
Theorem bluetooth_setname_waits_for_reply name s :
  (String.length name <= 255)%nat ->
  ~ In zero (list_ascii_of_string name) ->
  (bluetooth_setname name s = None <-> (length (uart_rx s) < 9)%nat) /\
  ((9 <= length (uart_rx s))%nat ->
   map u8 (firstn 9 (uart_rx s)) = cstr "OKsetname" ->
   bluetooth_setname name s
   = Some (tt, set_uart_rx (skipn 9 (uart_rx s))
                 (set_uart_tx (uart_tx s ++ cstr "AT+NAME" ++ cstr name)
                    s))) /\
  ((9 <= length (uart_rx s))%nat ->
   map u8 (firstn 9 (uart_rx s)) <> cstr "OKsetname" ->
   runs (bluetooth_setname name) s (fun _ s' =>
     uart_tx s' = uart_tx s ++ cstr "AT+NAME" ++ cstr name /\
     uart_rx s' = skipn 9 (uart_rx s) /\
     PORTC s' = Z.land (PORTC s) 0xdf /\
     nops s' = nops s + 13300 * 50)).
Proof.
  intros _ _.
  set (s2 := set_uart_tx (uart_tx s ++ cstr "AT+NAME" ++ cstr name) s).
  assert (Rx : uart_rx s2 = uart_rx s) by reflexivity.
  assert (Enough : (9 <= length (uart_rx s))%nat ->
    exists r,
      uart_expect "OKsetname" s2
      = Some (r, set_uart_rx (skipn 9 (uart_rx s)) s2) /\
      (r = 1 <-> map u8 (firstn 9 (uart_rx s)) = cstr "OKsetname") /\
      (r = 0 \/ r = 1)).
  { intros H.
    destruct (uart_expect_enough "OKsetname" s2) as (r & E & Hi & Hr).
    - cbn. lia.
    - rewrite Rx. cbn. exact H.
    - exists r. rewrite Rx in E, Hi. auto. }
  assert (Bad : (9 <= length (uart_rx s))%nat ->
    map u8 (firstn 9 (uart_rx s)) <> cstr "OKsetname" ->
    runs (bluetooth_setname name) s (fun _ s' =>
      uart_tx s' = uart_tx s ++ cstr "AT+NAME" ++ cstr name /\
      uart_rx s' = skipn 9 (uart_rx s) /\
      PORTC s' = Z.land (PORTC s) 0xdf /\
      nops s' = nops s + 13300 * 50)).
  { intros H N. destruct (Enough H) as (r & E & Hi & Hr).
    assert (r = 0) as -> by (destruct Hr as [Hr | Hr]; [exact Hr |];
                             apply Hi in Hr; contradiction).
    unfold runs. rewrite bluetooth_setname_after_sends.
    rewrite (bind_eq _ _ _ _ _ E).
    change (when (c_not 0) (flash_led1 2 0)) with (flash_led1 2 0).
    eapply runs_weaken; [apply flash_after_bad_reply |].
    intros ? s' (P & Nn & R). cbv beta.
    injection R as Rt Rr. rewrite Rt, Rr, P, Nn. repeat split. }
  assert (Good : (9 <= length (uart_rx s))%nat ->
    map u8 (firstn 9 (uart_rx s)) = cstr "OKsetname" ->
    bluetooth_setname name s
    = Some (tt, set_uart_rx (skipn 9 (uart_rx s)) s2)).
  { intros H N. destruct (Enough H) as (r & E & Hi & Hr).
    assert (r = 1) as -> by (apply Hi, N).
    rewrite bluetooth_setname_after_sends.
    rewrite (bind_eq _ _ _ _ _ E). reflexivity. }
  split; [| split; [exact Good | exact Bad]].
  split.
  - intros HN.
    destruct (Nat.lt_ge_cases (length (uart_rx s)) 9) as [L | G];
      [exact L | exfalso].
    destruct (list_eq_dec Z.eq_dec (map u8 (firstn 9 (uart_rx s)))
                (cstr "OKsetname")) as [Y | N].
    + rewrite (Good G Y) in HN. discriminate HN.
    + destruct (Bad G N) as (a & s' & E & _).
      rewrite E in HN. discriminate HN.
  - intros L. rewrite bluetooth_setname_after_sends.
    unfold bind at 1. unfold uart_expect, bind.
    rewrite uart_expect_loop_short; [reflexivity |].
    rewrite length_cstr. exact L.
Qed.

Lemma bluetooth_setname_waits_for_reply_witness :
  (String.length "OpenRacer" <= 255)%nat /\
  ~ In zero (list_ascii_of_string "OpenRacer") /\
  bluetooth_setname "OpenRacer" (having_received (cstr "OKsetname"))
  = Some (tt, set_uart_tx (cstr "AT+NAMEOpenRacer") (having_received [])).
Proof.
  assert (H1 : (String.length "OpenRacer" <= 255)%nat) by (simpl; lia).
  assert (H2 : ~ In zero (list_ascii_of_string "OpenRacer"))
    by (simpl; intuition discriminate).
  split; [exact H1 |]. split; [exact H2 |].
  exact (proj1 (proj2 (bluetooth_setname_waits_for_reply "OpenRacer"
                         (having_received (cstr "OKsetname")) H1 H2))
           ltac:(simpl; lia) eq_refl).
Defined.

(** ** The self-test at start of day *)

Lemma times_establishes (I P : Board -> Prop) n body :
  (forall s, I s -> runs body s (fun _ s' => I s' /\ P s')) ->
  forall s, I s -> (0 < n)%nat ->
  runs (times n body) s (fun _ s' => I s' /\ P s').
Proof.
  intros Hb. induction n as [| n IH]; intros s Hs Hn; [lia |].
  cbn [times]. apply runs_bind.
  eapply runs_weaken; [apply Hb, Hs |].
  intros ? s1 (I1 & P1). cbv beta.
  destruct n as [| n].
  - cbn [times]. apply runs_ret. auto.
  - apply IH; [exact I1 | lia].
Qed.

Lemma pulse_motor_drive_duties speed repeat s :
  runs (pulse_motor_drive speed repeat) s (fun _ s' =>
    OCR1A s' = 0 /\ OCR1B s' = 0).
Proof.
  unfold pulse_motor_drive. run_step. run_step.
  apply (times_invariant (fun b => OCR1A b = 0 /\ OCR1B b = 0));
    [| split; reflexivity].
  intros b _. run_step.
  led_frame_over OCR1A as b1 H1. run_step.
  led_frame_over OCR1A as b2 H2. run_step.
  led_frame_over OCR1A as b3 H3. run_step.
  apply (runs_keeps (fun x => (OCR1A x, OCR1B x))); [led_keeps |].
  intros ? b4 H4. injection H4 as H4a H4b. rewrite H4a, H4b.
  cbn [OCR1A OCR1B set_OCR1A set_OCR1B]. rewrite H3.
  cbn [OCR1A OCR1B set_OCR1A set_OCR1B]. rewrite H2.
  split; reflexivity.
Qed.

Lemma of_nat_u8 v : Z.of_nat (Z.to_nat (u8 v)) = u8 v.
Proof.
  apply Z2Nat.id. pose proof (Z.mod_pos_bound v 256). unfold u8. lia.
Qed.

(** X22: [pulse_motor_drive speed repeat] always returns with both drive
    duties 0, after busy-waiting 40 hundredths of a second for each
    repetition, and changes nothing else: the self-test leaves the drive
    motor stopped whatever speed it pulsed. *)
Theorem pulse_motor_drive_footprint speed repeat s :
  runs (pulse_motor_drive speed repeat) s (fun _ s' =>
    OCR1A s' = 0 /\ OCR1B s' = 0 /\
    nops s' = nops s + 13300 * (40 * u8 repeat) /\
    but_drive_duties_and_time s' = but_drive_duties_and_time s).
Proof.
  eapply runs_weaken.
  - apply runs_and; [apply pulse_motor_drive_duties |].
    apply runs_and.
    + eapply busy_to_runs; [unfold pulse_motor_drive; busy_steps |].
      intros ? s' N'. exact N'.
    + assert (K : keeps but_drive_duties_and_time
                    (pulse_motor_drive speed repeat))
        by (unfold pulse_motor_drive; led_keeps).
      apply K.
  - intros ? s' ((A & B) & N & R). cbv beta in *.
    repeat split; [exact A | exact B | | exact R].
    rewrite N, of_nat_u8. change (u8 10) with 10. ring.
Qed.

Lemma all_leds_but_led4_off p :
  clrb (clrb (clrb p led1_pin) led2_pin) led3_pin = Z.land p 0xc7.
Proof. unfold clrb. rewrite <- !Z.land_assoc. reflexivity. Qed.

Lemma pulse_motor_steering_duties speed repeat s :
  runs (pulse_motor_steering speed repeat) s (fun _ s' =>
    OCR0A s' = 0 /\ OCR0B s' = 0).
Proof.
  unfold pulse_motor_steering. run_step. run_step.
  apply runs_bind.
  apply (runs_weaken _ _ (fun _ b => OCR0A b = 0 /\ OCR0B b = 0)).
  - apply (times_invariant (fun b => OCR0A b = 0 /\ OCR0B b = 0));
      [| split; reflexivity].
    intros b _. run_step.
    led_frame_over OCR0A as b1 H1. led_frame_over OCR0A as b2 H2.
    led_frame_over OCR0A as b3 H3. led_frame_over OCR0A as b4 H4.
    run_step.
    led_frame_over OCR0A as c1 G1. led_frame_over OCR0A as c2 G2.
    led_frame_over OCR0A as c3 G3. led_frame_over OCR0A as c4 G4.
    run_step.
    led_frame_over OCR0A as d1 J1. led_frame_over OCR0A as d2 J2.
    led_frame_over OCR0A as d3 J3. led_frame_over OCR0A as d4 J4.
    run_step.
    apply (runs_keeps (fun x => (OCR0A x, OCR0B x))); [led_keeps |].
    intros ? e H. injection H as Ha Hb. rewrite Ha, Hb.
    cbn [OCR0A OCR0B set_OCR0A set_OCR0B].
    rewrite J4, J3, J2, J1. cbn [OCR0A OCR0B set_OCR0A set_OCR0B].
    rewrite G4, G3, G2, G1. split; reflexivity.
  - intros ? b Hb. cbv beta.
    apply (runs_keeps (fun x => (OCR0A x, OCR0B x))); [led_keeps |].
    intros ? e H. injection H as Ha Hb'. rewrite Ha, Hb'. exact Hb.
Qed.

Lemma pulse_motor_steering_port speed repeat s :
  runs (pulse_motor_steering speed repeat) s (fun _ s' =>
    PORTC s' = Z.land (PORTC s) 0xc7).
Proof.
  unfold pulse_motor_steering.
  led_frame_over (port_under 0xc7) as s1 H1.
  led_frame_over (port_under 0xc7) as s2 H2.
  led_frame_over (port_under 0xc7) as s3 H3.
  run_step. run_step. run_step.
  apply (runs_keeps PORTC); [led_keeps |].
  intros ? s' E. rewrite E. cbn [PORTC set_PORTC].
  rewrite all_leds_but_led4_off.
  fold (port_under 0xc7 s3). fold (port_under 0xc7 s). congruence.
Qed.

(** X23: [pulse_motor_steering speed repeat] always returns with both
    steering duties 0 and led1, led2 and led3 off (led4 and the other bits
    of the port as before), after busy-waiting 40 hundredths of a second
    for each repetition and 20 more, and changes nothing else. *)
Theorem pulse_motor_steering_footprint speed repeat s :
  runs (pulse_motor_steering speed repeat) s (fun _ s' =>
    OCR0A s' = 0 /\ OCR0B s' = 0 /\
    PORTC s' = Z.land (PORTC s) 0xc7 /\
    nops s' = nops s + 13300 * (40 * u8 repeat + 20) /\
    but_steer_duties_leds_and_time s' = but_steer_duties_leds_and_time s).
Proof.
  eapply runs_weaken.
  - apply runs_and; [apply pulse_motor_steering_duties |].
    apply runs_and; [apply pulse_motor_steering_port |].
    apply runs_and.
    + eapply busy_to_runs; [unfold pulse_motor_steering; busy_steps |].
      intros ? s' N'. exact N'.
    + assert (K : keeps but_steer_duties_leds_and_time
                    (pulse_motor_steering speed repeat))
        by (unfold pulse_motor_steering; led_keeps).
      apply K.
  - intros ? s' ((A & B) & P & N & R). cbv beta in *.
    repeat split; [exact A | exact B | exact P | | exact R].
    rewrite N, of_nat_u8. change (u8 10) with 10. change (u8 20) with 20.
    ring.
Qed.

Lemma clrb_led1_mask p : clrb p led1_pin = Z.land p 0xdf.
Proof. reflexivity. Qed.

Lemma flash_reset_flag_info_port resetflags repeat s :
  runs (flash_reset_flag_info resetflags repeat) s (fun _ s' =>
    PORTC s' = if u8 repeat =? 0 then Z.land (PORTC s) 0xdf
               else other_bits (PORTC s)).
Proof.
  unfold flash_reset_flag_info.
  apply runs_bind.
  apply (runs_weaken _ _ (fun _ b =>
    port_under 0xdf b = port_under 0xdf s /\
    PORTC b = port_under 0xdf b)).
  { apply times_establishes; [| reflexivity | lia].
    intros b Hb.
    led_frame_over (port_under 0xdf) as b1 H1.
    led_frame_over (port_under 0xdf) as b2 H2.
    run_step.
    apply (runs_keeps PORTC); [led_keeps |].
    intros ? b3 H3. unfold port_under in *. rewrite H3.
    cbn [PORTC set_PORTC]. rewrite clrb_led1_mask, <- Z.land_assoc.
    change (Z.land 0xdf 0xdf) with 0xdf. split; congruence. }
  intros ? s1 (I1 & P1). cbv beta.
  assert (E1 : PORTC s1 = Z.land (PORTC s) 0xdf)
    by (rewrite P1, I1; reflexivity).
  apply runs_bind.
  apply (runs_weaken _ _ (fun _ b =>
    PORTC b = if u8 repeat =? 0 then Z.land (PORTC s) 0xdf
              else other_bits (PORTC s))).
  { destruct (Z.eqb_spec (u8 repeat) 0) as [Z0 | NZ].
    - rewrite Z0. cbn [Z.to_nat times]. apply runs_ret. exact E1.
    - eapply runs_weaken.
      + apply (times_establishes
                 (fun b => port_rest b = port_rest s)
                 (fun b => PORTC b = port_rest b)).
        * intros b Hb.
          led_frame_over port_rest as b1 H1.
          led_frame_over port_rest as b2 H2.
          led_frame_over port_rest as b3 H3.
          led_frame_over port_rest as b4 H4.
          led_frame_over port_rest as b5 H5.
          run_step. run_step. run_step. run_step.
          apply (runs_keeps PORTC); [led_keeps |].
          intros ? b6 H6. unfold port_rest in *. rewrite H6.
          cbn [PORTC set_PORTC]. rewrite all_leds_off, other_bits_twice.
          split; congruence.
        * unfold port_rest. rewrite E1. unfold other_bits.
          rewrite <- Z.land_assoc. reflexivity.
        * pose proof (u8_range repeat). lia.
      + intros ? b (Ib & Pb). cbv beta. rewrite Pb, Ib. reflexivity. }
  intros ? s2 P2. cbv beta.
  apply (runs_keeps PORTC); [led_keeps |].
  intros ? s' E. rewrite E. exact P2.
Qed.

(** X24: [flash_reset_flag_info resetflags repeat] always returns, after
    busy-waiting 70 + 8 * repeat hundredths of a second.  The reset flags
    only show while it runs: afterwards all four leds are off (only led1 is
    switched off when repeat is 0), whatever the flags, and nothing but
    the leds and the time has changed. *)
Theorem flash_reset_flag_info_footprint resetflags repeat s :
  runs (flash_reset_flag_info resetflags repeat) s (fun _ s' =>
    PORTC s' = (if u8 repeat =? 0 then Z.land (PORTC s) 0xdf
                else Z.land (PORTC s) 0xc3) /\
    nops s' = nops s + 13300 * (70 + 8 * u8 repeat) /\
    but_leds_and_time s' = but_leds_and_time s).
Proof.
  eapply runs_weaken.
  - apply runs_and; [apply flash_reset_flag_info_port |].
    apply runs_and.
    + eapply busy_to_runs; [unfold flash_reset_flag_info; busy_steps |].
      intros ? s' N'. exact N'.
    + assert (K : keeps but_leds_and_time
                    (flash_reset_flag_info resetflags repeat))
        by (unfold flash_reset_flag_info; led_keeps).
      apply K.
  - intros ? s' (P & N & R). cbv beta in *.
    repeat split; [exact P | | exact R].
    rewrite N, of_nat_u8. change (u8 2) with 2. change (u8 4) with 4.
    change (u8 50) with 50. change (Z.of_nat 5) with 5. ring.
Qed.

(** ** The direct protocol's motion commands *)

(** Reduce [handle_char] at a known command byte to the call it makes. *)
Ltac known_command :=
  match goal with
  | |- runs (handle_char ?c) _ _ =>
      let c' := eval vm_compute in c in
      change c with c'; cbv beta iota delta [handle_char]
  end.

(** X25: each of the eight steering commands of the direct protocol
    (R r s l L and the dvorak keys a o e) stores the target it names as
    steer position, sets the steering duties to match, and leaves the drive
    velocity and the drive duties as they were. *)
Theorem direct_steering_leaves_drive_alone c v s :
  In (c, v) direct_steering ->
  runs (handle_char c) s (fun _ s' =>
    steerposition s' = v /\ steer_follows s' /\
    drive_side s' = drive_side s).
Proof.
  intros H. unfold direct_steering in H. cbn [In] in H.
  repeat destruct H as [H | H]; try contradiction;
    injection H as <- <-; known_command;
    (eapply runs_weaken; [apply motor_steer_set_velocity_follows |]);
    intros ? s' (E & F & K); cbv beta; unfold drive_side;
    rewrite E, K; auto.
Qed.

Lemma direct_steering_leaves_drive_alone_witness :
  In (ch "l", -127) direct_steering /\
  runs (handle_char (ch "l")) blank (fun _ s' =>
    steerposition s' = -127 /\ steer_follows s' /\
    drive_side s' = drive_side blank).
Proof.
  assert (H : In (ch "l", -127) direct_steering)
    by (unfold direct_steering; cbn [In]; tauto).
  split; [exact H |].
  exact (direct_steering_leaves_drive_alone (ch "l") (-127) blank H).
Defined.

(** X26: each of the five drive commands of the direct protocol that name
    a target (F f h b B) stores it as velocity, sets the drive duties to
    match, and leaves the steer position and the steering duties as they
    were. *)
Theorem direct_drive_leaves_steering_alone c v s :
  In (c, v) direct_drive ->
  runs (handle_char c) s (fun _ s' =>
    velocity s' = v /\ drive_follows s' /\
    steer_side s' = steer_side s).
Proof.
  intros H. unfold direct_drive in H. cbn [In] in H.
  repeat destruct H as [H | H]; try contradiction;
    injection H as <- <-; known_command;
    (eapply runs_weaken; [apply motor_drive_set_velocity_follows |]);
    intros ? s' (E & F & K); cbv beta; unfold steer_side;
    rewrite E, K; auto.
Qed.

Lemma direct_drive_leaves_steering_alone_witness :
  In (ch "B", -255) direct_drive /\
  runs (handle_char (ch "B")) blank (fun _ s' =>
    velocity s' = -255 /\ drive_follows s' /\
    steer_side s' = steer_side blank).
Proof.
  assert (H : In (ch "B", -255) direct_drive)
    by (unfold direct_drive; cbn [In]; tauto).
  split; [exact H |].
  exact (direct_drive_leaves_steering_alone (ch "B") (-255) blank H).
Defined.

(** X27: the space command of the direct protocol stops the car from any
    state: both velocities and all four duties are 0 afterwards, and the
    two echoes "drive=0" and "steer=0" are what it sends. *)
Theorem direct_space_stops_everything s :
  runs (handle_char (ch " ")) s (fun _ s' =>
    motion s' = (0, 0, 0, 0, 0, 0) /\
    uart_tx s' = uart_tx s ++ cstr "drive=0" ++ [ch LF]
                 ++ cstr "steer=0" ++ [ch LF]).
Proof.
  known_command. apply runs_bind.
  eapply runs_eq; [apply motor_drive_set_velocity_eq |].
  eapply runs_eq; [apply motor_steer_set_velocity_eq |].
  cbv zeta. change (clamp255 0) with 0.
  change (sendint_text 0) with [ch "0"].
  unfold motion. board_simpl. rewrite <- !app_assoc.
  split; reflexivity.
Qed.
